(** * OverLeafAI: the segment extractor, the fallback converter, the
      normalization pass, the /convert handler and the editor's conversion
      cache, embedded from [backend/src/server.js] and [frontend/src/App.tsx]
      (and, for its extractor, the earlier revision of the editor).

    JavaScript strings are sequences of UTF-16 code units; they are modelled
    as [list N], one number per code unit.  Regular expressions of the source
    are rendered as matchers that follow the backtracking order of the
    ECMAScript semantics for the constructs they use (literals, the lazy
    [(.*?)] group, [^], a negated class and a lookahead). *)

From Stdlib Require Import NArith List Bool Lia String Ascii QArith Qminmax.
From stdpp Require Import gmap list fin_maps.

Local Open Scope N_scope.
Local Open Scope nat_scope.
Local Open Scope list_scope.

(** ** Strings *)

(** A Rocq string literal read as a JS string (one code unit per byte). *)
Definition lit (s : string) : list N :=
  List.map N_of_ascii (list_ascii_of_string s).

Definition star : N := 42%N.      (* '*' *)
Definition bslash : N := 92%N.    (* '\' *)
Definition comma : N := 44%N.     (* ',' *)
Definition rparen : N := 41%N.    (* ')' *)

(** [WhiteSpace] and [LineTerminator] of ECMAScript: the code units removed by
    [String.prototype.trim]. *)
Definition isLineTerminator (c : N) : bool :=
  (c =? 10)%N || (c =? 13)%N || (c =? 8232)%N || (c =? 8233)%N.

Definition isWhiteSpace (c : N) : bool :=
  (c =? 9)%N || (c =? 11)%N || (c =? 12)%N || (c =? 32)%N || (c =? 160)%N
  || (c =? 5760)%N || ((8192 <=? c)%N && (c <=? 8202)%N)
  || (c =? 8239)%N || (c =? 8287)%N || (c =? 12288)%N || (c =? 65279)%N.

Definition isTrimmed (c : N) : bool := isWhiteSpace c || isLineTerminator c.

Fixpoint trimStart (s : list N) : list N :=
  match s with
  | c :: rest => if isTrimmed c then trimStart rest else s
  | [] => []
  end.

Definition trimEnd (s : list N) : list N := rev (trimStart (rev s)).

(** [s.trim()] *)
Definition trim (s : list N) : list N := trimEnd (trimStart s).

(** Truthiness of a string: [''] is the only falsy one. *)
Definition truthy (s : list N) : bool :=
  match s with [] => false | _ => true end.

(** [input.slice(from, to)] for [0 <= from] and [0 <= to]. *)
Definition slice (s : list N) (from to : nat) : list N :=
  firstn (to - from) (skipn from s).

(** ** Regular expressions *)

(** [a-zA-Z] *)
Definition isAsciiLetter (c : N) : bool :=
  ((65 <=? c)%N && (c <=? 90)%N) || ((97 <=? c)%N && (c <=? 122)%N).

(** Canonicalize of a non-unicode, ignore-case pattern: the upper-case
    mapping, except that a code unit of 128 or more is never sent to one below
    128.  The patterns of this program are ASCII, so only the ASCII part of the
    mapping can make a pattern character and an input character meet. *)
Definition canonicalize (c : N) : N :=
  if ((97 <=? c)%N && (c <=? 122)%N) then (c - 32)%N else c.

(** A literal pattern under the [i] flag, matched at the head of [s]; the
    result is what follows the match. *)
Fixpoint literal_ci (pat s : list N) : option (list N) :=
  match pat with
  | [] => Some s
  | p :: pat' =>
      match s with
      | c :: rest =>
          if (canonicalize c =? canonicalize p)%N then literal_ci pat' rest
          else None
      | [] => None
      end
  end.

(** A literal pattern without the [i] flag: is [pat] a prefix of [s]? *)
Fixpoint literal (pat s : list N) : bool :=
  match pat with
  | [] => true
  | p :: pat' =>
      match s with
      | c :: rest => (c =? p)%N && literal pat' rest
      | [] => false
      end
  end.

(** The lazy group [(.*?)] followed by the literal [d] and then by the rest of
    the pattern [k]: at each position the continuation is tried first, and one
    more character (any but a line terminator, there being no [s] flag) is taken
    into the group only when it fails. *)
Fixpoint lazy_group {R} (d : N) (k : list N -> option R) (s : list N)
  : option (list N * R) :=
  match s with
  | [] => None
  | c :: rest =>
      let longer :=
        if isLineTerminator c then None
        else match lazy_group d k rest with
             | Some (g, r) => Some (c :: g, r)
             | None => None
             end in
      if (c =? d)%N then
        match k rest with
        | Some r => Some ([], r)
        | None => longer
        end
      else longer
  end.

(** What a global [replace] needs from one attempt at one position: the text to
    put in place of the match and the number of code units matched. *)
Definition matcher := bool -> list N -> option (list N * nat).

(** [s.replace(regex, ...)] with the [g] flag, for a regex that never matches
    the empty string: positions are tried from left to right, a match is
    replaced and the search resumes right after it.  [at0] tells whether the
    position is index 0 (where [^] holds); [skip] counts the code units of the
    last match that are still to be passed over. *)
Fixpoint replace_from (m : matcher) (at0 : bool) (skip : nat) (s : list N)
  : list N :=
  match s with
  | [] => []
  | c :: rest =>
      match skip with
      | S k => replace_from m false k rest
      | O =>
          match m at0 s with
          | Some (r, n) => r ++ replace_from m false (Nat.pred n) rest
          | None => c :: replace_from m false 0 rest
          end
      end
  end.

Definition replaceAll (m : matcher) (s : list N) : list N :=
  replace_from m true 0 s.

(** ** basicInlineConverter *)

(** [/squareroot\((.*?)\)/gi] with the replacement ['\\\\sqrt{$1}']: the
    source literal has four backslashes, so the replacement text has two. *)
Definition squareroot_match : matcher := fun _ s =>
  match literal_ci (lit "squareroot(") s with
  | None => None
  | Some s1 =>
      match lazy_group rparen Some s1 with
      | None => None
      | Some (g1, rest) =>
          Some (lit "\\sqrt{" ++ g1 ++ lit "}", length s - length rest)
      end
  end.

(** [/integral\((.*?),(.*?),(.*?),(.*?)\)/gi] with the replacement
    ['\\\\int_{ $1 }^{ $2 } $3 \\\\mathrm{d}$4']. *)
Definition integral_match : matcher := fun _ s =>
  match literal_ci (lit "integral(") s with
  | None => None
  | Some s1 =>
      match lazy_group comma (lazy_group comma (lazy_group comma
              (lazy_group rparen Some))) s1 with
      | None => None
      | Some (g1, (g2, (g3, (g4, rest)))) =>
          Some (lit "\\int_{ " ++ g1 ++ lit " }^{ " ++ g2 ++ lit " } " ++ g3
                  ++ lit " \\mathrm{d}" ++ g4,
                length s - length rest)
      end
  end.

(** [/fraction\((.*?),(.*?)\)/gi] with the replacement ['\\\\frac{$1}{$2}']. *)
Definition fraction_match : matcher := fun _ s =>
  match literal_ci (lit "fraction(") s with
  | None => None
  | Some s1 =>
      match lazy_group comma (lazy_group rparen Some) s1 with
      | None => None
      | Some (g1, (g2, rest)) =>
          Some (lit "\\frac{" ++ g1 ++ lit "}{" ++ g2 ++ lit "}",
                length s - length rest)
      end
  end.

Definition basicInlineConverter (input : list N) : list N :=
  trim (replaceAll fraction_match
          (replaceAll integral_match
             (replaceAll squareroot_match input))).

(** ** normalizeLatex *)

Definition commands : list (list N) :=
  List.map lit ["int"; "sum"; "sqrt"; "sin"; "cos"; "tan"; "log"; "nabla";
                "vec"; "cdot"; "times"; "boxed"]%string.

(** The lookahead [(?=[^a-zA-Z]|$)] on what follows the command. *)
Definition lookahead (s : list N) : bool :=
  match s with
  | [] => true
  | c :: _ => negb (isAsciiLetter c)
  end.

(** [new RegExp(`(^|[^\\\\])(${command})(?=[^a-zA-Z]|$)`, 'g')] with the
    callback [(match, prefix, cmd) => `${prefix}\\${cmd}`]: the first
    alternative of the prefix is the empty match at index 0, the second one
    code unit other than a backslash. *)
Definition command_match (command : list N) : matcher := fun at0 s =>
  if at0 && literal command s && lookahead (skipn (length command) s)
  then Some (bslash :: command, length command)
  else
    match s with
    | c :: rest =>
        if negb (c =? bslash)%N && literal command rest
           && lookahead (skipn (length command) rest)
        then Some (c :: bslash :: command, S (length command))
        else None
    | [] => None
    end.

Definition normalizeLatex (latex : list N) : list N :=
  if truthy latex
  then fold_left (fun normalized command =>
                    replaceAll (command_match command) normalized)
                 commands latex
  else [].

(** ** extractSegments (server.js) *)

(** [RawSegment], with [type: 'math' | 'text'], is what the extractor yields;
    [Segment], with [type: 'latex' | 'text' | 'placeholder'], is what the
    server answers (['latex'] and ['text'] only) and the editor displays.
    Both have a [content: string]. *)
Module Raw.
Inductive type := math | text.
End Raw.

Record RawSegment := mkRaw { rtype : Raw.type; rcontent : list N }.

Inductive SegType := latex | text | placeholder.

Record Segment := mkSeg { type : SegType; content : list N }.

(** Index of the first [c] in [s]. *)
Fixpoint indexOf (c : N) (s : list N) : option nat :=
  match s with
  | [] => None
  | x :: rest =>
      if (x =? c)%N then Some 0
      else match indexOf c rest with
           | Some i => Some (S i)
           | None => None
           end
  end.

(** [regex.exec(input)] for [/\*(.*?)\*/gs] with the search starting at
    [lastIndex]: the leftmost asterisk that has a later one (the first
    asterisk, then, since if it has none after it no other has), the group
    being the shortest text between it and a closing asterisk (with the [s]
    flag the dot takes every code unit).  The result is [match.index],
    [match[1]] and the new [regex.lastIndex]. *)
Definition star_exec (input : list N) (lastIndex : nat)
  : option (nat * list N * nat) :=
  match indexOf star (skipn lastIndex input) with
  | None => None
  | Some a =>
      let after := skipn (lastIndex + a + 1) input in
      match indexOf star after with
      | None => None
      | Some b => Some (lastIndex + a, firstn b after, lastIndex + a + b + 2)
      end
  end.

Definition push {A} (l : list A) (x : A) : list A := l ++ [x].

(** The [while] loop; every turn moves [lastIndex] forward by two or more, so
    [length input] turns are more than the loop can take. *)
Fixpoint extractLoop (fuel : nat) (input : list N) (lastIndex : nat)
  (segments : list RawSegment) : list RawSegment * nat :=
  match fuel with
  | O => (segments, lastIndex)
  | S fuel' =>
      match star_exec input lastIndex with
      | None => (segments, lastIndex)
      | Some (index, inside, next) =>
          let segments1 :=
            if lastIndex <? index then
              let outside := slice input lastIndex index in
              if truthy (trim outside)
              then push segments (mkRaw Raw.text (trim outside))
              else segments
            else segments in
          let segments2 :=
            if truthy (trim inside)
            then push segments1 (mkRaw Raw.math (trim inside))
            else segments1 in
          extractLoop fuel' input next segments2
      end
  end.

Definition extractSegments (input : list N) : list RawSegment :=
  let '(segments, lastIndex) := extractLoop (length input) input 0 [] in
  let segments1 :=
    if lastIndex <? length input then
      let tail := skipn lastIndex input in
      if truthy (trim tail) then push segments (mkRaw Raw.text (trim tail))
      else segments
    else segments in
  if (length segments1 =? 0) && truthy (trim input)
  then push segments1 (mkRaw Raw.text (trim input))
  else segments1.

(** ** convertWithOpenAI and convertMathToLatex *)

(** JSON values: a request body, and the items of the array that
    [extractArrayFromResponse] gets out of the service's answer. *)
#[warnings="-register-all"]
Inductive Json :=
| JNull
| JBool (b : bool)
| JNumber (q : Q)
| JString (s : list N)
| JArray (items : list Json)
| JObject (fields : list (list N * Json)).

(** The external service as [convertWithOpenAI] sees it: either [axios.post]
    throws, or [extractArrayFromResponse] yields an array. *)
Inductive Reply :=
| RequestFails
| Parsed (items : list Json).

Definition Service := list (list N) -> Reply.

Inductive outcome (A : Type) :=
| Returns (a : A)
| Throws.
Arguments Returns {A} a.
Arguments Throws {A}.

(** Calls worth recording: the conversion entered by the route, and the
    request sent to the external service. *)
Inductive Call :=
| CallConvert (input : list N)
| CallService (instructions : list (list N)).

(** [(item) => (typeof item === 'string' ? item.trim() : '')] *)
Definition itemString (item : Json) : list N :=
  match item with
  | JString s => trim s
  | _ => []
  end.

(** An empty array is answered with
    [throw new Error('Empty response from OpenAI')]. *)
Definition convertWithOpenAI (service : Service)
  (mathInstructions : list (list N)) : outcome (list (list N)) * list Call :=
  match mathInstructions with
  | [] => (Returns [], [])
  | _ =>
      let calls := [CallService mathInstructions] in
      match service mathInstructions with
      | RequestFails => (Throws, calls)
      | Parsed [] => (Throws, calls)
      | Parsed parsed => (Returns (List.map itemString parsed), calls)
      end
  end.

Definition isMath (segment : RawSegment) : bool :=
  match rtype segment with Raw.math => true | Raw.text => false end.

(** [latexList[index] ?? basicInlineConverter(segment.content)]: the items are
    strings, so only an index past the end is nullish. *)
Definition backfill (mathSegments : list RawSegment)
  (latexList : list (list N))
  : list (list N) :=
  imap (fun index segment =>
          match latexList !! index with
          | Some l => l
          | None => basicInlineConverter (rcontent segment)
          end) mathSegments.

(** The callback of [segments.map] at the end of [convertMathToLatex], with
    the counter [latexIndex] it increments; [latexList[latexIndex++] || '']
    is the empty string past the end. *)
Fixpoint mergeMap (latexList : list (list N)) (latexIndex : nat)
  (segments : list RawSegment) : list (option Segment) :=
  match segments with
  | [] => []
  | segment :: rest =>
      if negb (truthy (rcontent segment))
      then None :: mergeMap latexList latexIndex rest
      else if isMath segment then
        let converted :=
          normalizeLatex (default [] (latexList !! latexIndex)) in
        (if negb (truthy converted) then None
         else Some (mkSeg latex converted))
          :: mergeMap latexList (S latexIndex) rest
      else Some (mkSeg text (rcontent segment))
             :: mergeMap latexList latexIndex rest
  end.

(** [.filter(Boolean)] on an array of objects and [null]s. *)
Fixpoint filterBoolean {A} (l : list (option A)) : list A :=
  match l with
  | [] => []
  | Some x :: rest => x :: filterBoolean rest
  | None :: rest => filterBoolean rest
  end.

Definition convertMathToLatex (hasOpenAIKey : bool) (service : Service)
  (input : list N) : outcome (list Segment) * list Call :=
  let segments := extractSegments input in
  let mathSegments := List.filter isMath segments in
  match mathSegments with
  | [] =>
      (Returns (filterBoolean
                  (List.map (fun segment =>
                               if truthy (rcontent segment)
                               then Some (mkSeg text (rcontent segment))
                               else None) segments)), [])
  | _ =>
      let '(converted, calls) :=
        if hasOpenAIKey
        then convertWithOpenAI service (List.map rcontent mathSegments)
        else (Returns (List.map (fun segment =>
                                   basicInlineConverter (rcontent segment))
                                mathSegments), []) in
      match converted with
      | Throws => (Throws, calls)
      | Returns latexList =>
          let latexList1 :=
            if length latexList <? length mathSegments
            then backfill mathSegments latexList
            else latexList in
          (Returns (filterBoolean (mergeMap latexList1 0 segments)), calls)
      end
  end.

(** ** The route [POST /convert] *)

(** The value of a JS expression that may be [undefined]. *)
Definition JsValue := option Json.

Definition truthyValue (v : JsValue) : bool :=
  match v with
  | None => false
  | Some JNull => false
  | Some (JBool b) => b
  | Some (JNumber q) => negb (Qeq_bool q 0)
  | Some (JString s) => truthy s
  | Some (JArray _) => true
  | Some (JObject _) => true
  end.

Definition typeOf (v : JsValue) : string :=
  match v with
  | None => "undefined"
  | Some JNull => "object"
  | Some (JBool _) => "boolean"
  | Some (JNumber _) => "number"
  | Some (JString _) => "string"
  | Some (JArray _) => "object"
  | Some (JObject _) => "object"
  end.

(** The property [name] of the object parsed from the members [fields] in
    the order of the text: as [JSON.parse] has it, the last of several members
    of one name is the one that stays. *)
Fixpoint getField (name : list N) (fields : list (list N * Json)) : JsValue :=
  match fields with
  | [] => None
  | (k, v) :: rest =>
      match getField name rest with
      | Some later => Some later
      | None => if decide (k = name) then Some v else None
      end
  end.

(** [const { input } = req.body || {}] *)
Definition destructureInput (body : JsValue) : JsValue :=
  if truthyValue body then
    match body with
    | Some (JObject fields) => getField (lit "input") fields
    | _ => None
    end
  else None.

Inductive ResponseBody :=
| ErrorBody (error : string)
| SegmentsBody (segments : list Segment).

Record Response := mkResponse { statusCode : nat; payload : ResponseBody }.

Definition dquote : string := String (ascii_of_nat 34) EmptyString.

Definition invalidInputError : string :=
  ("Request body must include an " ++ dquote ++ "input" ++ dquote
   ++ " string with the math expression.")%string.
Definition conversionFailedError : string :=
  "Failed to convert input to LaTeX. Check server logs for details.".

Definition postConvert (hasOpenAIKey : bool) (service : Service)
  (body : JsValue) : Response * list Call :=
  let input := destructureInput body in
  if negb (truthyValue input) || negb (String.eqb (typeOf input) "string")
  then (mkResponse 400 (ErrorBody invalidInputError), [])
  else
    let str := match input with Some (JString s) => s | _ => [] end in
    match convertMathToLatex hasOpenAIKey service str with
    | (Returns segments, calls) =>
        (mkResponse 200 (SegmentsBody segments), CallConvert str :: calls)
    | (Throws, calls) =>
        (mkResponse 500 (ErrorBody conversionFailedError),
         CallConvert str :: calls)
    end.

(** ** The editor (App.tsx) *)

Module App.

(** [extractSegments] of App.tsx: the loop of the server's extractor, but
    the spans are pushed as they are, untrimmed. *)
Fixpoint extractLoop (fuel : nat) (value : list N) (lastIndex : nat)
  (output : list RawSegment) : list RawSegment * nat :=
  match fuel with
  | O => (output, lastIndex)
  | S fuel' =>
      match star_exec value lastIndex with
      | None => (output, lastIndex)
      | Some (index, inside, next) =>
          let output1 :=
            if lastIndex <? index then
              let outside := slice value lastIndex index in
              if truthy (trim outside)
              then push output (mkRaw Raw.text outside)
              else output
            else output in
          let output2 :=
            if truthy (trim inside)
            then push output1 (mkRaw Raw.math inside)
            else output1 in
          extractLoop fuel' value next output2
      end
  end.

Definition extractSegments (value : list N) : list RawSegment :=
  let '(output, lastIndex) := extractLoop (length value) value 0 [] in
  let output1 :=
    if lastIndex <? length value then
      let tail := skipn lastIndex value in
      if truthy (trim tail) then push output (mkRaw Raw.text tail)
      else output
    else output in
  if (length output1 =? 0) && truthy (trim value)
  then push output1 (mkRaw Raw.text value)
  else output1.

End App.

(** [extractSegments] of the earlier revision of the editor: it trims each
    span before testing and pushing it. *)
Module Earlier.

Fixpoint extractLoop (fuel : nat) (value : list N) (lastIndex : nat)
  (output : list RawSegment) : list RawSegment * nat :=
  match fuel with
  | O => (output, lastIndex)
  | S fuel' =>
      match star_exec value lastIndex with
      | None => (output, lastIndex)
      | Some (index, matched, next) =>
          let output1 :=
            if lastIndex <? index then
              let outside := trim (slice value lastIndex index) in
              if truthy outside then push output (mkRaw Raw.text outside)
              else output
            else output in
          let inside := trim matched in
          let output2 :=
            if truthy inside then push output1 (mkRaw Raw.math inside)
            else output1 in
          extractLoop fuel' value next output2
      end
  end.

Definition extractSegments (value : list N) : list RawSegment :=
  let '(output, lastIndex) := extractLoop (length value) value 0 [] in
  let output1 :=
    if lastIndex <? length value then
      let tail := trim (skipn lastIndex value) in
      if truthy tail then push output (mkRaw Raw.text tail) else output
    else output in
  if (length output1 =? 0) && truthy (trim value)
  then push output1 (mkRaw Raw.text (trim value))
  else output1.

End Earlier.

(** The conversion effect of [App], the same in both revisions of the editor
    but for the extractor it calls: [App.extractSegments] in App.tsx, and in
    the earlier revision an [extractSegments] that trims as the server's. *)

Inductive Status := idle | loading | error.

Record AppState := mkApp {
  segments : list Segment;
  parsedSegments : list RawSegment;
  status : Status;
  errorMessage : option string;
  latexCache : gmap (list N) (list N)   (* latexCacheRef.current *)
}.

Definition initialState : AppState := mkApp [] [] idle None ∅.

(** What the timer set by the effect will post, and the snapshot its callback
    closes over. *)
Record Pending := mkPending {
  request : list N;
  mathSnapshot : list (list N)
}.

(** How the posted request ends: [axios.post] resolves with [data], rejects
    (with [error.response?.data?.error] when there is one), or the effect was
    cleaned up or the request cancelled before the callback could act. *)
Inductive Delivery :=
| Resolved (data : option (list Segment))
| Rejected (message : option string)
| Discarded.

Section ConversionEffect.

Variable extractSegments : list N -> list RawSegment.

(** The callback of [structured.map] with the flag [needsConversion]. *)
Fixpoint hydrate (cache : gmap (list N) (list N)) (needsConversion : bool)
  (structured : list RawSegment) : list Segment * bool :=
  match structured with
  | [] => ([], needsConversion)
  | segment :: rest =>
      match rtype segment with
      | Raw.text =>
          let '(hydrated, needs) := hydrate cache needsConversion rest in
          (mkSeg text (rcontent segment) :: hydrated, needs)
      | Raw.math =>
          match cache !! rcontent segment with
          | Some ((_ :: _) as cached) =>
              let '(hydrated, needs) := hydrate cache needsConversion rest in
              (mkSeg latex cached :: hydrated, needs)
          | _ =>
              let '(hydrated, needs) := hydrate cache true rest in
              (mkSeg placeholder (rcontent segment) :: hydrated, needs)
          end
      end
  end.

(** The body of the effect, up to the timer it may set. *)
Definition conversionEffect (st : AppState) (input : list N)
  : AppState * option Pending :=
  let cache := latexCache st in
  if negb (truthy (trim input))
  then (mkApp [] [] idle None cache, None)
  else
    let structured := extractSegments input in
    let hasMath := existsb isMath structured in
    if negb hasMath
    then (mkApp (List.map (fun segment => mkSeg text (rcontent segment))
                    structured)
                structured idle None cache, None)
    else
      let '(hydrated, needsConversion) := hydrate cache false structured in
      if negb needsConversion
      then (mkApp hydrated structured idle None cache, None)
      else
        (mkApp hydrated structured loading None cache,
         Some (mkPending input
                 (List.map rcontent (List.filter isMath structured)))).

Definition isLatex (segment : Segment) : bool :=
  match type segment with latex => true | _ => false end.

(** [latexSegments.forEach((segment, index) => ...)] on the copy of the
    cache. *)
Fixpoint cacheUpdate (mathSnapshot : list (list N)) (index : nat)
  (latexSegments : list Segment) (cache : gmap (list N) (list N))
  : gmap (list N) (list N) :=
  match latexSegments with
  | [] => cache
  | segment :: rest =>
      let cache1 :=
        match mathSnapshot !! index with
        | Some ((_ :: _) as original) => <[original := content segment]> cache
        | _ => cache
        end in
      cacheUpdate mathSnapshot (S index) rest cache1
  end.

Definition unableToConvert : string := "Unable to convert input.".

(** The callback of the timer. *)
Definition timerCallback (st : AppState) (pending : Pending)
  (delivery : Delivery) : AppState :=
  match delivery with
  | Discarded => st
  | Resolved data =>
      let answered := match data with Some l => l | None => [] end in
      let latexSegments := List.filter isLatex answered in
      mkApp answered (parsedSegments st) idle (errorMessage st)
            (cacheUpdate (mathSnapshot pending) 0 latexSegments
               (latexCache st))
  | Rejected message =>
      mkApp (segments st) (parsedSegments st) error
            (Some (match message with
                   | Some m => m
                   | None => unableToConvert
                   end))
            (latexCache st)
  end.

(** One run of the effect together with the end of its request. *)
Definition cycle (st : AppState) (input : list N) (delivery : Delivery)
  : AppState :=
  match conversionEffect st input with
  | (st1, None) => st1
  | (st1, Some pending) => timerCallback st1 pending delivery
  end.

(** What the server's answer is to [axios]: a 2xx status resolves, any other
    rejects with the body's [error]. *)
Definition deliver (response : Response) : Delivery :=
  match statusCode response, payload response with
  | 200, SegmentsBody l => Resolved (Some l)
  | 200, ErrorBody _ => Resolved None
  | _, ErrorBody e => Rejected (Some e)
  | _, SegmentsBody _ => Rejected None
  end.

(** The request [axios.post(`${API_BASE_URL}/convert`, { input })] answered
    by this repository's server. *)
Definition serverDelivery (hasOpenAIKey : bool) (service : Service)
  (input : list N) : Delivery :=
  deliver (fst (postConvert hasOpenAIKey service
                  (Some (JObject [(lit "input", JString input)])))).

(** One run of the effect against this repository's server. *)
Definition reconcile (hasOpenAIKey : bool) (service : Service)
  (st : AppState) (input : list N) : AppState :=
  cycle st input (serverDelivery hasOpenAIKey service input).

(** The states an editing session goes through: every run of the effect
    ends with the server's answer, with a failed request, or discarded. *)
Inductive reachable : AppState -> Prop :=
| reach_initial : reachable initialState
| reach_reconcile st hasOpenAIKey service input :
    reachable st -> reachable (reconcile hasOpenAIKey service st input)
| reach_rejected st input message :
    reachable st -> reachable (cycle st input (Rejected message))
| reach_discarded st input :
    reachable st -> reachable (cycle st input Discarded).

End ConversionEffect.

(** ** More of the string operations of the source *)

Definition lbrace : N := 123%N.       (* '{' *)
Definition rbrace : N := 125%N.       (* '}' *)
Definition underscore : N := 95%N.    (* '_' *)
Definition caret : N := 94%N.         (* '^' *)
Definition tilde : N := 126%N.        (* '~' *)
Definition percent : N := 37%N.       (* '%' *)
Definition ampersand : N := 38%N.     (* '&' *)
Definition hash : N := 35%N.          (* '#' *)
Definition newline : N := 10%N.       (* '\n' *)
Definition space : N := 32%N.         (* ' ' *)
Definition dollar : N := 36%N.        (* '$' *)
Definition lbracket : N := 91%N.      (* '[' *)
Definition rbracket : N := 93%N.      (* ']' *)
Definition dquoteUnit : N := 34%N.    (* the double quote *)

Definition isUnit (x : N) : N -> bool := fun c => (c =? x)%N.

(** [s.replace(/[class]/g, ...)]: a match is one code unit of the class. *)
Definition class_match (class : N -> bool) (replacement : N -> list N)
  : matcher := fun _ s =>
  match s with
  | c :: _ => if class c then Some (replacement c, 1) else None
  | [] => None
  end.

(** [\s+] at a position: the longest run of white space and line
    terminators that starts there ([\s] is the class [trim] removes). *)
Fixpoint spaceRun (s : list N) : nat :=
  match s with
  | c :: rest => if isTrimmed c then S (spaceRun rest) else 0
  | [] => 0
  end.

(** [s.replace(/\s+/g, replacement)] *)
Definition spaces_match (replacement : list N) : matcher := fun _ s =>
  match spaceRun s with
  | O => None
  | n => Some (replacement, n)
  end.

(** [s.split(sep)] for a separator of one code unit. *)
Fixpoint splitOn (sep : N) (s : list N) : list (list N) :=
  match s with
  | [] => [[]]
  | c :: rest =>
      if (c =? sep)%N then [] :: splitOn sep rest
      else match splitOn sep rest with
           | part :: parts => (c :: part) :: parts
           | [] => [[c]]
           end
  end.

(** [parts.join(sep)] *)
Fixpoint join (sep : list N) (parts : list (list N)) : list N :=
  match parts with
  | [] => []
  | [part] => part
  | part :: rest => part ++ sep ++ join sep rest
  end.

(** [array.slice(-n)] *)
Definition lastOnes {A} (n : nat) (l : list A) : list A :=
  skipn (length l - n) l.

(** [a || b] on strings. *)
Definition orElse (a b : list N) : list N := if truthy a then a else b.

(** [value.name] (or [value?.name]) on a value that came out of
    [JSON.parse]: only an object has members. *)
Definition property (name : string) (value : JsValue) : JsValue :=
  match value with
  | Some (JObject fields) => getField (lit name) fields
  | _ => None
  end.

(** [value === 'text'] *)
Definition isString (text : string) (value : JsValue) : bool :=
  match value with
  | Some (JString s) => bool_decide (s = lit text)
  | _ => false
  end.

(** ** The route [POST /export-pdf] (the later revision of server.js) *)

(** [(filename && typeof filename === 'string' ? filename : 'document')
       .replace(/\s+/g, '_')] *)
Definition safeName (filename : JsValue) : list N :=
  replaceAll (spaces_match [underscore])
    (if truthyValue filename && String.eqb (typeOf filename) "string"
     then match filename with Some (JString name) => name | _ => [] end
     else lit "document").

(** [readLogTail]: [logFile] is the content of [document.log], or [None]
    when reading it fails. *)
Definition readLogTail (logFile : option (list N)) : list N :=
  match logFile with
  | Some logContent =>
      join [newline] (lastOnes 25 (splitOn newline logContent))
  | None => []
  end.

(** How a call to the file system, to the compiler or to the remote service
    ends: with a value, or with an error that carries a [message]. *)
Inductive Try (A : Type) :=
| Done (a : A)
| Failed (message : list N).
Arguments Done {A} a.
Arguments Failed {A} message.

(** The world [compileLatex] runs in: what each of its calls is answered. *)
Record Host := mkHost {
  mkdir : Try unit;
  writeFile : Try unit;
  execFile : Try unit;
  logFile : option (list N);
  pdfFile : Try (list N);
  rm : Try unit;
  remotePost : list N -> Try JsValue;
  remoteGet : JsValue -> Try (list N)
}.

(** The calls of an export, in the order they are made (the command line of
    the compiler and the paths are left out). *)
Inductive Effect :=
| Mkdir
| WriteTex (latex : list N)
| RunCompiler
| ReadLog
| ReadPdf
| RemoveDir
| PostRemote (code : list N)
| GetRemote (url : JsValue).

Inductive Compiler := local | remote.

Record Compiled := mkCompiled {
  buffer : list N;
  from : Compiler;
  log : list N
}.

(** An error on its way to the route, which reads its [log] property only;
    the errors of the file system have none. *)
Record Thrown := mkThrown { thrownLog : option (list N) }.

Definition remoteCompilerFailed : string := "Remote compiler failed".

Definition compileLatexRemotely (host : Host) (latex logTail : list N)
  : (Compiled + Thrown) * list Effect :=
  let caught (message : list N) (trace : list Effect) :=
    (inr (mkThrown (Some (orElse (orElse logTail message) []))), trace) in
  match remotePost host latex with
  | Failed message => caught message [PostRemote latex]
  | Done data =>
      let status := property "status" data in
      let result := property "result" data in
      if negb (truthyValue status) || negb (isString "success" status)
         || negb (truthyValue result)
      then caught (lit remoteCompilerFailed) [PostRemote latex]
      else
        match remoteGet host result with
        | Failed message =>
            caught message [PostRemote latex; GetRemote result]
        | Done pdf =>
            (inl (mkCompiled pdf remote logTail),
             [PostRemote latex; GetRemote result])
        end
  end.

(** [compileLatex], with [ALLOW_REMOTE_COMPILER] as a parameter; a failure
    of the clean-up in [finally] is only logged. *)
Definition compileLatex (host : Host) (allowRemoteCompiler : bool)
  (latex : list N) : (Compiled + Thrown) * list Effect :=
  let finally (run : (Compiled + Thrown) * list Effect) :=
    match rm host with
    | Done _ => (fst run, snd run ++ [RemoveDir])
    | Failed _ => (fst run, snd run ++ [RemoveDir])
    end in
  finally
    match mkdir host with
    | Failed _ => (inr (mkThrown None), [Mkdir])
    | Done _ =>
        match writeFile host with
        | Failed _ => (inr (mkThrown None), [Mkdir; WriteTex latex])
        | Done _ =>
            match execFile host with
            | Failed _ =>
                let logTail := readLogTail (logFile host) in
                let trace := [Mkdir; WriteTex latex; RunCompiler; ReadLog] in
                if allowRemoteCompiler then
                  let run := compileLatexRemotely host latex logTail in
                  (fst run, trace ++ snd run)
                else (inr (mkThrown (Some logTail)), trace)
            | Done _ =>
                let trace := [Mkdir; WriteTex latex; RunCompiler; ReadPdf] in
                match pdfFile host with
                | Failed _ => (inr (mkThrown None), trace)
                | Done pdfBuffer =>
                    (inl (mkCompiled pdfBuffer local []), trace)
                end
            end
        end
    end.

Definition missingLatexError : string :=
  ("Body must include a " ++ dquote ++ "latex" ++ dquote ++ " string.")%string.

Definition compilationFailedError : string :=
  "LaTeX compilation failed. Ensure a TeX engine (tectonic or pdflatex) is installed on the server.".

(** The answers of the route: a JSON error (with a [log] when the [try]
    block failed), or the PDF with its [Content-Disposition] and [X-Compiler]
    headers. *)
Inductive ExportResponse :=
| ExportRejected (statusCode : nat) (error : string)
| ExportFailed (statusCode : nat) (error : string) (log : list N)
| ExportPdf (contentDisposition : list N) (xCompiler : Compiler)
    (body : list N).

(** [res.setHeader(name, value)] is Node's: it throws [ERR_INVALID_CHAR]
    when the value holds a code unit that is not the tab, nor in the ranges
    [0x20]-[0x7e] and [0x80]-[0xff]. *)
Definition headerUnit (c : N) : bool :=
  (c =? 9)%N || ((32 <=? c)%N && (c <=? 126)%N)
  || ((128 <=? c)%N && (c <=? 255)%N).

Definition validHeaderValue (value : list N) : bool :=
  forallb headerUnit value.

(** [`attachment; filename="${safeName}.pdf"`] *)
Definition dispositionOf (safeName : list N) : list N :=
  lit "attachment; filename=" ++ lit dquote ++ safeName ++ lit ".pdf"
    ++ lit dquote.

(** The route.  The three calls of [setHeader] are inside the [try]: the
    values [application/pdf], [local] and [remote] are accepted, the
    disposition may be refused, and then the [catch] answers 500 with the
    [log] of an error that has none, the empty string. *)
Definition postExportPdf (host : Host) (allowRemoteCompiler : bool)
  (body : JsValue) : ExportResponse * list Effect :=
  let body1 := if truthyValue body then body else Some (JObject []) in
  let latex := property "latex" body1 in
  let filename := property "filename" body1 in
  if negb (truthyValue latex) || negb (String.eqb (typeOf latex) "string")
  then (ExportRejected 400 missingLatexError, [])
  else
    let source := match latex with Some (JString s) => s | _ => [] end in
    let safeName := safeName filename in
    match compileLatex host allowRemoteCompiler source with
    | (inl compiled, trace) =>
        if validHeaderValue (dispositionOf safeName)
        then (ExportPdf (dispositionOf safeName) (from compiled)
                (buffer compiled), trace)
        else (ExportFailed 500 compilationFailedError [], trace)
    | (inr thrown, trace) =>
        (ExportFailed 500 compilationFailedError
           (orElse (default [] (thrownLog thrown)) []), trace)
    end.

(** ** The editor's toolbar (App.tsx) *)

Record FormatToggle := mkToggle { toggleId : string; label : list N }.

Definition FORMAT_TOGGLES : list FormatToggle :=
  [mkToggle "bold" (lit "B"); mkToggle "italic" (lit "I");
   mkToggle "underline" (lit "U"); mkToggle "heading1" (lit "H1");
   mkToggle "heading2" (lit "H2"); mkToggle "bullets" [8226%N];
   mkToggle "numbered" (lit "1."); mkToggle "equation" (lit "fx")].

(** What the handlers read of [textareaRef.current]. *)
Record Textarea := mkTextarea {
  value : list N;
  selectionStart : nat;
  selectionEnd : nat
}.

(** [textarea ? textarea.value : input] *)
Definition currentValueOf (textarea : option Textarea) (input : list N)
  : list N :=
  match textarea with Some area => value area | None => input end.

(** [textarea?.selectionStart ?? currentValue.length] *)
Definition selectionStartOf (textarea : option Textarea) (input : list N)
  : nat :=
  match textarea with
  | Some area => selectionStart area
  | None => length (currentValueOf textarea input)
  end.

(** [textarea?.selectionEnd ?? start] *)
Definition selectionEndOf (textarea : option Textarea) (input : list N)
  : nat :=
  match textarea with
  | Some area => selectionEnd area
  | None => selectionStartOf textarea input
  end.

Definition getSelectionSnapshot (textarea : option Textarea) (input : list N)
  : nat * nat * list N :=
  let currentValue := currentValueOf textarea input in
  let start := selectionStartOf textarea input in
  let end_ := selectionEndOf textarea input in
  (start, end_, slice currentValue start end_).

(** [mutateTextareaValue]: the new [input], and the cursor set in the next
    animation frame, [Math.min(Math.max(cursor, 0), value.length)]. *)
Definition mutateTextareaValue (textarea : option Textarea) (input : list N)
  (compute : list N -> nat -> nat -> list N * nat)
  (overrideStart overrideEnd : option nat) : list N * nat :=
  let currentValue := currentValueOf textarea input in
  let selectionStart :=
    match overrideStart with
    | Some start => start
    | None => selectionStartOf textarea input
    end in
  let selectionEnd :=
    match overrideEnd with
    | Some end_ => end_
    | None => match textarea with
              | Some area => selectionEnd area
              | None => selectionStart
              end
    end in
  let '(value, cursor) := compute currentValue selectionStart selectionEnd in
  (value, Nat.min (Nat.max cursor 0) (length value)).

Definition insertTextAtSelection (textarea : option Textarea)
  (input text : list N) : list N * nat :=
  mutateTextareaValue textarea input
    (fun currentValue start end_ =>
       let before := slice currentValue 0 start in
       let after := skipn end_ currentValue in
       (before ++ text ++ after, start + length text))
    None None.

Definition replaceSelectionWith (textarea : option Textarea)
  (input replacement : list N) (start end_ : nat) : list N * nat :=
  mutateTextareaValue textarea input
    (fun currentValue selectionStart selectionEnd =>
       let before := slice currentValue 0 selectionStart in
       let after := skipn selectionEnd currentValue in
       (before ++ replacement ++ after, selectionStart + length replacement))
    (Some start) (Some end_).

(** [`*${description.trim()}*`] *)
Definition wrapInstruction (description : list N) : list N :=
  [star] ++ trim description ++ [star].

Definition handleFormatToggle (textarea : option Textarea) (input : list N)
  (toggle : FormatToggle) : list N * nat :=
  let snapshot := getSelectionSnapshot textarea input in
  let start := fst (fst snapshot) in
  let end_ := snd (fst snapshot) in
  let text := snd snapshot in
  if truthy (trim text)
  then replaceSelectionWith textarea input
         (wrapInstruction text ++ [newline]) start end_
  else insertTextAtSelection textarea input
         (wrapInstruction (label toggle) ++ [newline]).

(** A JS number: a finite double is a rational (the sign of zero, which the
    comparisons do not see, is left out). *)
Inductive JsNumber :=
| Finite (q : Q)
| NaN
| PositiveInfinity
| NegativeInfinity.

(** [clampValue], for the finite bounds it is called with. *)
Definition clampValue (value : JsNumber) (min max : Q) : Q :=
  match value with
  | Finite v => Qmin max (Qmax min v)
  | _ => min
  end.

(** ** The outline, the status pill and the exported document (App.tsx) *)

Definition getPreviewFromContent (value : list N) : list N :=
  let condensed := trim (replaceAll (spaces_match [space]) value) in
  if negb (truthy condensed) then lit "Details pending"
  else if 36 <? length condensed then slice condensed 0 33 ++ lit "..."
  else condensed.

Inductive Pill :=
| ReadyPill
| ConvertingPill
| ErrorPill (title : option string).

(** Truthiness of [errorMessage: string | null]. *)
Definition truthyMessage (errorMessage : option string) : bool :=
  match errorMessage with
  | Some (String _ _) => true
  | _ => false
  end.

Definition StatusPill (status : Status) (errorMessage : option string)
  : Pill :=
  if match status with idle => true | _ => false end
     && negb (truthyMessage errorMessage)
  then ReadyPill
  else if match status with loading => true | _ => false end
       then ConvertingPill
       else ErrorPill errorMessage.

(** The seven passes of [escapeLatexText], in the order of the chain. *)
Definition escapeLatexText (text : list N) : list N :=
  let t1 := replaceAll (class_match (isUnit bslash)
                          (fun _ => lit "\textbackslash{}")) text in
  let t2 := replaceAll (class_match
                          (fun c => isUnit lbrace c || isUnit rbrace c
                                    || isUnit underscore c)
                          (fun c => [bslash; c])) t1 in
  let t3 := replaceAll (class_match (isUnit caret) (fun _ => lit "\^{}")) t2 in
  let t4 := replaceAll (class_match (isUnit tilde)
                          (fun _ => lit "\textasciitilde{}")) t3 in
  let t5 := replaceAll (class_match (isUnit percent) (fun _ => lit "\%")) t4 in
  let t6 := replaceAll (class_match (isUnit ampersand) (fun _ => lit "\&"))
              t5 in
  replaceAll (class_match (isUnit hash) (fun _ => lit "\#")) t6.

Definition escapeLatexParagraph (text : list N) : list N :=
  let escaped := escapeLatexText text in
  if truthy escaped then escaped ++ [newline] else [].

(** The [body] of [buildLatexDocument]. *)
Definition documentBody (segments : list Segment) : list N :=
  if negb (length segments =? 0)
  then join [newline; newline]
         (List.map (fun segment =>
                      match type segment with
                      | latex => content segment
                      | text => escapeLatexParagraph (content segment)
                      | placeholder =>
                          lit "% pending conversion for: " ++ content segment
                      end) segments)
  else lit "% Start writing to generate content.".

Definition buildLatexDocument (title : list N) (segments : list Segment)
  : list N :=
  let escapedTitle :=
    escapeLatexText (if truthy title then title
                     else lit "Untitled document") in
  join [newline]
    [lit "\documentclass{article}";
     lit "\usepackage{amsmath}";
     lit "\usepackage{amssymb}";
     lit "\usepackage{graphicx}";
     lit "\usepackage{array}";
     lit "\usepackage{enumitem}";
     lit "\usepackage{tikz}";
     [];
     lit "\title{" ++ escapedTitle ++ lit "}";
     lit "\date{}";
     [];
     lit "\begin{document}";
     lit "\maketitle";
     [];
     documentBody segments;
     [];
     lit "\end{document}"].

(** [`${(docTitle || 'document').replace(/\s+/g, '_')}.tex`] in
    [handleDownloadLatex]. *)
Definition downloadName (docTitle : list N) : list N :=
  replaceAll (spaces_match [underscore])
    (if truthy docTitle then docTitle else lit "document") ++ lit ".tex".

(** ** The answer of the service ([extractArrayFromResponse], server.js) *)

(** [text.replace(/^```(?:json)?/i, '')]: without the [g] flag only the first
    match is replaced, and [^] lets the regex match at index 0 only. *)
Definition stripOpeningFence (text : list N) : list N :=
  match literal_ci (lit "```") text with
  | Some rest =>
      match literal_ci (lit "json") rest with
      | Some rest' => rest'
      | None => rest
      end
  | None => text
  end.

(** [text.replace(/```$/i, '')]: the only position where three backticks
    are followed by the end of the string is three code units before it. *)
Definition stripClosingFence (text : list N) : list N :=
  let n := length text - 3 in
  if (3 <=? length text) && literal (lit "```") (skipn n text)
  then firstn n text else text.

Definition stripCodeFences (text : list N) : list N :=
  trim (stripClosingFence (stripOpeningFence text)).

(** Index of the last [c] in [s]. *)
Fixpoint lastIndexOf (c : N) (s : list N) : option nat :=
  match s with
  | [] => None
  | x :: rest =>
      match lastIndexOf c rest with
      | Some i => Some (S i)
      | None => if (x =? c)%N then Some 0 else None
      end
  end.

(** Group 1 of [stripped.match(...)], whose regex is an opening bracket, a
    greedy group of any code units, and a closing bracket: the group runs
    from the first opening bracket to the last closing bracket after it. *)
Definition bracketed (stripped : list N) : option (list N) :=
  match indexOf lbracket stripped with
  | None => None
  | Some a =>
      let after := skipn (a + 1) stripped in
      match lastIndexOf rbracket after with
      | None => None
      | Some b => Some (firstn b after)
      end
  end.

(** One attempt of [/",\s*"/] at a position: the number of code units
    matched. *)
Definition separator_match (s : list N) : option nat :=
  match s with
  | q :: c :: rest =>
      if (q =? dquoteUnit)%N && (c =? comma)%N then
        match skipn (spaceRun rest) rest with
        | q' :: _ =>
            if (q' =? dquoteUnit)%N then Some (spaceRun rest + 3) else None
        | [] => None
        end
      else None
  | _ => None
  end.

(** [s.split(regex)] for a regex that never matches the empty string:
    [skip] counts the code units of the last separator still to be passed
    over. *)
Fixpoint splitBy (separator : list N -> option nat) (skip : nat) (s : list N)
  : list (list N) :=
  match s with
  | [] => [[]]
  | c :: rest =>
      match skip with
      | S k => splitBy separator k rest
      | O =>
          match separator s with
          | Some n => [] :: splitBy separator (Nat.pred n) rest
          | None =>
              match splitBy separator 0 rest with
              | part :: parts => (c :: part) :: parts
              | [] => [[c]]
              end
          end
      end
  end.

Fixpoint quoteRun (s : list N) : nat :=
  match s with
  | c :: rest => if (c =? dquoteUnit)%N then S (quoteRun rest) else 0
  | [] => 0
  end.

(** [/^"+|"+$/g] with the replacement ['']: at index 0 the run of quotes
    there; elsewhere a run of quotes that reaches the end. *)
Definition quotes_match : matcher := fun at0 s =>
  match quoteRun s with
  | O => None
  | n => if at0 || (n =? length s) then Some ([], n) else None
  end.

(** The [catch] branch of [extractArrayFromResponse]. *)
Definition recoverArray (stripped : list N) : list Json :=
  match bracketed stripped with
  | Some group =>
      List.map (fun item => JString (trim (replaceAll quotes_match item)))
        (splitBy separator_match 0 group)
  | None => []
  end.

Section ExtractArray.

(** [JSON.parse(jsonrepair(stripped))], [None] when either throws. *)
Variable repairAndParse : list N -> option Json.

(** [extractArrayFromResponse] from [raw] on, the text of the answer. *)
Definition extractArrayFromRaw (raw : list N) : list Json :=
  let stripped := stripCodeFences raw in
  match repairAndParse stripped with
  | Some (JArray parsed) => parsed
  | Some _ => []
  | None => recoverArray stripped
  end.

End ExtractArray.

(** ** The quick-insert panels (App.tsx) *)

Module EquationPlacement.
Inductive type := inline | left | center | right.
End EquationPlacement.

Section QuickInsert.

(** [`${n}`] for a number: the digits JS writes for it. *)
Variable numberToString : Q -> list N.

(** The [instruction] of [handleInsertTable]. *)
Definition tableInstruction (tableColumns tableRows : JsNumber)
  (tableHeaders tableCaption : list N) : list N :=
  let normalizedColumns := clampValue tableColumns 2 6 in
  let normalizedRows := clampValue tableRows 2 12 in
  let headers :=
    join (lit ", ")
      (List.filter truthy (List.map trim (splitOn comma tableHeaders))) in
  let headerSnippet := orElse headers (lit "custom headers of your choice") in
  let caption := orElse (trim tableCaption) (lit "Key data overview") in
  lit "Insert a " ++ numberToString normalizedColumns
    ++ lit "-column table with " ++ numberToString normalizedRows
    ++ lit " rows titled " ++ [dquoteUnit] ++ caption ++ [dquoteUnit]
    ++ lit ". Use headers " ++ headerSnippet
    ++ lit " and place the caption beneath the table.".

Definition handleInsertTable (textarea : option Textarea) (input : list N)
  (tableColumns tableRows : JsNumber) (tableHeaders tableCaption : list N)
  : list N * nat :=
  insertTextAtSelection textarea input
    (wrapInstruction
       (tableInstruction tableColumns tableRows tableHeaders tableCaption)
       ++ [newline; newline]).

(** The [instruction] of [handleInsertLayout]. *)
Definition layoutInstruction (layoutColumns : JsNumber)
  (layoutPrimary layoutSecondary layoutMargin : list N) : list N :=
  let normalizedColumns := clampValue layoutColumns 2 3 in
  lit "Create a " ++ numberToString normalizedColumns
    ++ lit "-column layout using minipage or multicolumn constructs: column one emphasises "
    ++ orElse (trim layoutPrimary) (lit "primary content")
    ++ lit ", column two focuses on "
    ++ orElse (trim layoutSecondary) (lit "supporting commentary")
    ++ lit ", and reserve a slim margin for "
    ++ orElse (trim layoutMargin) (lit "notes")
    ++ lit ". Balance spacing so it feels like a polished document editor.".

Definition handleInsertLayout (textarea : option Textarea) (input : list N)
  (layoutColumns : JsNumber)
  (layoutPrimary layoutSecondary layoutMargin : list N) : list N * nat :=
  insertTextAtSelection textarea input
    (wrapInstruction
       (layoutInstruction layoutColumns layoutPrimary layoutSecondary
          layoutMargin)
       ++ [newline; newline]).

End QuickInsert.

Definition placementDetails (placement : EquationPlacement.type) : list N :=
  match placement with
  | EquationPlacement.center =>
      lit "Render the equation in its own centered block using the equation environment so it feels like a primary element."
  | EquationPlacement.inline =>
      lit "Keep the equation inline with surrounding text so the baseline flows without extra vertical spacing."
  | EquationPlacement.left =>
      lit "Align the equation to the left using a flushleft block with a bit of gutter space on the right so text never overlaps."
  | EquationPlacement.right =>
      lit "Align the equation to the right using a flushright block, treating it like a margin callout that stays coherent with nearby text."
  end.

(** The [instruction] of [handleInsertEquation]. *)
Definition equationInstruction (equationPlacement : EquationPlacement.type)
  (equationLabel equationAnchor : list N) : list N :=
  let anchorInstruction :=
    if truthy (trim equationAnchor)
    then lit "Anchor it " ++ trim equationAnchor
           ++ lit " and keep nearby paragraphs clear."
    else lit "Anchor it exactly where the reader expects it, without overlapping adjacent content." in
  let numberingInstruction :=
    match equationPlacement with
    | EquationPlacement.inline =>
        lit "Leave it unnumbered to avoid breaking text flow."
    | _ =>
        lit "Tag it as " ++ [dquoteUnit]
          ++ orElse (trim equationLabel) (lit "Eq.") ++ [dquoteUnit]
          ++ lit " using \label/\tag so cross-references stay correct."
    end in
  placementDetails equationPlacement ++ lit " " ++ anchorInstruction
    ++ lit " " ++ numberingInstruction
    ++ lit " Ensure the LaTeX stays Overleaf-safe and add a short variable note beneath if it aids clarity.".

Definition handleInsertEquation (textarea : option Textarea) (input : list N)
  (equationPlacement : EquationPlacement.type)
  (equationLabel equationAnchor : list N) : list N * nat :=
  insertTextAtSelection textarea input
    (wrapInstruction
       (equationInstruction equationPlacement equationLabel equationAnchor)
       ++ [newline; newline]).

(** ** The preview of a segment ([SegmentBlock], App.tsx) *)

(** [/\\begin\{.*?}\s*/g] and [/\\end\{.*?}\s*/g], replaced by ['']: the
    keyword with its opening brace, the shortest text without a line
    terminator up to a closing brace, and the white space that follows. *)
Definition environment_match (keyword : list N) : matcher := fun _ s =>
  if literal keyword s then
    match lazy_group rbrace Some (skipn (length keyword) s) with
    | Some (_, rest) => Some ([], length s - length rest + spaceRun rest)
    | None => None
    end
  else None.

(** The regex of [\textbf{], then a greedy group of code units other than
    the closing brace, then a closing brace, with the flag [g] (and the same
    for [\textit{], [\underline{] and [\text{]), replaced by ['$1']: the
    group runs up to the first closing brace, which must exist. *)
Definition braced_match (keyword : list N) : matcher := fun _ s =>
  if literal keyword s then
    let body := skipn (length keyword) s in
    match indexOf rbrace body with
    | Some n => Some (firstn n body, length keyword + n + 1)
    | None => None
    end
  else None.

(** [/\\\[|\\\]|\$|\{|\}/g], replaced by [' ']. *)
Definition delimiter_match : matcher := fun _ s =>
  match s with
  | c :: rest =>
      if (c =? bslash)%N then
        match rest with
        | d :: _ =>
            if (d =? lbracket)%N || (d =? rbracket)%N
            then Some ([space], 2) else None
        | [] => None
        end
      else if (c =? dollar)%N || (c =? lbrace)%N || (c =? rbrace)%N
           then Some ([space], 1)
           else None
  | [] => None
  end.

Fixpoint letterRun (s : list N) : nat :=
  match s with
  | c :: rest => if isAsciiLetter c then S (letterRun rest) else 0
  | [] => 0
  end.

(** [/\\[a-zA-Z]+/g], replaced by ['']. *)
Definition commandName_match : matcher := fun _ s =>
  match s with
  | c :: rest =>
      if (c =? bslash)%N then
        match letterRun rest with
        | O => None
        | n => Some ([], S n)
        end
      else None
  | [] => None
  end.

(** [extractPlainTextFromLatex]; [None] is [null]. *)
Definition extractPlainTextFromLatex (input : list N) : option (list N) :=
  let output := input in
  let output :=
    replaceAll (environment_match (lit "\end{"))
      (replaceAll (environment_match (lit "\begin{")) output) in
  let output := replaceAll (braced_match (lit "\textbf{")) output in
  let output := replaceAll (braced_match (lit "\textit{")) output in
  let output := replaceAll (braced_match (lit "\underline{")) output in
  let output := replaceAll (braced_match (lit "\text{")) output in
  let output := replaceAll delimiter_match output in
  let output := replaceAll commandName_match output in
  let output := trim (replaceAll (spaces_match [space]) output) in
  if negb (length output =? 0) then Some output else None.

(** [hay.includes(needle)] *)
Fixpoint includes (needle hay : list N) : bool :=
  literal needle hay
  || match hay with
     | _ :: rest => includes needle rest
     | [] => false
     end.

(** [regex.test(s)] for a regex without anchors: some position matches. *)
Fixpoint test (matchAt : list N -> bool) (s : list N) : bool :=
  matchAt s
  || match s with
     | _ :: rest => test matchAt rest
     | [] => false
     end.

Definition structuralEnvs : list string :=
  ["itemize"; "enumerate"; "tabular"; "tabularx"; "table"; "figure";
   "tikzpicture"; "minipage"; "multicols"; "center"; "flushleft";
   "flushright"]%string.

Record Structural := mkStructural {
  structuralLabel : string;
  kind : string;
  preview : option (list N)
}.

Definition parseStructuralLatex (content : list N) : option Structural :=
  let trimmed := trim content in
  let matchEnv :=
    List.find (fun env =>
                 includes (lit "\begin{" ++ lit env ++ lit "}") trimmed
                 || includes (lit "\end{" ++ lit env ++ lit "}") trimmed)
      structuralEnvs in
  match matchEnv with
  | Some matchEnv =>
      let label :=
        (if String.eqb matchEnv "itemize" || String.eqb matchEnv "enumerate"
         then "List"
         else if String.eqb matchEnv "center" then "Centered text"
         else if String.eqb matchEnv "flushleft"
                 || String.eqb matchEnv "flushright"
              then "Aligned text"
              else "Layout")%string in
      let preview := extractPlainTextFromLatex trimmed in
      Some (mkStructural label
              (if String.eqb label "List" then "list"
               else if String.eqb label "Layout" then "layout" else "text")
              preview)
  | None =>
      (* /\\item\s/ *)
      if test (fun s => literal (lit "\item") s
                        && match skipn 5 s with
                           | c :: _ => isTrimmed c
                           | [] => false
                           end) trimmed
         && negb (includes (lit "\begin{aligned}") trimmed)
      then Some (mkStructural "List" "list"
                   (extractPlainTextFromLatex trimmed))
      else
        (* /\\(sub)?(sub)?section\{/ *)
        if test (fun s => literal (lit "\section{") s
                          || literal (lit "\subsection{") s
                          || literal (lit "\subsubsection{") s) trimmed
        then Some (mkStructural "Heading" "heading"
                     (extractPlainTextFromLatex trimmed))
        else
          let textOnly :=
            test (fun s => literal (lit "\textbf{") s
                           || literal (lit "\textit{") s
                           || literal (lit "\underline{") s) trimmed in
          if textOnly
             && negb (test (fun s => literal (lit "\int") s
                                     || literal (lit "\sum") s
                                     || literal (lit "\frac") s
                                     || literal (lit "\lim") s
                                     || literal (lit "\begin{aligned}") s)
                        trimmed)
          then Some (mkStructural "Text block" "text"
                       (extractPlainTextFromLatex trimmed))
          else None
  end.

Definition shouldDisplayMath (content : list N) : bool :=
  let trimmed := trim content in
  if includes [newline] trimmed then true
  else if 120 <? length trimmed then true
  else test (fun s => literal (lit "\begin") s || literal (lit "\int") s
                      || literal (lit "\sum") s || literal (lit "\lim") s
                      || literal (lit "\boxed") s || literal (lit "\frac") s
                      || literal (lit "=") s || literal (lit "\aligned") s
                      || literal (lit "\cases") s
                      || literal (lit "\displaystyle") s) trimmed.

(** What [SegmentBlock] returns: the element and the text it shows;
    [RenderedNothing] is [null]. *)
Inductive Rendered :=
| RenderedPlaceholder (content : list N)
| RenderedHeading (preview : list N)
| RenderedPreview (preview : list N)
| RenderedNothing
| RenderedCode (content : list N)
| RenderedMath (inline : bool) (tex : list N)
| RenderedText (content : list N).

Definition SegmentBlock (segment : Segment) (showRawLatex : bool)
  : Rendered :=
  match type segment with
  | placeholder => RenderedPlaceholder (content segment)
  | latex =>
      let structural := parseStructuralLatex (content segment) in
      match structural with
      | Some s =>
          if negb showRawLatex then
            if String.eqb (kind s) "heading"
               && truthy (default [] (preview s))
            then RenderedHeading (default [] (preview s))
            else if truthy (default [] (preview s))
                 then RenderedPreview (default [] (preview s))
                 else RenderedNothing
          else RenderedCode (content segment)
      | None =>
          if showRawLatex then RenderedCode (content segment)
          else
            let display := shouldDisplayMath (content segment) in
            let mathWrapper := if display then lit "\[" else lit "\(" in
            RenderedMath (negb display)
              (mathWrapper ++ [space] ++ content segment ++ [space]
                 ++ (if display then lit "\]" else lit "\)"))
      end
  | text => RenderedText (content segment)
  end.

(** ** The outline ([summarizeSegmentForOutline], App.tsx) *)

Record OutlineSummary := mkSummary {
  outlineKind : string;
  outlineLabel : list N
}.

(** One alternative of a regex with the [i] flag, at a position. *)
Definition matches_ci (pattern : string) (s : list N) : bool :=
  match literal_ci (lit pattern) s with
  | Some _ => true
  | None => false
  end.

Definition summarizeSegmentForOutline (segment : RawSegment)
  : OutlineSummary :=
  match rtype segment with
  | Raw.math =>
      mkSummary "math"
        (lit "Math: " ++ getPreviewFromContent (rcontent segment))
  | Raw.text =>
      let trimmed := trim (rcontent segment) in
      (* /heading|title|section/i *)
      if test (fun s => matches_ci "heading" s || matches_ci "title" s
                        || matches_ci "section" s) trimmed
      then mkSummary "heading"
             (lit "Heading: " ++ getPreviewFromContent trimmed)
      else
        (* /list|bullet|numbered|steps?/i *)
        if test (fun s => matches_ci "list" s || matches_ci "bullet" s
                          || matches_ci "numbered" s || matches_ci "step" s)
             trimmed
        then mkSummary "list" (lit "List: " ++ getPreviewFromContent trimmed)
        else mkSummary "text" (lit "Text: " ++ getPreviewFromContent trimmed)
  end.

(** * The vocabulary of the properties *)

(** Does the string hold a code unit that [trim] keeps? *)
Definition nonblank (s : list N) : bool :=
  existsb (fun c => negb (isTrimmed c)) s.

(** [regex.test(s)] read the other way round: no position of [s] matches. *)
Fixpoint unmatched (m : matcher) (at0 : bool) (s : list N) : bool :=
  match s with
  | [] => true
  | _ :: rest =>
      match m at0 s with
      | None => unmatched m false rest
      | Some _ => false
      end
  end.

(** Every replacement text of [m] holds a code unit that is not white space. *)
Definition inked (m : matcher) : Prop :=
  forall at0 s r n, m at0 s = Some (r, n) -> nonblank r = true.

(** The text of an instruction matches none of the three shapes. *)
Definition shapeless (s : list N) : bool :=
  unmatched squareroot_match true s && unmatched integral_match true s
  && unmatched fraction_match true s.

(** The number of asterisks of a document. *)
Definition countStars (s : list N) : nat :=
  length (List.filter (fun c => (c =? star)%N) s).

(** The spans the loop of the extractor walks over, whether or not they end
    up as segments: the text before a match, and the match itself. *)
Inductive Span :=
| Outside (s : list N)
| Delimited (inside : list N).


Fixpoint scanLoop (fuel : nat) (input : list N) (lastIndex : nat)
  : list Span * nat :=
  match fuel with
  | O => ([], lastIndex)
  | S fuel' =>
      match star_exec input lastIndex with
      | None => ([], lastIndex)
      | Some (index, inside, next) =>
          let '(spans, final) := scanLoop fuel' input next in
          ((if lastIndex <? index
            then [Outside (slice input lastIndex index)] else [])
             ++ Delimited inside :: spans, final)
      end
  end.

Definition scanSpans (input : list N) : list Span :=
  let '(spans, lastIndex) := scanLoop (length input) input 0 in
  spans ++ (if lastIndex <? length input
            then [Outside (skipn lastIndex input)] else []).

(** What the server's extractor pushes for a span. *)
Definition spanSegment (sp : Span) : list RawSegment :=
  match sp with
  | Outside s =>
      if truthy (trim s) then [mkRaw Raw.text (trim s)] else []
  | Delimited inside =>
      if truthy (trim inside) then [mkRaw Raw.math (trim inside)] else []
  end.

(** What the editor's extractor pushes for a span. *)
Definition spanRaw (sp : Span) : list RawSegment :=
  match sp with
  | Outside s => if truthy (trim s) then [mkRaw Raw.text s] else []
  | Delimited inside =>
      if truthy (trim inside) then [mkRaw Raw.math inside] else []
  end.

(** Every segment holds a trimmed text with something in it. *)
Definition wellFormed (segment : RawSegment) : Prop :=
  nonblank (rcontent segment) = true
  /\ trim (rcontent segment) = rcontent segment.

(** The server's segments are the editor's, trimmed. *)
Definition trimSegment (segment : RawSegment) : RawSegment :=
  mkRaw (rtype segment) (trim (rcontent segment)).


Definition invalidInput : Response * list Call :=
  (mkResponse 400 (ErrorBody invalidInputError), []).

(** What the fallback path answers for a segment. *)
Definition fallbackRender (segment : RawSegment) : Segment :=
  match rtype segment with
  | Raw.text => mkSeg text (rcontent segment)
  | Raw.math =>
      mkSeg latex (normalizeLatex (basicInlineConverter (rcontent segment)))
  end.

(** The number of instructions before position [k]. *)
Definition mathRank (k : nat) (segments : list RawSegment) : nat :=
  length (List.filter isMath (firstn k segments)).

(** What the callback of the merge answers for a segment that is the
    [rank]-th instruction. *)
Definition mergeAt (latexList : list (list N)) (rank : nat)
  (segment : RawSegment) : option Segment :=
  if isMath segment then
    let converted := normalizeLatex (default [] (latexList !! rank)) in
    if truthy converted then Some (mkSeg latex converted) else None
  else Some (mkSeg text (rcontent segment)).

(** What the effect displays for a segment whose instruction is cached. *)
Definition renderCached (cache : gmap (list N) (list N))
  (segment : RawSegment) : Segment :=
  match rtype segment with
  | Raw.text => mkSeg text (rcontent segment)
  | Raw.math => mkSeg latex (default [] (cache !! rcontent segment))
  end.

(** No instruction is cached with an empty LaTeX. *)
Definition cacheValid (cache : gmap (list N) (list N)) : Prop :=
  forall k v, cache !! k = Some v -> v <> [].

(** Is the code unit before the position a letter, is it a backslash?
    ([prev] is [None] at the start of the string.) *)
Definition letterBefore (prev : option N) : bool :=
  match prev with Some p => isAsciiLetter p | None => false end.

Definition bslashBefore (prev : option N) : bool :=
  match prev with Some p => (p =? bslash)%N | None => false end.

(** The description of the pass, word for word: a known command name gets a
    backslash exactly where it stands as a bare identifier (a whole run of
    letters, not a piece of a longer one) that no backslash precedes. *)
Fixpoint identifierAt (s : list N) : list N :=
  match s with
  | c :: rest => if isAsciiLetter c then c :: identifierAt rest else []
  | [] => []
  end.

Definition isOneOf (cs : list (list N)) (word : list N) : bool :=
  existsb (fun command => bool_decide (command = word)) cs.

Fixpoint prefixBareOf (cs : list (list N)) (prev : option N) (s : list N)
  : list N :=
  match s with
  | [] => []
  | c :: rest =>
      (if isAsciiLetter c && negb (letterBefore prev)
          && negb (bslashBefore prev) && isOneOf cs (identifierAt s)
       then [bslash] else [])
        ++ c :: prefixBareOf cs (Some c) rest
  end.

Definition prefixBareCommands (latex : list N) : list N :=
  prefixBareOf commands None latex.

(** One pass of [normalizeLatex] told position by position: a backslash goes
    before every occurrence of the command that the end of the string or a
    non-letter follows and that no backslash precedes, whatever else stands
    before it. *)
Definition marked (command : list N) (prev : option N) (s : list N) : bool :=
  literal command s && lookahead (skipn (length command) s)
  && negb (bslashBefore prev).

Fixpoint markFrom (command : list N) (prev : option N) (s : list N)
  : list N :=
  match s with
  | [] => []
  | c :: rest =>
      (if marked command prev s then [bslash] else [])
        ++ c :: markFrom command (Some c) rest
  end.

(** No occurrence of the command that a non-letter follows has a letter
    right before it: the command ends no longer word. *)
Fixpoint separated (command : list N) (prev : option N) (s : list N) : bool :=
  match s with
  | [] => true
  | c :: rest =>
      negb (marked command prev s && letterBefore prev)
      && separated command (Some c) rest
  end.

Definition wellSeparated (s : list N) : bool :=
  forallb (fun command => separated command None s) commands.

(** A non-empty word of ASCII letters, as every command is. *)
Definition letters (w : list N) : Prop :=
  w <> [] /\ Forall (fun c => isAsciiLetter c = true) w.

(** The LaTeX the fallback path answers for an instruction. *)
Definition fallbackLatex (instruction : list N) : list N :=
  normalizeLatex (basicInlineConverter instruction).

(** What the seven passes of [escapeLatexText] make of one code unit. *)
Definition escapeCharacter (c : N) : list N :=
  if isUnit bslash c then lit "\textbackslash\{\}"
  else if isUnit lbrace c || isUnit rbrace c || isUnit underscore c
       then [bslash; c]
  else if isUnit caret c then lit "\^{}"
  else if isUnit tilde c then lit "\textasciitilde{}"
  else if isUnit percent c || isUnit ampersand c || isUnit hash c
       then [bslash; c]
  else [c].

(** The code units that LaTeX reads as a comment, an alignment tab, a
    parameter or a subscript when they stand unescaped. *)
Definition needsEscape (c : N) : bool :=
  isUnit percent c || isUnit ampersand c || isUnit hash c
  || isUnit underscore c.

(** Every such code unit comes right after a backslash, and no backslash
    comes right after a backslash. *)
Definition guardedUnit (prev : option N) (c : N) : bool :=
  (if needsEscape c then bslashBefore prev else true)
  && (if (c =? bslash)%N then negb (bslashBefore prev) else true).

Fixpoint guarded (prev : option N) (s : list N) : bool :=
  match s with
  | [] => true
  | c :: rest => guardedUnit prev c && guarded (Some c) rest
  end.

(** The only white space of the string is the plain space. *)
Definition plainSpaced (s : list N) : Prop :=
  List.Forall (fun c => isTrimmed c = true -> c = space) s.

(** The string holds no white space and no line terminator. *)
Definition spaceless (s : list N) : Prop :=
  List.Forall (fun c => isTrimmed c = false) s.

Definition countOf (c : N) (s : list N) : nat :=
  length (List.filter (fun x => (x =? c)%N) s).

Definition isRemoveDir (e : Effect) : bool :=
  match e with RemoveDir => true | _ => false end.

Definition isRemoteEffect (e : Effect) : bool :=
  match e with PostRemote _ | GetRemote _ => true | _ => false end.

(** The member [name] of a request body when it is a non-empty string. *)
Definition stringBody (name : string) (body : JsValue) : option (list N) :=
  match property name (if truthyValue body then body else Some (JObject []))
  with
  | Some (JString ((_ :: _) as s)) => Some s
  | _ => None
  end.

(** A host on which the local compiler fails and leaves a log, and the
    remote service cannot be reached. *)
Definition failingHost : Host :=
  mkHost (Done tt) (Done tt) (Failed (lit "exit code 1"))
    (Some (lit "! Undefined control sequence.")) (Failed [])
    (Done tt) (fun _ => Failed (lit "timeout of 60000ms exceeded"))
    (fun _ => Failed []).

(** The [Content-Disposition] value that the route builds for a request. *)
Definition requestedDisposition (body : JsValue) : list N :=
  dispositionOf
    (safeName (property "filename"
                 (if truthyValue body then body else Some (JObject [])))).

(** A host on which the local compiler fails and leaves a log, and the
    remote service answers with a PDF. *)
Definition remoteHost : Host :=
  mkHost (Done tt) (Done tt) (Failed (lit "exit code 1"))
    (Some (lit "! Undefined control sequence.")) (Failed [])
    (Done tt)
    (fun _ => Done (Some (JObject [(lit "status", JString (lit "success"));
                                   (lit "result", JString (lit "url"))])))
    (fun _ => Done (lit "%PDF")).

(** The items of a flat JSON array of strings as a service writes them:
    each between double quotes, a comma and the white space [ws] between
    two of them. *)
Definition encodeItems (ws : list N) (items : list (list N)) : list N :=
  dquoteUnit
    :: join (dquoteUnit :: comma :: ws ++ [dquoteUnit]) items
    ++ [dquoteUnit].

(** An item the fallback can recover: it holds no double quote and does not
    start with a comma. *)
Definition plainItem (item : list N) : Prop :=
  ~ In dquoteUnit item /\ head item <> Some comma.

(** No separator starts inside [u] when [y] follows. *)
Definition unbroken (u y : list N) : Prop :=
  forall a c b, u = a ++ c :: b -> separator_match (c :: b ++ y) = None.

Definition strip (item : list N) : Json :=
  JString (trim (replaceAll quotes_match item)).

(** The parts the split leaves: the first with the opening quote, the last
    with the closing one. *)
Fixpoint closeLast (items : list (list N)) : list (list N) :=
  match items with
  | [] => []
  | [item] => [item ++ [dquoteUnit]]
  | item :: rest => item :: closeLast rest
  end.

Definition openFirst (parts : list (list N)) : list (list N) :=
  match parts with
  | part :: rest => (dquoteUnit :: part) :: rest
  | [] => []
  end.

(** Braces and dollar signs, which [extractPlainTextFromLatex] turns into
    spaces. *)
Definition isDelimiter (c : N) : bool :=
  (c =? lbrace)%N || (c =? rbrace)%N || (c =? dollar)%N.

(** A text as the outline and the structural preview show it: not empty,
    trimmed, without braces or dollar signs, on one line. *)
Definition plainText (t : list N) : Prop :=
  t <> [] /\ trim t = t /\ plainSpaced t
  /\ List.Forall (fun c => isDelimiter c = false) t.

(** ** The documented shapes of the fallback converter *)

Definition lparen : N := 40%N.

(** An argument of a documented shape: no parenthesis, no comma, no line
    terminator. *)
Definition plainArgument (g : list N) : bool :=
  forallb (fun c => negb ((c =? lparen)%N || (c =? rparen)%N
                          || (c =? comma)%N || isLineTerminator c)) g.

(** The keyword of a shape with its parenthesis, in any letter case. *)
Definition spells (keyword : string) (s : list N) : Prop :=
  literal_ci (lit keyword) s = Some [].

(** A matcher that matches only where its keyword and a parenthesis stand. *)
Definition keyworded (m : matcher) (letters : list N) : Prop :=
  forall at0 s, m at0 s <> None ->
                exists r, literal_ci (letters ++ [lparen]) s = Some r.

(** ** The request of the editor *)

(** The body [{ input }] the editor posts. *)
Definition inputBody (input : list N) : JsValue :=
  Some (JObject [(lit "input", JString input)]).

(** * Properties *)

(** ** Trimming *)

Lemma trimStart_app a b :
  trimStart (a ++ b) = if nonblank a then trimStart a ++ b else trimStart b.
Proof.
  induction a as [|c a IH]; simpl; [reflexivity|].
  destruct (isTrimmed c); simpl; [exact IH | reflexivity].
Qed.

Lemma trimStart_blank s : nonblank s = false -> trimStart s = [].
Proof.
  induction s as [|c s IH]; simpl; [reflexivity|].
  destruct (isTrimmed c); simpl; [exact IH | discriminate].
Qed.

Lemma truthy_trimStart s : truthy (trimStart s) = nonblank s.
Proof.
  induction s as [|c s IH]; simpl; [reflexivity|].
  destruct (isTrimmed c); simpl; [exact IH | reflexivity].
Qed.

Lemma nonblank_trimStart s : nonblank (trimStart s) = nonblank s.
Proof.
  induction s as [|c s IH]; simpl; [reflexivity|].
  destruct (isTrimmed c) eqn:E; simpl; [exact IH | now rewrite E].
Qed.

Lemma trimStart_idem s : trimStart (trimStart s) = trimStart s.
Proof.
  induction s as [|c s IH]; simpl; [reflexivity|].
  destruct (isTrimmed c) eqn:E; simpl; [exact IH | now rewrite E].
Qed.

Lemma nonblank_app a b : nonblank (a ++ b) = nonblank a || nonblank b.
Proof. apply existsb_app. Qed.

Lemma nonblank_rev s : nonblank (rev s) = nonblank s.
Proof.
  induction s as [|c s IH]; simpl; [reflexivity|].
  rewrite nonblank_app, IH. simpl. rewrite orb_false_r. apply orb_comm.
Qed.

Lemma truthy_rev s : truthy (rev s) = truthy s.
Proof.
  destruct s as [|c s]; simpl; [reflexivity|].
  destruct (rev s); reflexivity.
Qed.

Lemma trimEnd_cons c s :
  isTrimmed c = false -> trimEnd (c :: s) = c :: trimEnd s.
Proof.
  intros Hc. unfold trimEnd. simpl. rewrite trimStart_app.
  destruct (nonblank (rev s)) eqn:E.
  - rewrite rev_app_distr. reflexivity.
  - simpl. rewrite Hc. rewrite (trimStart_blank _ E). reflexivity.
Qed.

Lemma truthy_trim s : truthy (trim s) = nonblank s.
Proof.
  unfold trim, trimEnd.
  now rewrite truthy_rev, truthy_trimStart, nonblank_rev, nonblank_trimStart.
Qed.

Lemma nonblank_trim s : nonblank (trim s) = nonblank s.
Proof.
  unfold trim, trimEnd.
  now rewrite nonblank_rev, nonblank_trimStart, nonblank_rev,
    nonblank_trimStart.
Qed.

Lemma nonblank_truthy s : nonblank s = true -> truthy s = true.
Proof. destruct s; [discriminate | reflexivity]. Qed.

(** A string that neither starts nor ends with white space is its own trim. *)
Lemma trimEnd_trimStart_fixed s :
  trimStart s = s -> trimStart (trimEnd s) = trimEnd s.
Proof.
  destruct s as [|c s]; [reflexivity|].
  simpl. destruct (isTrimmed c) eqn:E.
  - intros H. exfalso.
    assert (L : length (trimStart s) <= length s).
    { clear. induction s as [|x s IH]; simpl; [lia|].
      destruct (isTrimmed x); simpl; lia. }
    rewrite H in L. simpl in L. lia.
  - intros _. rewrite (trimEnd_cons _ _ E). simpl. now rewrite E.
Qed.

Lemma trim_idem s : trim (trim s) = trim s.
Proof.
  unfold trim.
  rewrite (trimEnd_trimStart_fixed _ (trimStart_idem s)).
  unfold trimEnd. rewrite rev_involutive, trimStart_idem. reflexivity.
Qed.

(** ** Global replacement *)

Lemma replace_unmatched m s at0 :
  unmatched m at0 s = true -> replace_from m at0 0 s = s.
Proof.
  revert at0. induction s as [|c s IH]; intros at0; simpl; [reflexivity|].
  destruct (m at0 (c :: s)); [discriminate|].
  intros H. now rewrite (IH _ H).
Qed.

Lemma replace_from_nonblank m (Hm : inked m) s :
  forall at0 skip,
    nonblank (skipn skip s) = true ->
    nonblank (replace_from m at0 skip s) = true.
Proof.
  induction s as [|c s IH]; intros at0 skip H.
  - now destruct skip.
  - destruct skip as [|k]; simpl.
    + destruct (m at0 (c :: s)) as [[r n]|] eqn:E.
      * rewrite nonblank_app, (Hm _ _ _ _ E). reflexivity.
      * simpl in *. destruct (isTrimmed c); simpl in *; [|reflexivity].
        now apply IH.
    + now apply IH.
Qed.

Lemma replaceAll_nonblank m (Hm : inked m) s :
  nonblank s = true -> nonblank (replaceAll m s) = true.
Proof. intros H. now apply replace_from_nonblank. Qed.

Lemma squareroot_inked : inked squareroot_match.
Proof.
  intros at0 s r n. unfold squareroot_match.
  destruct (literal_ci _ s); [|discriminate].
  destruct (lazy_group _ _ _) as [[g rest]|]; [|discriminate].
  intros [= <- _]. reflexivity.
Qed.

Lemma integral_inked : inked integral_match.
Proof.
  intros at0 s r n. unfold integral_match.
  destruct (literal_ci _ s); [|discriminate].
  destruct (lazy_group _ _ _) as [[g1 [g2 [g3 [g4 rest]]]]|]; [|discriminate].
  intros [= <- _]. reflexivity.
Qed.

Lemma fraction_inked : inked fraction_match.
Proof.
  intros at0 s r n. unfold fraction_match.
  destruct (literal_ci _ s); [|discriminate].
  destruct (lazy_group _ _ _) as [[g1 [g2 rest]]|]; [|discriminate].
  intros [= <- _]. reflexivity.
Qed.

Lemma command_inked command : inked (command_match command).
Proof.
  intros at0 s r n. unfold command_match.
  destruct (at0 && _ && _).
  - intros [= <- _]. reflexivity.
  - destruct s as [|c s]; [discriminate|].
    destruct (negb _ && _ && _); [|discriminate].
    intros [= <- _]. simpl. apply orb_true_r.
Qed.

Lemma basicInlineConverter_nonblank s :
  nonblank s = true -> nonblank (basicInlineConverter s) = true.
Proof.
  intros H. unfold basicInlineConverter. rewrite nonblank_trim.
  apply replaceAll_nonblank; [apply fraction_inked|].
  apply replaceAll_nonblank; [apply integral_inked|].
  apply replaceAll_nonblank; [apply squareroot_inked|]. exact H.
Qed.

Lemma normalizeLatex_nonblank s :
  nonblank s = true -> nonblank (normalizeLatex s) = true.
Proof.
  intros H. unfold normalizeLatex. rewrite (nonblank_truthy _ H).
  revert s H. induction commands as [|c l IH]; intros s H; simpl; [exact H|].
  apply IH. apply replaceAll_nonblank; [apply command_inked | exact H].
Qed.

Lemma basicInlineConverter_shapeless s :
  shapeless s = true -> basicInlineConverter s = trim s.
Proof.
  unfold shapeless, basicInlineConverter, replaceAll.
  intros H. apply andb_prop in H as [H H3]. apply andb_prop in H as [H1 H2].
  now rewrite (replace_unmatched _ _ _ H1), (replace_unmatched _ _ _ H2),
    (replace_unmatched _ _ _ H3).
Qed.

(** ** The delimiter scan *)

Lemma indexOf_Some c s i :
  indexOf c s = Some i ->
  exists pre post, s = pre ++ c :: post /\ length pre = i /\ ~ In c pre.
Proof.
  revert i. induction s as [|x s IH]; intros i; simpl; [discriminate|].
  destruct (N.eqb_spec x c) as [->|Hx].
  - intros [= <-]. exists [], s. simpl. tauto.
  - destruct (indexOf c s) as [j|]; [|discriminate].
    intros [= <-]. destruct (IH j eq_refl) as (pre & post & -> & <- & Hpre).
    exists (x :: pre), post. simpl. intuition congruence.
Qed.

Lemma indexOf_None c s : indexOf c s = None -> ~ In c s.
Proof.
  induction s as [|x s IH]; simpl; [tauto|].
  destruct (N.eqb_spec x c) as [->|Hx]; [discriminate|].
  destruct (indexOf c s); [discriminate|]. intros _ [H|H]; [congruence|].
  now apply IH.
Qed.

Lemma indexOf_first c pre post :
  ~ In c pre -> indexOf c (pre ++ c :: post) = Some (length pre).
Proof.
  induction pre as [|x pre IH]; simpl; intros H.
  - now rewrite N.eqb_refl.
  - destruct (N.eqb_spec x c) as [->|Hx]; [tauto|].
    rewrite IH; [reflexivity | tauto].
Qed.

(** What a successful [exec] says about the input: an asterisk-free run, an
    asterisk, the asterisk-free group, an asterisk, and the rest from the new
    [lastIndex] on. *)
Lemma star_exec_Some input lastIndex index inside next :
  star_exec input lastIndex = Some (index, inside, next) ->
  exists outside,
    skipn lastIndex input
      = outside ++ star :: inside ++ star :: skipn next input
    /\ index = lastIndex + length outside
    /\ next = index + length inside + 2
    /\ slice input lastIndex index = outside
    /\ ~ In star outside /\ ~ In star inside.
Proof.
  unfold star_exec.
  destruct (indexOf star (skipn lastIndex input)) as [a|] eqn:Ea;
    [|discriminate].
  destruct (indexOf_Some _ _ _ Ea) as (pre & post & Hs & <- & Hpre).
  assert (Hafter : skipn (lastIndex + length pre + 1) input = post).
  { replace (lastIndex + length pre + 1)
      with (lastIndex + (length pre + 1)) by lia.
    rewrite <- drop_drop, Hs.
    replace (pre ++ star :: post) with ((pre ++ [star]) ++ post)
      by (now rewrite <- app_assoc).
    apply drop_app_length'. rewrite length_app. simpl. lia. }
  rewrite Hafter.
  destruct (indexOf star post) as [b|] eqn:Eb; [|discriminate].
  destruct (indexOf_Some _ _ _ Eb) as (ins & rest & -> & <- & Hins).
  intros [= <- <- <-]. exists pre.
  assert (Hrest : skipn (lastIndex + length pre + length ins + 2) input = rest).
  { replace (lastIndex + length pre + length ins + 2)
      with (lastIndex + length pre + 1 + (length ins + 1)) by lia.
    rewrite <- drop_drop, Hafter.
    replace (ins ++ star :: rest) with ((ins ++ [star]) ++ rest)
      by (now rewrite <- app_assoc).
    apply drop_app_length'. rewrite length_app. simpl. lia. }
  rewrite take_app_length, Hrest. repeat split; try assumption; try lia.
  unfold slice. rewrite Hs.
  replace (lastIndex + length pre - lastIndex) with (length pre) by lia.
  apply take_app_length.
Qed.

Lemma star_exec_bound input lastIndex index inside next :
  star_exec input lastIndex = Some (index, inside, next) ->
  lastIndex + 2 <= next <= length input.
Proof.
  intros H. destruct (star_exec_Some _ _ _ _ _ H)
    as (outside & Hs & -> & -> & _).
  apply (f_equal (@length N)) in Hs.
  rewrite length_drop, !length_app in Hs. simpl in Hs.
  rewrite length_app in Hs. simpl in Hs. lia.
Qed.

Lemma star_exec_past input lastIndex :
  length input <= lastIndex -> star_exec input lastIndex = None.
Proof.
  intros H. unfold star_exec. now rewrite drop_ge.
Qed.

Lemma countStars_app a b : countStars (a ++ b) = countStars a + countStars b.
Proof. unfold countStars. now rewrite List.filter_app, length_app. Qed.

Lemma star_exec_two_stars input index inside next :
  star_exec input 0 = Some (index, inside, next) -> 2 <= countStars input.
Proof.
  intros H. destruct (star_exec_Some _ _ _ _ _ H) as (outside & Hs & _).
  change (skipn 0 input) with input in Hs. rewrite Hs.
  rewrite countStars_app. change (star :: inside ++ star :: skipn next input)
    with ([star] ++ inside ++ [star] ++ skipn next input).
  rewrite !countStars_app. change (countStars [star]) with 1. lia.
Qed.

Lemma extractLoop_scan fuel input :
  forall lastIndex segments,
    extractLoop fuel input lastIndex segments
    = (segments ++ flat_map spanSegment (fst (scanLoop fuel input lastIndex)),
       snd (scanLoop fuel input lastIndex)).
Proof.
  induction fuel as [|fuel IH]; intros lastIndex segments; simpl.
  - now rewrite app_nil_r.
  - destruct (star_exec input lastIndex) as [[[index inside] next]|];
      [|simpl; now rewrite app_nil_r].
    rewrite IH. destruct (scanLoop fuel input next) as [spans final]. simpl.
    f_equal. rewrite flat_map_app. simpl. unfold push.
    destruct (lastIndex <? index); simpl;
      destruct (truthy (trim inside)); simpl;
      try destruct (truthy (trim (slice input lastIndex index))); simpl;
      rewrite <- ?app_assoc; reflexivity.
Qed.

Lemma App_extractLoop_scan fuel value :
  forall lastIndex output,
    App.extractLoop fuel value lastIndex output
    = (output ++ flat_map spanRaw (fst (scanLoop fuel value lastIndex)),
       snd (scanLoop fuel value lastIndex)).
Proof.
  induction fuel as [|fuel IH]; intros lastIndex output; simpl.
  - now rewrite app_nil_r.
  - destruct (star_exec value lastIndex) as [[[index inside] next]|];
      [|simpl; now rewrite app_nil_r].
    rewrite IH. destruct (scanLoop fuel value next) as [spans final]. simpl.
    f_equal. rewrite flat_map_app. simpl. unfold push.
    destruct (lastIndex <? index); simpl;
      destruct (truthy (trim inside)); simpl;
      try destruct (truthy (trim (slice value lastIndex index))); simpl;
      rewrite <- ?app_assoc; reflexivity.
Qed.

(** The loop leaves because [exec] found nothing, not for want of fuel. *)
Lemma scanLoop_stops fuel input :
  forall lastIndex,
    length input <= fuel + lastIndex ->
    star_exec input (snd (scanLoop fuel input lastIndex)) = None.
Proof.
  induction fuel as [|fuel IH]; intros lastIndex H; simpl.
  - apply star_exec_past. lia.
  - destruct (star_exec input lastIndex) as [[[index inside] next]|] eqn:E;
      [|exact E].
    pose proof (star_exec_bound _ _ _ _ _ E) as B.
    specialize (IH next ltac:(lia)).
    destruct (scanLoop fuel input next) as [spans final]. exact IH.
Qed.

Lemma scanLoop_fuel fuel input :
  forall lastIndex more,
    length input <= fuel + lastIndex ->
    scanLoop (fuel + more) input lastIndex = scanLoop fuel input lastIndex.
Proof.
  induction fuel as [|fuel IH]; intros lastIndex more H; simpl.
  - destruct more as [|more]; simpl; [reflexivity|].
    rewrite star_exec_past by lia. reflexivity.
  - destruct (star_exec input lastIndex) as [[[index inside] next]|] eqn:E;
      [|reflexivity].
    pose proof (star_exec_bound _ _ _ _ _ E) as B.
    rewrite IH by lia. reflexivity.
Qed.

(** More turns than the length of the input change nothing. *)
Lemma extractLoop_fuel input more :
  extractLoop (length input + more) input 0 []
  = extractLoop (length input) input 0 [].
Proof.
  rewrite !extractLoop_scan, scanLoop_fuel by lia. reflexivity.
Qed.

Lemma App_extractLoop_fuel value more :
  App.extractLoop (length value + more) value 0 []
  = App.extractLoop (length value) value 0 [].
Proof.
  rewrite !App_extractLoop_scan, scanLoop_fuel by lia. reflexivity.
Qed.



Lemma extractSegments_scan input :
  extractSegments input =
  let segments := flat_map spanSegment (scanSpans input) in
  if (length segments =? 0) && truthy (trim input)
  then [mkRaw Raw.text (trim input)] else segments.
Proof.
  unfold extractSegments, scanSpans. rewrite extractLoop_scan.
  destruct (scanLoop (length input) input 0) as [spans final]. simpl.
  rewrite flat_map_app. unfold push.
  assert (E : (if final <? length input
               then if truthy (trim (skipn final input))
                    then flat_map spanSegment spans
                           ++ [mkRaw Raw.text (trim (skipn final input))]
                    else flat_map spanSegment spans
               else flat_map spanSegment spans)
              = flat_map spanSegment spans
                  ++ flat_map spanSegment
                       (if final <? length input
                        then [Outside (skipn final input)] else [])).
  { destruct (final <? length input); simpl;
      [destruct (truthy (trim (skipn final input))); simpl|];
      now rewrite ?app_nil_r. }
  rewrite E. cbv zeta.
  generalize (flat_map spanSegment spans
                ++ flat_map spanSegment
                     (if final <? length input
                      then [Outside (skipn final input)] else [])).
  intros [|x l]; simpl; [destruct (truthy (trim input))|]; reflexivity.
Qed.

Lemma App_extractSegments_scan value :
  App.extractSegments value =
  let output := flat_map spanRaw (scanSpans value) in
  if (length output =? 0) && truthy (trim value)
  then [mkRaw Raw.text value] else output.
Proof.
  unfold App.extractSegments, scanSpans. rewrite App_extractLoop_scan.
  destruct (scanLoop (length value) value 0) as [spans final]. simpl.
  rewrite flat_map_app. unfold push.
  assert (E : (if final <? length value
               then if truthy (trim (skipn final value))
                    then flat_map spanRaw spans
                           ++ [mkRaw Raw.text (skipn final value)]
                    else flat_map spanRaw spans
               else flat_map spanRaw spans)
              = flat_map spanRaw spans
                  ++ flat_map spanRaw
                       (if final <? length value
                        then [Outside (skipn final value)] else [])).
  { destruct (final <? length value); simpl;
      [destruct (truthy (trim (skipn final value))); simpl|];
      now rewrite ?app_nil_r. }
  rewrite E. cbv zeta.
  generalize (flat_map spanRaw spans
                ++ flat_map spanRaw
                     (if final <? length value
                      then [Outside (skipn final value)] else [])).
  intros [|x l]; simpl; [destruct (truthy (trim value))|]; reflexivity.
Qed.

(** ** The segments of the extractor *)

Lemma trimmed_wellFormed ty s :
  truthy (trim s) = true -> wellFormed (mkRaw ty (trim s)).
Proof.
  intros H. split; simpl.
  - now rewrite nonblank_trim, <- truthy_trim.
  - apply trim_idem.
Qed.

Lemma spanSegment_wellFormed sp : Forall wellFormed (spanSegment sp).
Proof.
  destruct sp as [s|s]; simpl; destruct (truthy (trim s)) eqn:E;
    repeat constructor; simpl;
    try (now rewrite nonblank_trim, <- truthy_trim); apply trim_idem.
Qed.

Lemma extractSegments_wellFormed input :
  Forall wellFormed (extractSegments input).
Proof.
  rewrite extractSegments_scan. cbv zeta.
  destruct (_ && _) eqn:E.
  - apply andb_prop in E as [_ E]. constructor; [|constructor].
    now apply trimmed_wellFormed.
  - clear E. induction (scanSpans input) as [|sp l IH]; simpl; [constructor|].
    apply Forall_app. split; [apply spanSegment_wellFormed | exact IH].
Qed.

Lemma spanSegment_spanRaw sp :
  spanSegment sp = List.map trimSegment (spanRaw sp).
Proof.
  destruct sp as [s|s]; simpl; destruct (truthy (trim s)); reflexivity.
Qed.

Lemma extractSegments_trims value :
  extractSegments value = List.map trimSegment (App.extractSegments value).
Proof.
  rewrite extractSegments_scan, App_extractSegments_scan. cbv zeta.
  assert (E : flat_map spanSegment (scanSpans value)
              = List.map trimSegment (flat_map spanRaw (scanSpans value))).
  { induction (scanSpans value) as [|sp l IH]; simpl; [reflexivity|].
    now rewrite List.map_app, IH, spanSegment_spanRaw. }
  rewrite E, length_map.
  destruct (_ && _); reflexivity.
Qed.

(** ** Documents without a delimiter pair *)

Lemma no_pair_no_match input :
  countStars input < 2 -> star_exec input 0 = None.
Proof.
  intros H. destruct (star_exec input 0) as [[[index inside] next]|] eqn:E;
    [|reflexivity].
  apply star_exec_two_stars in E. lia.
Qed.

Lemma countStars_absent l : ~ In star l -> countStars l = 0.
Proof.
  induction l as [|x l IH]; [reflexivity|].
  intros Hn. unfold countStars in *. simpl.
  destruct (N.eqb_spec x star) as [->|]; [exfalso; apply Hn; now left|].
  apply IH. intros Hl. apply Hn. now right.
Qed.

(** A document has fewer than two asterisks exactly when no part of it is an
    asterisk, some text, and an asterisk again. *)
Lemma countStars_pair input :
  2 <= countStars input <->
  exists a b c, input = a ++ star :: b ++ star :: c.
Proof.
  split.
  - intros H. destruct (star_exec input 0) as [[[index inside] next]|] eqn:E.
    + destruct (star_exec_Some _ _ _ _ _ E) as (outside & Hs & _).
      change (skipn 0 input) with input in Hs. eauto.
    + exfalso. unfold star_exec in E. change (skipn 0 input) with input in E.
      destruct (indexOf star input) as [a|] eqn:Ea.
      * destruct (indexOf_Some _ _ _ Ea) as (pre & post & -> & <- & Hpre).
        assert (Hpost : skipn (0 + length pre + 1) (pre ++ star :: post)
                        = post).
        { replace (pre ++ star :: post) with ((pre ++ [star]) ++ post)
            by (now rewrite <- app_assoc).
          apply drop_app_length'. rewrite length_app. simpl. lia. }
        rewrite Hpost in E.
        destruct (indexOf star post) eqn:Eb; [discriminate|].
        apply indexOf_None in Eb.
        rewrite countStars_app in H.
        change (star :: post) with ([star] ++ post) in H.
        rewrite countStars_app, (countStars_absent _ Hpre),
          (countStars_absent _ Eb) in H.
        change (countStars [star]) with 1 in H. lia.
      * apply indexOf_None in Ea.
        rewrite (countStars_absent _ Ea) in H. lia.
  - intros (a & b & c & ->).
    change (star :: b ++ star :: c) with ([star] ++ b ++ [star] ++ c).
    rewrite !countStars_app. change (countStars [star]) with 1. lia.
Qed.

(** C5: a document with no complete pair of asterisks (fewer than two
    asterisks) yields exactly one text segment, whose content is the trimmed
    document, and no segment at all when the trimmed document is empty. *)
Theorem no_pair_one_text_segment (input : list N) :
  countStars input < 2 ->
  extractSegments input =
  match trim input with
  | [] => []
  | _ :: _ => [mkRaw Raw.text (trim input)]
  end.
Proof.
  intros H. apply no_pair_no_match in H.
  unfold extractSegments.
  assert (L : extractLoop (length input) input 0 [] = ([], 0)).
  { destruct input as [|c input]; [reflexivity|]. simpl length.
    cbn [extractLoop]. now rewrite H. }
  rewrite L. change (skipn 0 input) with input. unfold push.
  destruct input as [|c input]; [reflexivity|].
  change (0 <? length (c :: input)) with true. cbv iota.
  destruct (trim (c :: input)) as [|x t]; reflexivity.
Qed.

Lemma no_pair_one_text_segment_witness :
  countStars (lit "a * b ") < 2
  /\ extractSegments (lit "a * b ") = [mkRaw Raw.text (lit "a * b")]
  /\ extractSegments (lit "  ") = [].
Proof.
  split; [vm_compute; lia|]. split.
  - apply (no_pair_one_text_segment (lit "a * b ")). vm_compute. lia.
  - apply (no_pair_one_text_segment (lit "  ")). vm_compute. lia.
Defined.

(** ** The spans of a document *)



(** ** The fallback path on the README's example *)

(** C3: on ["*squareroot(2x)* is steep"] without the service the server
    answers two segments in order, a latex one and the text [is steep]; the
    latex content is [\\sqrt{2x}] with two backslashes, ten code units, not
    the nine of [\sqrt{2x}]. *)
Theorem squareroot_is_steep_segments (service : Service) :
  convertMathToLatex false service (lit "*squareroot(2x)* is steep")
  = (Returns [mkSeg latex (bslash :: bslash :: lit "sqrt{2x}");
              mkSeg text (lit "is steep")], [])
  /\ basicInlineConverter (lit "squareroot(2x)")
     = bslash :: bslash :: lit "sqrt{2x}"
  /\ normalizeLatex (bslash :: bslash :: lit "sqrt{2x}")
     = bslash :: bslash :: lit "sqrt{2x}".
Proof. repeat split; reflexivity. Qed.

(** ** The route *)

Lemma postConvert_string hasOpenAIKey service body s :
  destructureInput body = Some (JString s) ->
  s <> [] ->
  postConvert hasOpenAIKey service body =
  match convertMathToLatex hasOpenAIKey service s with
  | (Returns segments, calls) =>
      (mkResponse 200 (SegmentsBody segments), CallConvert s :: calls)
  | (Throws, calls) =>
      (mkResponse 500 (ErrorBody conversionFailedError),
       CallConvert s :: calls)
  end.
Proof.
  intros H Hs. unfold postConvert. rewrite H. simpl.
  destruct s; [congruence | reflexivity].
Qed.

(** C8: a body without an [input], or with one that is not a string, is
    answered 400 with the error message before [convertMathToLatex] is
    entered (no call is made); an [input] that is a non-empty string never
    gets the 400 answer and enters the conversion. *)
Theorem convert_rejects_missing_or_non_string
  (hasOpenAIKey : bool) (service : Service) (body : JsValue) :
  (typeOf (destructureInput body) <> "string"%string ->
   postConvert hasOpenAIKey service body = invalidInput)
  /\ (forall s, destructureInput body = Some (JString s) -> s <> [] ->
      exists response calls,
        postConvert hasOpenAIKey service body
        = (response, CallConvert s :: calls)
        /\ statusCode response <> 400).
Proof.
  split.
  - intros H. unfold postConvert.
    destruct (destructureInput body) as [[| | |s| |]|]; simpl in *;
      try rewrite orb_true_r; try reflexivity.
    congruence.
  - intros s H Hs. rewrite (postConvert_string _ _ _ _ H Hs).
    destruct (convertMathToLatex hasOpenAIKey service s) as [[out|] calls];
      eexists _, _; (split; [reflexivity | simpl; lia]).
Qed.

Lemma convert_rejects_missing_or_non_string_witness :
  postConvert true (fun _ => Parsed [JString (lit "x")])
    (Some (JObject [(lit "other", JString (lit "*a*"))])) = invalidInput
  /\ postConvert true (fun _ => Parsed [JString (lit "x")])
       (Some (JObject [(lit "input", JNumber 5)])) = invalidInput
  /\ postConvert true (fun _ => Parsed [JString (lit "x")]) None
     = invalidInput
  /\ exists response calls,
       postConvert false (fun _ => RequestFails)
         (Some (JObject [(lit "input", JString (lit "*a*"))]))
       = (response, CallConvert (lit "*a*") :: calls)
       /\ statusCode response <> 400.
Proof.
  split; [|split; [|split]].
  - apply (convert_rejects_missing_or_non_string true _
             (Some (JObject [(lit "other", JString (lit "*a*"))]))).
    vm_compute. discriminate.
  - apply (convert_rejects_missing_or_non_string true _
             (Some (JObject [(lit "input", JNumber 5)]))).
    vm_compute. discriminate.
  - apply (convert_rejects_missing_or_non_string true _ None).
    vm_compute. discriminate.
  - apply (convert_rejects_missing_or_non_string false _
             (Some (JObject [(lit "input", JString (lit "*a*"))]))).
    + reflexivity.
    + discriminate.
Defined.

(** C10: an [input] that is the empty string is answered exactly as a
    missing [input]: 400 with the same error, and no conversion. *)
Theorem empty_input_rejected
  (hasOpenAIKey : bool) (service : Service)
  (fields : list (list N * Json)) :
  getField (lit "input") fields = Some (JString []) ->
  postConvert hasOpenAIKey service (Some (JObject fields)) = invalidInput
  /\ postConvert hasOpenAIKey service (Some (JObject fields))
     = postConvert hasOpenAIKey service (Some (JObject [])).
Proof.
  intros H. unfold postConvert, destructureInput. simpl. rewrite H.
  split; reflexivity.
Qed.

Lemma empty_input_rejected_witness :
  postConvert true (fun _ => Parsed [JString (lit "x")])
    (Some (JObject [(lit "input", JString [])])) = invalidInput
  /\ postConvert true (fun _ => Parsed [JString (lit "x")])
       (Some (JObject [(lit "input", JString [])]))
     = postConvert true (fun _ => Parsed [JString (lit "x")])
         (Some (JObject [])).
Proof.
  apply (empty_input_rejected true _ [(lit "input", JString [])]).
  reflexivity.
Defined.

(** ** The merge *)

Lemma wellFormed_truthy segment :
  wellFormed segment -> truthy (rcontent segment) = true.
Proof. intros [H _]. now apply nonblank_truthy. Qed.

Lemma fallback_truthy s :
  nonblank s = true ->
  truthy (normalizeLatex (basicInlineConverter s)) = true.
Proof.
  intros H. apply nonblank_truthy, normalizeLatex_nonblank,
    basicInlineConverter_nonblank, H.
Qed.

Lemma filterBoolean_Some {A B} (f : A -> B) l :
  filterBoolean (List.map (fun x => Some (f x)) l) = List.map f l.
Proof. induction l as [|x l IH]; simpl; [reflexivity | now rewrite IH]. Qed.

Lemma length_mergeMap latexList segments :
  forall latexIndex,
    length (mergeMap latexList latexIndex segments) = length segments.
Proof.
  induction segments as [|segment rest IH]; intros latexIndex; simpl;
    [reflexivity|].
  destruct (negb _); simpl; [now rewrite IH|].
  destruct (isMath segment); simpl; now rewrite IH.
Qed.

Lemma mergeMap_fallback segments :
  Forall wellFormed segments ->
  forall pre,
    mergeMap (pre ++ List.map (fun segment =>
                                 basicInlineConverter (rcontent segment))
                       (List.filter isMath segments))
             (length pre) segments
    = List.map (fun segment => Some (fallbackRender segment)) segments.
Proof.
  induction 1 as [|segment rest Hw _ IH]; intros pre; simpl; [reflexivity|].
  rewrite (wellFormed_truthy _ Hw). simpl.
  unfold fallbackRender at 1, isMath at 2 3.
  destruct segment as [[|] c]; simpl.
  - rewrite !list_lookup_middle by reflexivity. simpl.
    destruct Hw as [Hw _]. simpl in Hw. rewrite (fallback_truthy _ Hw). simpl.
    f_equal. specialize (IH (pre ++ [basicInlineConverter c])).
    rewrite length_app, <- app_assoc in IH. simpl in IH.
    rewrite Nat.add_1_r in IH. exact IH.
  - f_equal. apply IH.
Qed.

Lemma filter_nil_text segments :
  List.filter isMath segments = [] ->
  List.map (fun segment =>
              if truthy (rcontent segment)
              then Some (mkSeg text (rcontent segment)) else None) segments
  = List.map (fun segment =>
                if truthy (rcontent segment)
                then Some (fallbackRender segment) else None) segments.
Proof.
  induction segments as [|[[|] c] rest IH]; simpl; [reflexivity| |].
  - discriminate.
  - intros H. now rewrite (IH H).
Qed.

Lemma convert_fallback service input :
  convertMathToLatex false service input
  = (Returns (List.map fallbackRender (extractSegments input)), []).
Proof.
  unfold convertMathToLatex.
  pose proof (extractSegments_wellFormed input) as W.
  destruct (List.filter isMath (extractSegments input)) as [|m ms] eqn:F.
  - rewrite (filter_nil_text _ F). f_equal. f_equal.
    induction W as [|segment rest Hw _ IH]; simpl; [reflexivity|].
    rewrite (wellFormed_truthy _ Hw). simpl in *. f_equal.
    apply IH. destruct (isMath segment); [discriminate | exact F].
  - rewrite length_map, Nat.ltb_irrefl. rewrite <- F.
    pose proof (mergeMap_fallback _ W []) as M. simpl in M.
    rewrite M. now rewrite filterBoolean_Some.
Qed.

(** C2, as amended: without the service the conversion returns one segment
    for every segment of the extractor, and an instruction whose text matches
    none of the three shapes is not dropped: its latex segment holds the
    normalization of that very text. *)
Theorem fallback_keeps_unmatched_instruction
  (service : Service) (input : list N) :
  convertMathToLatex false service input
  = (Returns (List.map fallbackRender (extractSegments input)), [])
  /\ forall segment,
       In segment (extractSegments input) ->
       isMath segment = true ->
       shapeless (rcontent segment) = true ->
       fallbackRender segment
       = mkSeg latex (normalizeLatex (rcontent segment)).
Proof.
  split; [apply convert_fallback|].
  intros segment Hin Hm Hs.
  pose proof (extractSegments_wellFormed input) as W.
  rewrite List.Forall_forall in W. destruct (W segment Hin) as [_ Ht].
  unfold fallbackRender. destruct segment as [[|] c]; [|discriminate].
  simpl in *. now rewrite (basicInlineConverter_shapeless _ Hs), Ht.
Qed.

(** C2 as stated fails: [hello] has none of the shapes, and without the
    service it is answered as a latex segment, not dropped. *)
Lemma unmatched_instruction_not_dropped :
  shapeless (lit "hello") = true
  /\ extractSegments (lit "*hello* world")
     = [mkRaw Raw.math (lit "hello"); mkRaw Raw.text (lit "world")]
  /\ convertMathToLatex false (fun _ => RequestFails) (lit "*hello* world")
     = (Returns [mkSeg latex (lit "hello"); mkSeg text (lit "world")], []).
Proof. repeat split; reflexivity. Qed.

Lemma mergeMap_lookup latexList segments :
  Forall wellFormed segments ->
  forall latexIndex k segment,
    segments !! k = Some segment ->
    mergeMap latexList latexIndex segments !! k
    = Some (mergeAt latexList (latexIndex + mathRank k segments) segment).
Proof.
  induction 1 as [|s rest Hw _ IH]; intros latexIndex k segment;
    [discriminate|].
  simpl. rewrite (wellFormed_truthy _ Hw). simpl.
  destruct k as [|k]; simpl.
  - intros [= ->]. unfold mergeAt, mathRank. simpl. rewrite Nat.add_0_r.
    destruct (isMath segment); [|reflexivity].
    destruct (truthy _); reflexivity.
  - intros Hk. unfold mathRank. simpl.
    destruct (isMath s) eqn:E; simpl.
    + rewrite (IH _ _ _ Hk). unfold mathRank. do 2 f_equal. lia.
    + rewrite (IH _ _ _ Hk). reflexivity.
Qed.

Lemma filter_lookup_rank segments :
  forall j segment,
    List.filter isMath segments !! j = Some segment ->
    exists k, segments !! k = Some segment /\ mathRank k segments = j.
Proof.
  induction segments as [|s rest IH]; intros j segment; [discriminate|].
  simpl. destruct (isMath s) eqn:E.
  - destruct j as [|j]; simpl.
    + intros [= ->]. exists 0. split; reflexivity.
    + intros H. destruct (IH _ _ H) as (k & Hk & Hr).
      exists (S k). split; [exact Hk|]. unfold mathRank in *. simpl.
      rewrite E. simpl. now rewrite Hr.
  - intros H. destruct (IH _ _ H) as (k & Hk & Hr).
    exists (S k). split; [exact Hk|]. unfold mathRank in *. simpl.
    now rewrite E.
Qed.

Lemma backfill_lookup mathSegments latexList j segment :
  mathSegments !! j = Some segment ->
  backfill mathSegments latexList !! j
  = Some (match latexList !! j with
          | Some l => l
          | None => basicInlineConverter (rcontent segment)
          end).
Proof.
  intros H. unfold backfill. rewrite list_lookup_imap, H. reflexivity.
Qed.

Lemma filterBoolean_In {A} (l : list (option A)) k x :
  l !! k = Some (Some x) -> In x (filterBoolean l).
Proof.
  revert k. induction l as [|o l IH]; intros k; [discriminate|].
  destruct k as [|k]; simpl.
  - intros [= ->]. now left.
  - intros H. destruct o; [right|]; eapply IH, H.
Qed.

(** C1, as amended: when the service returns an array shorter than the list
    of instructions asked for, there are two cases.  On the empty array
    [convertWithOpenAI] throws: the conversion throws after the one call to
    the service and the request is answered 500.  On an array that is not
    empty, every instruction at a position from the length of that array on
    gets the fallback converter applied to its own text, and the merge answers
    a latex segment for it at its place: none of them is left out. *)
Theorem short_reply_backfilled
  (service : Service) (input : list N) (items : list Json) :
  let segments := extractSegments input in
  let mathSegments := List.filter isMath segments in
  let latexList := List.map itemString items in
  service (List.map rcontent mathSegments) = Parsed items ->
  length items < length mathSegments ->
  (length items = 0 ->
   convertMathToLatex true service input
   = (Throws, [CallService (List.map rcontent mathSegments)])
   /\ forall body,
        destructureInput body = Some (JString input) ->
        postConvert true service body
        = (mkResponse 500 (ErrorBody conversionFailedError),
           [CallConvert input;
            CallService (List.map rcontent mathSegments)]))
  /\ (0 < length items ->
      exists mapped,
        convertMathToLatex true service input
        = (Returns (filterBoolean mapped),
           [CallService (List.map rcontent mathSegments)])
        /\ mapped = mergeMap (backfill mathSegments latexList) 0 segments
        /\ length mapped = length segments
        /\ forall j segment,
             length items <= j ->
             mathSegments !! j = Some segment ->
             let resolved := basicInlineConverter (rcontent segment) in
             backfill mathSegments latexList !! j = Some resolved
             /\ In (mkSeg latex (normalizeLatex resolved))
                   (filterBoolean mapped)
             /\ exists k,
                  segments !! k = Some segment
                  /\ mathRank k segments = j
                  /\ mapped !! k
                     = Some (Some (mkSeg latex (normalizeLatex resolved)))).
Proof.
  intros segments mathSegments latexList Hret Hlen.
  pose proof (extractSegments_wellFormed input) as W. fold segments in W.
  assert (Hl : length latexList = length items) by apply length_map.
  split.
  { intros Hempty. destruct items as [|item items]; [|discriminate].
    assert (C : convertMathToLatex true service input
                = (Throws, [CallService (List.map rcontent mathSegments)])).
    { unfold convertMathToLatex. fold segments. fold mathSegments.
      destruct mathSegments as [|m ms] eqn:F; [simpl in Hlen; lia|].
      unfold convertWithOpenAI. cbn [List.map]. cbn [List.map] in Hret.
      now rewrite Hret. }
    split; [exact C|]. intros body Hbody.
    assert (Hi : input <> []).
    { intros E. subst input. unfold mathSegments, segments in Hlen.
      simpl in Hlen. lia. }
    now rewrite (postConvert_string _ _ _ _ Hbody Hi), C. }
  intros Hpos.
  exists (mergeMap (backfill mathSegments latexList) 0 segments).
  split; [|split; [reflexivity|split; [apply length_mergeMap|]]].
  - unfold convertMathToLatex. fold segments. fold mathSegments.
    destruct mathSegments as [|m ms] eqn:F; [simpl in Hlen; lia|].
    unfold convertWithOpenAI. cbn [List.map]. cbn [List.map] in Hret.
    rewrite Hret. destruct items as [|item items]; [simpl in Hpos; lia|].
    fold latexList. rewrite Hl.
    apply Nat.ltb_lt in Hlen. rewrite Hlen. reflexivity.
  - intros j segment Hj Hs resolved.
    assert (Hb : backfill mathSegments latexList !! j = Some resolved).
    { rewrite (backfill_lookup _ _ _ _ Hs).
      rewrite (proj2 (lookup_ge_None latexList j)); [reflexivity | lia]. }
    destruct (filter_lookup_rank _ _ _ Hs) as (k & Hk & Hr).
    assert (Hm : mergeMap (backfill mathSegments latexList) 0 segments !! k
                 = Some (Some (mkSeg latex (normalizeLatex resolved)))).
    { rewrite (mergeMap_lookup _ _ W _ _ _ Hk). simpl. rewrite Hr.
      unfold mergeAt. rewrite Hb. simpl.
      assert (Hmath : isMath segment = true).
      { apply list_elem_of_lookup_2, list_elem_of_In in Hs.
        now apply List.filter_In in Hs. }
      rewrite Hmath.
      rewrite List.Forall_forall in W.
      destruct (W segment) as [Hn _].
      { eapply list_elem_of_In, list_elem_of_lookup_2, Hk. }
      unfold resolved. now rewrite (fallback_truthy _ Hn). }
    split; [exact Hb|]. split; [eapply filterBoolean_In, Hm|].
    exists k. auto.
Qed.

Lemma short_reply_backfilled_witness :
  (let service : Service := fun _ => Parsed [] in
   let input := lit "*a* and *fraction(1,2)* *c*" in
   let instructions :=
     List.map rcontent (List.filter isMath (extractSegments input)) in
   convertMathToLatex true service input
   = (Throws, [CallService instructions])
   /\ postConvert true service
        (Some (JObject [(lit "input", JString input)]))
      = (mkResponse 500 (ErrorBody conversionFailedError),
         [CallConvert input; CallService instructions]))
  /\ (let service : Service := fun _ => Parsed [JString (lit " A ")] in
      let input := lit "*a* and *fraction(1,2)* *c*" in
      exists mapped,
        convertMathToLatex true service input
        = (Returns (filterBoolean mapped),
           [CallService (List.map rcontent
                           (List.filter isMath (extractSegments input)))])
        /\ mapped
           = mergeMap (backfill (List.filter isMath (extractSegments input))
                         [lit "A"]) 0 (extractSegments input)
        /\ length mapped = length (extractSegments input)
        /\ forall j segment,
             1 <= j ->
             List.filter isMath (extractSegments input) !! j = Some segment ->
             let resolved := basicInlineConverter (rcontent segment) in
             backfill (List.filter isMath (extractSegments input)) [lit "A"]
               !! j
             = Some resolved
             /\ In (mkSeg latex (normalizeLatex resolved))
                   (filterBoolean mapped)
             /\ exists k,
                  extractSegments input !! k = Some segment
                  /\ mathRank k (extractSegments input) = j
                  /\ mapped !! k
                     = Some (Some (mkSeg latex (normalizeLatex resolved)))).
Proof.
  split.
  - destruct (short_reply_backfilled (fun _ => Parsed [])
                (lit "*a* and *fraction(1,2)* *c*") [] eq_refl)
      as [Empty _]; [vm_compute; lia|].
    destruct (Empty eq_refl) as [Thrown Answered]. cbv zeta.
    split; [exact Thrown | apply Answered; reflexivity].
  - destruct (short_reply_backfilled (fun _ => Parsed [JString (lit " A ")])
                (lit "*a* and *fraction(1,2)* *c*") [JString (lit " A ")]
                eq_refl)
      as [_ Short]; [vm_compute; lia|].
    apply Short. vm_compute. lia.
Defined.

(** C1 as stated fails in two ways.  On the shortest list of all, the empty
    array, [convertWithOpenAI] throws: no position is resolved by the fallback
    converter and the request is answered 500.  And an instruction below the
    returned length is left out of the answer without a word when its item is
    not a string: only the positions from the returned length on are
    backfilled. *)
Lemma short_reply_not_always_backfilled :
  let input := lit "*squareroot(2x)* and *b*" in
  let body := Some (JObject [(lit "input", JString input)]) in
  List.map rcontent (List.filter isMath (extractSegments input))
  = [lit "squareroot(2x)"; lit "b"]
  /\ convertMathToLatex true (fun _ => Parsed []) input
     = (Throws, [CallService [lit "squareroot(2x)"; lit "b"]])
  /\ fst (postConvert true (fun _ => Parsed []) body)
     = mkResponse 500 (ErrorBody conversionFailedError)
  /\ convertMathToLatex true (fun _ => Parsed [JNull]) input
     = (Returns [mkSeg text (lit "and"); mkSeg latex (lit "b")],
        [CallService [lit "squareroot(2x)"; lit "b"]]).
Proof. repeat split; reflexivity. Qed.

Lemma hydrate_true cache structured :
  snd (hydrate cache true structured) = true.
Proof.
  induction structured as [|[[|] c] rest IH]; simpl; [reflexivity| |].
  - destruct (cache !! c) as [[|x v]|];
      destruct (hydrate cache true rest); exact IH.
  - destruct (hydrate cache true rest); exact IH.
Qed.

Lemma hydrate_hits cache structured :
  (forall segment, In segment structured -> isMath segment = true ->
     exists v, cache !! rcontent segment = Some v /\ v <> []) ->
  hydrate cache false structured
  = (List.map (renderCached cache) structured, false).
Proof.
  induction structured as [|[[|] c] rest IH]; intros H; simpl;
    [reflexivity| |].
  - destruct (H (mkRaw Raw.math c)) as (v & Hv & Hne);
      [now left | reflexivity |].
    simpl in Hv. unfold renderCached at 1. simpl. rewrite Hv.
    destruct v as [|x v]; [congruence|].
    rewrite IH; [reflexivity|]. intros s Hs. apply H. now right.
  - rewrite IH; [reflexivity|]. intros s Hs. apply H. now right.
Qed.

Lemma hydrate_cached cache structured :
  cacheValid cache ->
  (forall segment, In segment structured -> isMath segment = true ->
                   is_Some (cache !! rcontent segment)) ->
  hydrate cache false structured
  = (List.map (renderCached cache) structured, false).
Proof.
  intros V H. apply hydrate_hits. intros segment Hin Hm.
  destruct (H segment Hin Hm) as [v Hv]. exists v. split; [exact Hv|].
  now apply V in Hv.
Qed.

Lemma cacheUpdate_keys mathSnapshot latexSegments :
  forall index cache k,
    is_Some (cache !! k) ->
    is_Some (cacheUpdate mathSnapshot index latexSegments cache !! k).
Proof.
  induction latexSegments as [|segment rest IH]; intros index cache k H;
    simpl; [exact H|].
  apply IH. destruct (mathSnapshot !! index) as [[|x original]|];
    try exact H.
  rewrite lookup_insert_is_Some'. now right.
Qed.

Lemma cacheUpdate_other mathSnapshot latexSegments k :
  ~ In k mathSnapshot ->
  forall index cache,
    cacheUpdate mathSnapshot index latexSegments cache !! k = cache !! k.
Proof.
  intros Hk. induction latexSegments as [|segment rest IH];
    intros index cache; simpl; [reflexivity|].
  rewrite IH. destruct (mathSnapshot !! index) as [[|x original]|] eqn:E;
    try reflexivity.
  apply lookup_insert_ne. intros <-. apply Hk.
  eapply list_elem_of_In, list_elem_of_lookup_2, E.
Qed.

(** A key is left as it is when no position pairs it with a latex segment:
    the empty key is never set. *)
Lemma cacheUpdate_untouched mathSnapshot latexSegments k :
  forall index cache,
    (k = []
     \/ forall j, mathSnapshot !! (index + j) = Some k ->
                  latexSegments !! j = None) ->
    cacheUpdate mathSnapshot index latexSegments cache !! k = cache !! k.
Proof.
  induction latexSegments as [|segment rest IH]; intros index cache H;
    simpl; [reflexivity|].
  rewrite IH.
  - destruct (mathSnapshot !! index) as [[|x original]|] eqn:E;
      try reflexivity.
    apply lookup_insert_ne. intros <-. destruct H as [H|H]; [discriminate|].
    specialize (H 0). rewrite Nat.add_0_r in H. specialize (H E).
    discriminate.
  - destruct H as [H|H]; [now left | right].
    intros j Hj. apply (H (S j)). now rewrite Nat.add_succ_r.
Qed.

(** The latex segment at a position is stored under the instruction at the
    same position of the snapshot, and stays unless a later position stores
    under the same instruction. *)
Lemma cacheUpdate_stores mathSnapshot latexSegments :
  forall index cache i original segment,
    latexSegments !! i = Some segment ->
    mathSnapshot !! (index + i) = Some original ->
    original <> [] ->
    (forall j, i < j -> mathSnapshot !! (index + j) = Some original ->
               latexSegments !! j = None) ->
    cacheUpdate mathSnapshot index latexSegments cache !! original
    = Some (content segment).
Proof.
  induction latexSegments as [|s rest IH];
    intros index cache i original segment Hs Ho Hne Hlast; [discriminate|].
  destruct i as [|i]; simpl.
  - injection Hs as ->. rewrite Nat.add_0_r in Ho. rewrite Ho.
    destruct original as [|x original]; [congruence|].
    rewrite cacheUpdate_untouched.
    + apply lookup_insert_eq.
    + right. intros j Hj.
      apply (Hlast (S j)); [lia | now rewrite Nat.add_succ_r].
  - apply (IH (S index) _ i); [exact Hs | | exact Hne |].
    + now rewrite Nat.add_succ_r in Ho.
    + intros j Hij Hj. apply (Hlast (S j)); [lia|].
      now rewrite Nat.add_succ_r.
Qed.

Lemma cacheUpdate_valid mathSnapshot latexSegments :
  Forall (fun segment => truthy (content segment) = true) latexSegments ->
  forall index cache,
    cacheValid cache ->
    cacheValid (cacheUpdate mathSnapshot index latexSegments cache).
Proof.
  induction 1 as [|segment rest Hs _ IH]; intros index cache V; simpl;
    [exact V|].
  apply IH. destruct (mathSnapshot !! index) as [[|x original]|];
    try exact V.
  intros k v. rewrite lookup_insert. case_decide.
  - intros [= <-] E. now rewrite E in Hs.
  - apply V.
Qed.

Lemma mergeMap_truthy latexList segments :
  forall latexIndex,
    Forall (fun segment => truthy (content segment) = true)
           (filterBoolean (mergeMap latexList latexIndex segments)).
Proof.
  induction segments as [|s rest IH]; intros latexIndex; simpl;
    [constructor|].
  destruct (truthy (rcontent s)) eqn:E; simpl; [|apply IH].
  destruct (isMath s); simpl.
  - destruct (truthy (normalizeLatex _)) eqn:F; simpl; [|apply IH].
    constructor; [exact F | apply IH].
  - constructor; [exact E | apply IH].
Qed.

Lemma convert_truthy hasOpenAIKey service input out :
  fst (convertMathToLatex hasOpenAIKey service input) = Returns out ->
  Forall (fun segment => truthy (content segment) = true) out.
Proof.
  unfold convertMathToLatex.
  destruct (List.filter isMath (extractSegments input)) as [|m ms].
  - simpl. intros [= <-].
    induction (extractSegments input) as [|s rest IH]; simpl; [constructor|].
    destruct (truthy (rcontent s)) eqn:E; [|exact IH].
    constructor; [exact E | exact IH].
  - destruct (if hasOpenAIKey then _ else _) as [[latexList|] calls];
      simpl; [|discriminate].
    intros [= <-]. apply mergeMap_truthy.
Qed.

Lemma serverDelivery_truthy hasOpenAIKey service input data :
  serverDelivery hasOpenAIKey service input = Resolved data ->
  Forall (fun segment => truthy (content segment) = true)
         (match data with Some l => l | None => [] end).
Proof.
  unfold serverDelivery, postConvert.
  destruct (negb _ || negb _); [discriminate|].
  match goal with |- context [convertMathToLatex ?h ?s ?i] =>
    pose proof (convert_truthy h s i) as T;
    destruct (convertMathToLatex h s i) as [[out|] calls] end;
    simpl; [|discriminate].
  intros [= <-]. now apply T.
Qed.

Section CacheProperties.

Variable extractSegments : list N -> list RawSegment.

Lemma conversionEffect_cache st input :
  latexCache (fst (conversionEffect extractSegments st input))
  = latexCache st.
Proof.
  unfold conversionEffect.
  destruct (negb (truthy (trim input))); [reflexivity|].
  destruct (negb (existsb isMath (extractSegments input))); [reflexivity|].
  destruct (hydrate _ _ _) as [hydrated needs].
  destruct (negb needs); reflexivity.
Qed.

Lemma conversionEffect_snapshot st input st1 pending :
  conversionEffect extractSegments st input = (st1, Some pending) ->
  mathSnapshot pending
  = List.map rcontent (List.filter isMath (extractSegments input)).
Proof.
  unfold conversionEffect.
  destruct (negb (truthy (trim input))); [discriminate|].
  destruct (negb (existsb isMath (extractSegments input))); [discriminate|].
  destruct (hydrate _ _ _) as [hydrated needs].
  destruct (negb needs); [discriminate|]. now intros [= <- <-].
Qed.

Lemma cycle_valid st input delivery :
  (forall data, delivery = Resolved data ->
                Forall (fun segment => truthy (content segment) = true)
                       (match data with Some l => l | None => [] end)) ->
  cacheValid (latexCache st) ->
  cacheValid (latexCache (cycle extractSegments st input delivery)).
Proof.
  intros Hd V. unfold cycle.
  pose proof (conversionEffect_cache st input) as C.
  destruct (conversionEffect extractSegments st input) as [st1 [pending|]];
    simpl in C; [|now rewrite C].
  destruct delivery as [data| |]; simpl; rewrite ?C; try exact V.
  apply cacheUpdate_valid; [|exact V].
  specialize (Hd data eq_refl).
  induction Hd as [|s l Hs _ IH]; simpl; [constructor|].
  destruct (isLatex s); [constructor|]; assumption.
Qed.

Lemma reachable_valid st :
  reachable extractSegments st -> cacheValid (latexCache st).
Proof.
  induction 1 as [|st h svc input _ IH|st input m _ IH|st input _ IH].
  - intros k v. simpl. now rewrite lookup_empty.
  - apply cycle_valid; [|exact IH]. apply serverDelivery_truthy.
  - apply cycle_valid; [discriminate | exact IH].
  - apply cycle_valid; [discriminate | exact IH].
Qed.

End CacheProperties.

Lemma text_only_renderCached cache structured :
  existsb isMath structured = false ->
  List.map (fun segment => mkSeg text (rcontent segment)) structured
  = List.map (renderCached cache) structured.
Proof.
  induction structured as [|[[|] c] rest IH]; simpl; [reflexivity| |].
  - discriminate.
  - intros H. now rewrite (IH H).
Qed.

(** C6, as amended: in every state of an editing session, for a document
    whose every instruction is a key of the cache, the effect sets no timer
    and posts nothing, leaves the cache as it is, and displays at once each
    instruction as the LaTeX cached for it and each prose run as the
    extractor gave it (untrimmed in App.tsx, so not always what the server
    answered before). *)
Theorem cached_document_posts_nothing
  (extract : list N -> list RawSegment) (st : AppState) (input : list N) :
  reachable extract st ->
  (forall segment, In segment (extract input) -> isMath segment = true ->
                   is_Some (latexCache st !! rcontent segment)) ->
  snd (conversionEffect extract st input) = None
  /\ (forall delivery,
        cycle extract st input delivery
        = fst (conversionEffect extract st input))
  /\ latexCache (fst (conversionEffect extract st input)) = latexCache st
  /\ status (fst (conversionEffect extract st input)) = idle
  /\ segments (fst (conversionEffect extract st input))
     = if truthy (trim input)
       then List.map (renderCached (latexCache st)) (extract input)
       else [].
Proof.
  intros R H. apply reachable_valid in R.
  assert (E : conversionEffect extract st input
              = (mkApp (if truthy (trim input)
                        then List.map (renderCached (latexCache st))
                                      (extract input)
                        else [])
                       (if truthy (trim input) then extract input else [])
                       idle None (latexCache st), None)).
  { unfold conversionEffect. destruct (truthy (trim input)); [|reflexivity].
    simpl. destruct (existsb isMath (extract input)) eqn:M; simpl.
    - now rewrite (hydrate_cached _ _ R H).
    - now rewrite (text_only_renderCached (latexCache st) _ M). }
  unfold cycle. rewrite E. simpl. auto.
Qed.

Lemma cached_document_posts_nothing_witness :
  let input := lit "*squareroot(2x)* is steep" in
  let st :=
    reconcile App.extractSegments false (fun _ => RequestFails)
      initialState input in
  snd (conversionEffect App.extractSegments st input) = None
  /\ (forall delivery,
        cycle App.extractSegments st input delivery
        = fst (conversionEffect App.extractSegments st input))
  /\ latexCache (fst (conversionEffect App.extractSegments st input))
     = latexCache st
  /\ status (fst (conversionEffect App.extractSegments st input)) = idle
  /\ segments (fst (conversionEffect App.extractSegments st input))
     = if truthy (trim input)
       then List.map (renderCached (latexCache st))
                     (App.extractSegments input)
       else [].
Proof.
  apply (cached_document_posts_nothing App.extractSegments
           (reconcile App.extractSegments false (fun _ => RequestFails)
              initialState (lit "*squareroot(2x)* is steep"))
           (lit "*squareroot(2x)* is steep")).
  - apply reach_reconcile, reach_initial.
  - intros segment [<-|[<-|[]]]; [intros _ | discriminate].
    exists (lit "\\sqrt{2x}"). vm_compute. reflexivity.
Defined.

(** C6 as stated fails on its second half: after a successful first answer
    for ["*squareroot(2x)* is steep"] every instruction is cached and the next
    run posts nothing, but it displays the prose run with its leading blank,
    which the server's answer did not have. *)
Lemma cached_rerun_differs_from_answer :
  let input := lit "*squareroot(2x)* is steep" in
  let st1 :=
    reconcile App.extractSegments false (fun _ => RequestFails)
      initialState input in
  let st2 :=
    reconcile App.extractSegments false (fun _ => RequestFails) st1 input in
  status st1 = idle
  /\ latexCache st1 !! lit "squareroot(2x)" = Some (lit "\\sqrt{2x}")
  /\ snd (conversionEffect App.extractSegments st1 input) = None
  /\ segments st1
     = [mkSeg latex (lit "\\sqrt{2x}"); mkSeg text (lit "is steep")]
  /\ segments st2
     = [mkSeg latex (lit "\\sqrt{2x}"); mkSeg text (lit " is steep")].
Proof. repeat split; vm_compute; reflexivity. Qed.

(** C7, as amended: over a run of the effect no key of the cache is lost;
    the entries of instructions that are not in the document are untouched;
    when the request fails, is discarded, or is never made, the cache is left
    exactly as it was; and when the request succeeds, the latex segments of
    the answer are stored by position: the segment at a position is stored
    under the instruction at the same position of the snapshot (the last
    such position of an instruction wins), a position past the end of either
    list stores nothing, and every other entry is left as it was.  So a key
    that was cached already is overwritten with what the answer holds at its
    position, be it the LaTeX of another instruction. *)
Theorem cache_keys_only_grow
  (extract : list N -> list RawSegment) (st : AppState) (input : list N)
  (delivery : Delivery) :
  let st' := cycle extract st input delivery in
  (forall k, is_Some (latexCache st !! k) -> is_Some (latexCache st' !! k))
  /\ (forall k,
        ~ In k (List.map rcontent (List.filter isMath (extract input))) ->
        latexCache st' !! k = latexCache st !! k)
  /\ ((forall data, delivery <> Resolved data) ->
      latexCache st' = latexCache st)
  /\ (snd (conversionEffect extract st input) = None ->
      latexCache st' = latexCache st)
  /\ (forall data,
        delivery = Resolved data ->
        is_Some (snd (conversionEffect extract st input)) ->
        let mathSnapshot :=
          List.map rcontent (List.filter isMath (extract input)) in
        let latexSegments :=
          List.filter isLatex (match data with Some l => l | None => [] end)
        in
        (forall index original segment,
           mathSnapshot !! index = Some original ->
           original <> [] ->
           latexSegments !! index = Some segment ->
           (forall later, index < later ->
                          mathSnapshot !! later = Some original ->
                          latexSegments !! later = None) ->
           latexCache st' !! original = Some (content segment))
        /\ (forall k,
              (k = []
               \/ forall index, mathSnapshot !! index = Some k ->
                                latexSegments !! index = None) ->
              latexCache st' !! k = latexCache st !! k)).
Proof.
  unfold cycle.
  pose proof (conversionEffect_cache extract st input) as C.
  pose proof (conversionEffect_snapshot extract st input) as S.
  destruct (conversionEffect extract st input) as [st1 [pending|]];
    simpl in *.
  - specialize (S _ _ eq_refl).
    destruct delivery as [data| |]; simpl; rewrite ?C.
    + split; [|split; [|split; [|split]]].
      * intros k. apply cacheUpdate_keys.
      * intros k Hk. apply cacheUpdate_other. now rewrite S.
      * intros H. now destruct (H data).
      * discriminate.
      * intros data' [= <-] _. rewrite S. split.
        -- intros index original segment Ho Hne Hs Hlast.
           now apply (cacheUpdate_stores _ _ 0 _ index).
        -- intros k Hk. now apply cacheUpdate_untouched.
    + do 4 (split; [auto|]). discriminate.
    + do 4 (split; [auto|]). discriminate.
  - rewrite C. do 4 (split; [auto|]). intros data _ [x Hx]. discriminate.
Qed.

(** C7 as stated fails: an entry is not always kept.  The instruction [a] is
    cached with [x]; a later document holds [a] and the uncached [b], so the
    whole document is posted and every answered latex segment is stored again.
    When the service answers [y] for [a] this time, the entry of [a] becomes
    [y]; when it answers nothing for [a] and [z] for [b], the server drops the
    empty conversion, the one latex segment left is paired with the first
    instruction of the snapshot, and the entry of [a] becomes [z]. *)
Lemma cache_entry_overwritten :
  let st1 :=
    reconcile App.extractSegments true (fun _ => Parsed [JString (lit "x")])
      initialState (lit "*a*") in
  let st2 :=
    reconcile App.extractSegments true
      (fun _ => Parsed [JString (lit "y"); JString (lit "z")])
      st1 (lit "*a* *b*") in
  let st2' :=
    reconcile App.extractSegments true
      (fun _ => Parsed [JString (lit ""); JString (lit "z")])
      st1 (lit "*a* *b*") in
  latexCache st1 !! lit "a" = Some (lit "x")
  /\ status st2 = idle
  /\ latexCache st2 !! lit "a" = Some (lit "y")
  /\ latexCache st2 !! lit "b" = Some (lit "z")
  /\ status st2' = idle
  /\ latexCache st2' !! lit "a" = Some (lit "z")
  /\ latexCache st2' !! lit "b" = None.
Proof. repeat split; vm_compute; reflexivity. Qed.

(** ** Reconciling twice with an extractor that trims *)

Lemma cacheUpdate_aligned (F : list N -> list N) keys :
  Forall (fun k => k <> []) keys ->
  forall pre cache k,
    cacheUpdate (pre ++ keys) (length pre)
      (List.map (fun key => mkSeg latex (F key)) keys) cache !! k
    = if bool_decide (k ∈ keys) then Some (F k) else cache !! k.
Proof.
  induction 1 as [|k0 keys Hk0 _ IH]; intros pre cache k; [reflexivity|].
  cbn [List.map cacheUpdate]. rewrite list_lookup_middle by reflexivity.
  destruct k0 as [|x k0]; [congruence|]. simpl content.
  specialize (IH (pre ++ [x :: k0]) (<[x :: k0 := F (x :: k0)]> cache) k).
  rewrite <- app_assoc, length_app in IH. simpl in IH.
  rewrite Nat.add_1_r in IH. rewrite IH.
  destruct (bool_decide (k ∈ keys)) eqn:E.
  - apply bool_decide_eq_true in E.
    rewrite bool_decide_eq_true_2; [reflexivity | now right].
  - apply bool_decide_eq_false in E.
    destruct (decide (k = x :: k0)) as [->|Hne].
    + rewrite lookup_insert_eq.
      rewrite bool_decide_eq_true_2; [reflexivity | now left].
    + rewrite lookup_insert_ne by congruence.
      rewrite bool_decide_eq_false_2; [reflexivity|].
      intros Hin. apply elem_of_cons in Hin as [->|Hin];
        [congruence | contradiction].
Qed.

Lemma fallback_latex_segments segments :
  List.filter isLatex (List.map fallbackRender segments)
  = List.map (fun key => mkSeg latex (fallbackLatex key))
      (List.map rcontent (List.filter isMath segments)).
Proof.
  induction segments as [|[[|] c] rest IH]; [reflexivity| |].
  - change (List.filter isLatex
              (List.map fallbackRender (mkRaw Raw.math c :: rest)))
      with (mkSeg latex (fallbackLatex c)
              :: List.filter isLatex (List.map fallbackRender rest)).
    rewrite IH. reflexivity.
  - exact IH.
Qed.

Lemma Earlier_extractSegments value :
  Earlier.extractSegments value = extractSegments value.
Proof.
  unfold Earlier.extractSegments, extractSegments.
  assert (L : forall fuel lastIndex output,
            Earlier.extractLoop fuel value lastIndex output
            = extractLoop fuel value lastIndex output).
  { induction fuel as [|fuel IH]; intros lastIndex output; simpl;
      [reflexivity|].
    destruct (star_exec value lastIndex) as [[[index inside] next]|];
      [apply IH | reflexivity]. }
  now rewrite L.
Qed.

Lemma conversionEffect_ext (e1 e2 : list N -> list RawSegment) st input :
  (forall value, e1 value = e2 value) ->
  conversionEffect e1 st input = conversionEffect e2 st input.
Proof. intros H. unfold conversionEffect. now rewrite H. Qed.

Lemma reconcile_ext (e1 e2 : list N -> list RawSegment)
  hasOpenAIKey service st input :
  (forall value, e1 value = e2 value) ->
  reconcile e1 hasOpenAIKey service st input
  = reconcile e2 hasOpenAIKey service st input.
Proof.
  intros H. unfold reconcile, cycle. now rewrite (conversionEffect_ext e1 e2).
Qed.

Lemma trimming_rerun (service : Service) (st : AppState) (input : list N) :
  let st1 := reconcile extractSegments false service st input in
  let st2 := reconcile extractSegments false service st1 input in
  snd (conversionEffect extractSegments st1 input) = None
  /\ segments st2 = segments st1.
Proof.
  cbv zeta.
  remember (reconcile extractSegments false service st input) as st1 eqn:E1.
  assert (G : forall shown,
            conversionEffect extractSegments st1 input
            = (mkApp shown (if truthy (trim input)
                            then extractSegments input else [])
                     idle None (latexCache st1), None) ->
            segments st1 = shown ->
            snd (conversionEffect extractSegments st1 input) = None
            /\ segments (reconcile extractSegments false service st1 input)
               = segments st1).
  { intros shown E2 Es. unfold reconcile, cycle. rewrite E2. simpl. auto. }
  unfold reconcile, cycle, conversionEffect in E1.
  destruct (truthy (trim input)) eqn:T; simpl in E1.
  2:{ apply (G []); [|now subst].
      unfold conversionEffect. rewrite T. now subst. }
  destruct (existsb isMath (extractSegments input)) eqn:M; simpl in E1.
  2:{ apply (G (List.map (fun segment => mkSeg text (rcontent segment))
                  (extractSegments input))); [|now subst].
      unfold conversionEffect. rewrite T, M. now subst. }
  destruct (hydrate (latexCache st) false (extractSegments input))
    as [hydrated needs] eqn:H.
  destruct needs; simpl in E1.
  2:{ apply (G hydrated); [|now subst].
      unfold conversionEffect. rewrite T, M. subst st1. simpl.
      now rewrite H. }
  (* the request is posted and answered by the fallback path *)
  assert (D : serverDelivery false service input
              = Resolved (Some (List.map fallbackRender
                                  (extractSegments input)))).
  { unfold serverDelivery, postConvert, destructureInput. cbn.
    destruct input as [|c input]; [discriminate T|]. cbn.
    now rewrite convert_fallback. }
  rewrite D in E1. simpl in E1.
  pose proof (extractSegments_wellFormed input) as W.
  assert (K : forall segment, In segment (extractSegments input) ->
            isMath segment = true ->
            latexCache st1 !! rcontent segment
            = Some (fallbackLatex (rcontent segment))).
  { intros segment Hin Hm. subst st1. simpl.
    rewrite fallback_latex_segments.
    assert (F : Forall (fun k => k <> [])
                  (List.map rcontent
                     (List.filter isMath (extractSegments input)))).
    { clear -W. induction W as [|s l Hs _ IH]; simpl; [constructor|].
      destruct (isMath s); simpl; [constructor|]; try exact IH.
      destruct Hs as [Hs _]. intros Z. now rewrite Z in Hs. }
    pose proof (cacheUpdate_aligned fallbackLatex _ F [] (latexCache st)
                  (rcontent segment)) as A.
    simpl in A. rewrite A.
    rewrite bool_decide_eq_true_2; [reflexivity|].
    apply list_elem_of_In, List.in_map, List.filter_In. auto. }
  apply (G (List.map fallbackRender (extractSegments input))); [|now subst].
  unfold conversionEffect. rewrite T, M. simpl.
  rewrite hydrate_hits.
  - simpl. do 2 f_equal.
    apply List.map_ext_in. intros [[|] c] Hin; [|reflexivity].
    pose proof (K _ Hin eq_refl) as Kc. simpl in Kc.
    unfold renderCached, fallbackRender. simpl. now rewrite Kc.
  - intros segment Hin Hm. eexists. split; [apply (K _ Hin Hm)|].
    rewrite List.Forall_forall in W. destruct (W _ Hin) as [Hn _].
    intros Z. pose proof (fallback_truthy _ Hn) as Tr.
    unfold fallbackLatex in Z. now rewrite Z in Tr.
Qed.

(** X5: in the earlier revision of the editor, whose extractor trims as the
    server's does, and with the fallback converter, reconciling a document a
    second time posts nothing and displays the very segments of the first
    time, whatever the cache held before. *)
Theorem trimming_editor_rerun_identical
  (service : Service) (st : AppState) (input : list N) :
  let st1 := reconcile Earlier.extractSegments false service st input in
  let st2 := reconcile Earlier.extractSegments false service st1 input in
  snd (conversionEffect Earlier.extractSegments st1 input) = None
  /\ segments st2 = segments st1.
Proof.
  cbv zeta.
  rewrite !(reconcile_ext Earlier.extractSegments extractSegments)
    by apply Earlier_extractSegments.
  rewrite (conversionEffect_ext Earlier.extractSegments extractSegments)
    by apply Earlier_extractSegments.
  apply trimming_rerun.
Qed.

(** ** The normalization pass against its description *)

Lemma literal_prefix pat s :
  literal pat s = true <-> exists t, s = pat ++ t.
Proof.
  revert s. induction pat as [|p pat IH]; intros s; simpl.
  - split; eauto.
  - destruct s as [|c s]; [split; [discriminate | intros [t [=]]]|].
    rewrite andb_true_iff, N.eqb_eq, IH. split.
    + intros [-> [t ->]]. eauto.
    + intros [t [= -> ->]]. eauto.
Qed.

Lemma skip_matched (m : matcher) u t :
  replace_from m false (length u) (u ++ t) = replace_from m false 0 t.
Proof.
  induction u as [|x u IH]; simpl; [|exact IH].
  destruct t; reflexivity.
Qed.

(** No occurrence of the command starts inside one that a non-letter
    follows, nor right behind it. *)
Lemma no_inner w v u t :
  letters w -> w = v ++ u -> v <> [] -> lookahead t = true ->
  literal w (u ++ t) = false.
Proof.
  intros [Hne Hl] -> Hv Ht.
  destruct (literal (v ++ u) (u ++ t)) eqn:E; [|reflexivity]. exfalso.
  apply literal_prefix in E as [t' E].
  assert (Hlen : length u < length (v ++ u)).
  { rewrite length_app. destruct v; [congruence | simpl; lia]. }
  destruct (lookup_lt_is_Some_2 _ _ Hlen) as [x Hx].
  assert (Hx' : ((v ++ u) ++ t') !! length u = Some x)
    by (now apply lookup_app_l_Some).
  rewrite <- E in Hx'. rewrite lookup_app_r in Hx' by lia.
  rewrite Nat.sub_diag in Hx'.
  destruct t as [|c t]; [discriminate|]. simpl in Hx'. injection Hx' as ->.
  rewrite List.Forall_forall in Hl.
  assert (L : isAsciiLetter x = true).
  { apply Hl. eapply list_elem_of_In, list_elem_of_lookup_2, Hx. }
  simpl in Ht. now rewrite L in Ht.
Qed.

Lemma marked_literal command prev s :
  literal command s = false -> marked command prev s = false.
Proof. intros H. unfold marked. now rewrite H. Qed.

Lemma mark_unmarked command prev prev' s :
  literal command s = false ->
  markFrom command prev s = markFrom command prev' s.
Proof.
  intros H. destruct s as [|c s]; [reflexivity|]. cbn [markFrom].
  now rewrite !(marked_literal _ _ _ H).
Qed.

Lemma mark_inner w t :
  letters w -> lookahead t = true ->
  forall u v prev, w = v ++ u -> v <> [] ->
    markFrom w prev (u ++ t) = u ++ markFrom w None t.
Proof.
  intros Hw Ht. induction u as [|x u IH]; intros v prev E Hv.
  - simpl. apply mark_unmarked.
    apply (no_inner w v [] t Hw E Hv Ht).
  - pose proof (no_inner w v (x :: u) t Hw E Hv Ht) as N.
    change ((x :: u) ++ t) with (x :: u ++ t) in *.
    cbn [markFrom]. rewrite (marked_literal _ _ _ N). simpl. f_equal.
    apply (IH (v ++ [x])).
    + now rewrite <- app_assoc.
    + now destruct v.
Qed.

Lemma mark_command w t prev :
  letters w -> lookahead t = true ->
  bslashBefore prev = false ->
  markFrom w prev (w ++ t) = bslash :: w ++ markFrom w None t.
Proof.
  intros Hw Ht Hp. destruct w as [|x w0]; [now destruct Hw|].
  assert (L : literal (x :: w0) (x :: w0 ++ t) = true)
    by (apply literal_prefix; exists t; reflexivity).
  assert (D : skipn (length (x :: w0)) (x :: w0 ++ t) = t)
    by (apply (drop_app_length (x :: w0))).
  change ((x :: w0) ++ t) with (x :: w0 ++ t).
  cbn [markFrom]. unfold marked at 1.
  rewrite L, D, Ht, Hp. cbn [andb negb app]. do 2 f_equal.
  apply (mark_inner (x :: w0) t Hw Ht w0 [x]); [reflexivity | discriminate].
Qed.

(** The two alternatives of the prefix, [^] and [[^\\]]. *)
Lemma command_match_first w s :
  command_match w true s
  = if marked w None s then Some (bslash :: w, length w)
    else command_match w false s.
Proof.
  unfold command_match, marked, bslashBefore. cbn [andb negb].
  rewrite andb_true_r. reflexivity.
Qed.

Lemma command_match_second w c rest :
  command_match w false (c :: rest)
  = if marked w (Some c) rest then Some (c :: bslash :: w, S (length w))
    else None.
Proof.
  unfold command_match, marked, bslashBefore. cbn [andb].
  destruct (negb (c =? bslash)%N), (literal w rest),
    (lookahead (skipn (length w) rest)); reflexivity.
Qed.

(** The scan of the global replacement and the marking agree, from the start
    of the string and from any later position that is not itself marked. *)
Lemma command_pass_bounded w (Hw : letters w) n :
  forall s, length s <= n ->
    replace_from (command_match w) true 0 s = markFrom w None s
    /\ forall p,
         marked w (Some p) s = false ->
         replace_from (command_match w) false 0 s = markFrom w (Some p) s.
Proof.
  induction n as [|n IH]; intros s Hs.
  - destruct s; [|simpl in Hs; lia]. split; reflexivity.
  - destruct s as [|c rest]; [split; reflexivity|]. simpl in Hs.
    assert (After : forall t, length t <= n -> lookahead t = true ->
              replace_from (command_match w) false 0 t = markFrom w None t).
    { intros t Ht Hl. destruct (IH t Ht) as [_ I].
      assert (N : literal w t = false).
      { apply (no_inner w w [] t Hw); [now rewrite app_nil_r | apply Hw|].
        exact Hl. }
      rewrite (I bslash (marked_literal _ _ _ N)).
      now apply mark_unmarked. }
    assert (Second : forall prev,
              marked w prev (c :: rest) = false ->
              replace_from (command_match w) false 0 (c :: rest)
              = markFrom w prev (c :: rest)).
    { intros prev Hhead. cbn [replace_from markFrom].
      rewrite Hhead, command_match_second. simpl app.
      destruct (marked w (Some c) rest) eqn:A.
      - unfold marked in A.
        apply andb_prop in A as [A A3]. apply andb_prop in A as [A1 A2].
        apply literal_prefix in A1 as [t ->].
        rewrite drop_app_length in A2.
        simpl Nat.pred. rewrite skip_matched.
        rewrite mark_command; [|exact Hw|exact A2|].
        + simpl. do 3 f_equal.
          apply After; [|exact A2]. rewrite length_app in Hs. lia.
        + now apply negb_true_iff in A3.
      - f_equal. destruct (IH rest ltac:(lia)) as [_ I]. now apply I. }
    split; [|intros p Hp; now apply Second].
    destruct (marked w None (c :: rest)) eqn:A; [|].
    + cbn [replace_from]. rewrite command_match_first, A.
      unfold marked in A. rewrite andb_true_r in A.
      apply andb_prop in A as [A1 A2].
      apply literal_prefix in A1 as [t E]. rewrite E in A2 |- *.
      rewrite drop_app_length in A2.
      rewrite mark_command; [|exact Hw|exact A2|reflexivity].
      simpl. do 2 f_equal.
      destruct w as [|x w']; [now destruct Hw|].
      injection E as -> ->. simpl Nat.pred.
      rewrite skip_matched. apply After; [|exact A2].
      rewrite length_app in Hs. lia.
    + rewrite <- (Second None A). cbn [replace_from].
      now rewrite command_match_first, A.
Qed.

Lemma commands_letters command : In command commands -> letters command.
Proof.
  intros H. unfold commands in H. simpl in H.
  repeat (destruct H as [<-|H];
          [split; [discriminate | repeat constructor]|]).
  destruct H.
Qed.

(** One pass of the normalization is the position-by-position marking. *)
Lemma command_pass_marks command s :
  In command commands ->
  replaceAll (command_match command) s = markFrom command None s.
Proof.
  intros H. apply commands_letters in H.
  apply (command_pass_bounded command H (length s) s). lia.
Qed.

Lemma normalizeLatex_fold latex :
  normalizeLatex latex
  = fold_left (fun normalized command => markFrom command None normalized)
              commands latex.
Proof.
  unfold normalizeLatex.
  assert (G : forall l s, (forall c, In c l -> In c commands) ->
            fold_left (fun normalized command =>
                         replaceAll (command_match command) normalized) l s
            = fold_left (fun normalized command =>
                           markFrom command None normalized) l s).
  { induction l as [|c l IH]; intros s Hl; simpl; [reflexivity|].
    rewrite command_pass_marks by (apply Hl; now left).
    apply IH. intros c' Hc'. apply Hl. now right. }
  destruct latex as [|x latex]; simpl truthy; cbv iota.
  - clear. induction commands as [|c l IH]; simpl; [reflexivity | exact IH].
  - apply G. auto.
Qed.

(** X1: the whole normalization is the twelve markings, one command after
    the other, each on the result of the one before. *)
Theorem normalizeLatex_passes (latex : list N) :
  normalizeLatex latex
  = fold_left (fun normalized command => markFrom command None normalized)
              commands latex.
Proof. apply normalizeLatex_fold. Qed.

Lemma prefixBareOf_nil prev s : prefixBareOf [] prev s = s.
Proof.
  revert prev. induction s as [|c s IH]; intros prev; simpl; [reflexivity|].
  rewrite andb_false_r. simpl. now rewrite IH.
Qed.

Lemma identifierAt_app w t :
  Forall (fun c => isAsciiLetter c = true) w -> lookahead t = true ->
  identifierAt (w ++ t) = w.
Proof.
  induction 1 as [|x w Hx _ IH]; intros Ht; simpl.
  - destruct t as [|c t]; [reflexivity|]. simpl in *.
    destruct (isAsciiLetter c); [discriminate | reflexivity].
  - now rewrite Hx, IH.
Qed.

Lemma identifierAt_split s :
  exists t, s = identifierAt s ++ t /\ lookahead t = true.
Proof.
  induction s as [|c s (t & E & Ht)]; simpl.
  - exists []. split; reflexivity.
  - destruct (isAsciiLetter c) eqn:L.
    + exists t. split; [simpl; now f_equal | exact Ht].
    + exists (c :: s). split; [reflexivity|]. simpl. now rewrite L.
Qed.

(** A marked occurrence with no letter before it is a whole identifier, and
    an identifier that is the command is an occurrence that a non-letter
    follows. *)
Lemma marked_identifier w prev s :
  letters w -> marked w prev s = true -> identifierAt s = w.
Proof.
  intros [_ Hw] M. unfold marked in M.
  apply andb_prop in M as [M _]. apply andb_prop in M as [M1 M2].
  apply literal_prefix in M1 as [t ->]. rewrite drop_app_length in M2.
  now apply identifierAt_app.
Qed.

Lemma identifier_marked w prev s :
  identifierAt s = w -> bslashBefore prev = false -> marked w prev s = true.
Proof.
  intros <- Hb. destruct (identifierAt_split s) as (t & E & Ht).
  remember (identifierAt s) as w eqn:W. clear W. subst s.
  unfold marked. fold (bslashBefore prev).
  rewrite Hb, drop_app_length, Ht.
  rewrite (proj2 (literal_prefix _ _)); [reflexivity | eauto].
Qed.

Lemma letters_head w c s :
  letters w -> literal w (c :: s) = true -> isAsciiLetter c = true.
Proof.
  intros [Hne Hw] L. destruct w as [|x w]; [congruence|].
  simpl in L. apply andb_prop in L as [L _]. apply N.eqb_eq in L as ->.
  now inversion Hw.
Qed.

Lemma identifierAt_mark w t :
  forall p, isAsciiLetter p = true -> separated w (Some p) t = true ->
    identifierAt (markFrom w (Some p) t) = identifierAt t.
Proof.
  induction t as [|x t IH]; intros p Hp S; [reflexivity|].
  cbn [separated] in S. apply andb_prop in S as [S1 S2].
  cbn [letterBefore] in S1. rewrite Hp, andb_true_r in S1.
  apply negb_true_iff in S1. cbn [markFrom]. rewrite S1. simpl.
  destruct (isAsciiLetter x) eqn:L; [|reflexivity].
  f_equal. now apply IH.
Qed.

(** Marking one command and then prefixing the bare identifiers of the
    others is prefixing the bare identifiers of them all. *)
Lemma prefixBareOf_mark w cs (Hw : letters w) s :
  forall prev, separated w prev s = true ->
    prefixBareOf cs prev (markFrom w prev s) = prefixBareOf (w :: cs) prev s.
Proof.
  induction s as [|c s IH]; intros prev S; [reflexivity|].
  cbn [separated] in S. apply andb_prop in S as [S1 S2].
  apply negb_true_iff in S1. specialize (IH _ S2).
  cbn [markFrom]. destruct (marked w prev (c :: s)) eqn:M.
  - rewrite andb_true_l in S1.
    pose proof (marked_identifier _ _ _ Hw M) as I.
    assert (Lc : isAsciiLetter c = true).
    { unfold marked in M. apply andb_prop in M as [M _].
      apply andb_prop in M as [M _]. eapply letters_head; eauto. }
    assert (B : bslashBefore prev = false).
    { unfold marked in M. apply andb_prop in M as [_ M].
      now apply negb_true_iff in M. }
    cbn [app]. cbn [prefixBareOf]. 
    change (isAsciiLetter bslash) with false. cbn [andb app].
    change (bslashBefore (Some bslash)) with true.
    rewrite Lc. cbn [negb andb app]. rewrite andb_false_r. cbn [app].
    rewrite IH, S1, B, I. cbn [negb andb isOneOf existsb].
    rewrite bool_decide_eq_true_2 by reflexivity. reflexivity.
  - cbn [app prefixBareOf]. rewrite IH. f_equal.
    destruct (isAsciiLetter c) eqn:Lc; [|reflexivity].
    destruct (letterBefore prev) eqn:Lp; [reflexivity|].
    destruct (bslashBefore prev) eqn:B; [reflexivity|].
    cbn [negb andb]. 
    assert (I : identifierAt (c :: markFrom w (Some c) s)
                = identifierAt (c :: s)).
    { simpl. rewrite Lc. f_equal. now apply identifierAt_mark. }
    rewrite I. cbn [isOneOf existsb].
    rewrite bool_decide_eq_false_2; [reflexivity|].
    intros E. symmetry in E.
    rewrite (identifier_marked _ _ _ E B) in M. discriminate.
Qed.

(** Under the separation, marking leaves the occurrences of any word of
    letters where they were. *)
Lemma occurrence_mark w c :
  Forall (fun x => isAsciiLetter x = true) w ->
  forall t p, letterBefore p = true -> separated c p t = true ->
    literal w (markFrom c p t)
      && lookahead (skipn (length w) (markFrom c p t))
    = literal w t && lookahead (skipn (length w) t).
Proof.
  induction 1 as [|a w Ha _ IH]; intros t p Hp S.
  - simpl. destruct t as [|x t]; [reflexivity|].
    cbn [separated] in S. apply andb_prop in S as [S1 _].
    rewrite Hp, andb_true_r in S1. apply negb_true_iff in S1.
    cbn [markFrom]. rewrite S1. reflexivity.
  - destruct t as [|x t]; [reflexivity|].
    cbn [separated] in S. apply andb_prop in S as [S1 S2].
    rewrite Hp, andb_true_r in S1. apply negb_true_iff in S1.
    cbn [markFrom]. rewrite S1. cbn [app literal length skipn].
    destruct (N.eqb_spec x a) as [->|]; [|reflexivity].
    cbn [andb]. apply IH; [exact Ha | exact S2].
Qed.

Lemma separated_mark w c (Hw : letters w) (Hc : letters c) s :
  forall prev, separated c prev s = true -> separated w prev s = true ->
    separated w prev (markFrom c prev s) = true.
Proof.
  induction s as [|x s IH]; intros prev Sc Sw; [reflexivity|].
  pose proof Sc as Sc0. pose proof Sw as Sw0.
  cbn [separated] in Sc, Sw.
  apply andb_prop in Sc as [Sc1 Sc2]. apply andb_prop in Sw as [Sw1 Sw2].
  specialize (IH _ Sc2 Sw2). apply negb_true_iff in Sc1, Sw1.
  cbn [markFrom]. destruct (marked c prev (x :: s)) eqn:M.
  - cbn [app separated]. rewrite IH.
    assert (L1 : marked w prev (bslash :: x :: markFrom c (Some x) s) = false).
    { apply marked_literal.
      destruct (literal w (bslash :: x :: markFrom c (Some x) s)) eqn:L;
        [|reflexivity].
      now apply (letters_head _ _ _ Hw) in L. }
    rewrite L1. cbn [letterBefore].
    change (isAsciiLetter bslash) with false. now rewrite andb_false_r.
  - cbn [app separated]. rewrite IH, andb_true_r. apply negb_true_iff.
    destruct (letterBefore prev) eqn:Lp; [|apply andb_false_r].
    rewrite andb_true_r in Sw1 |- *.
    pose proof (occurrence_mark w c (proj2 Hw) (x :: s) prev Lp Sc0) as O.
    cbn [markFrom] in O. rewrite M in O. cbn [app] in O.
    unfold marked in Sw1 |- *. now rewrite O.
Qed.

Lemma passes_agree cs :
  Forall letters cs ->
  forall s,
    forallb (fun command => separated command None s) cs = true ->
    fold_left (fun normalized command => markFrom command None normalized)
              cs s
    = prefixBareOf cs None s.
Proof.
  induction 1 as [|c cs Hc Hcs IH]; intros s S; simpl.
  - now rewrite prefixBareOf_nil.
  - simpl in S. apply andb_prop in S as [S1 S2].
    rewrite <- (prefixBareOf_mark c cs Hc s None S1). apply IH.
    clear IH. induction Hcs as [|w l Hw _ IHl]; [reflexivity|].
    simpl in *. apply andb_prop in S2 as [S2 S3].
    rewrite (separated_mark w c Hw Hc s None S1 S2). now apply IHl.
Qed.

(** X6: on every string in which no command name ends a longer word, the
    normalization is what its description says: a backslash before each
    command name that stands as a bare identifier with no backslash before
    it, and nothing else. *)
Theorem normalize_agrees_when_separated (latex : list N) :
  wellSeparated latex = true ->
  normalizeLatex latex = prefixBareCommands latex.
Proof.
  intros S. rewrite normalizeLatex_fold. apply passes_agree; [|exact S].
  apply List.Forall_forall. apply commands_letters.
Qed.

Lemma normalize_agrees_when_separated_witness :
  wellSeparated (lit "int_0^1 sin x + \sqrt{2} cdot y") = true
  /\ normalizeLatex (lit "int_0^1 sin x + \sqrt{2} cdot y")
     = prefixBareCommands (lit "int_0^1 sin x + \sqrt{2} cdot y").
Proof.
  split; [reflexivity|].
  apply (normalize_agrees_when_separated
           (lit "int_0^1 sin x + \sqrt{2} cdot y")).
  reflexivity.
Defined.


(** C9, on the code: where a command name stands alone the pass does what its
    description says, and an escaped name is left as it is; but the regular
    expression only asks that no backslash precede the name, not that no
    letter does, so a name that ends a longer word or a longer command is
    prefixed too: [\oint] becomes [\o\int], [\otimes] becomes [\o\times],
    [point] becomes [po\int]. *)
Theorem normalize_prefixes_inside_longer_names :
  normalizeLatex (lit "int_0^1 sin x + \sqrt{2} cdot y")
  = lit "\int_0^1 \sin x + \sqrt{2} \cdot y"
  /\ prefixBareCommands (lit "int_0^1 sin x + \sqrt{2} cdot y")
     = lit "\int_0^1 \sin x + \sqrt{2} \cdot y"
  /\ normalizeLatex (lit "\oint_C f") = lit "\o\int_C f"
  /\ prefixBareCommands (lit "\oint_C f") = lit "\oint_C f"
  /\ wellSeparated (lit "\oint_C f") = false
  /\ normalizeLatex (lit "a \otimes b") = lit "a \o\times b"
  /\ prefixBareCommands (lit "a \otimes b") = lit "a \otimes b"
  /\ wellSeparated (lit "a \otimes b") = false
  /\ normalizeLatex (lit "a point") = lit "a po\int"
  /\ prefixBareCommands (lit "a point") = lit "a point"
  /\ wellSeparated (lit "a point") = false.
Proof. repeat split; reflexivity. Qed.

(** ** Further properties of the scenarios of the specification *)

(** X2: the loop of either extractor leaves because [exec] answered [null]:
    more turns than the length of the input change nothing. *)
Theorem extractor_loop_ends_on_null (input : list N) (more : nat) :
  extractLoop (length input + more) input 0 []
  = extractLoop (length input) input 0 []
  /\ App.extractLoop (length input + more) input 0 []
     = App.extractLoop (length input) input 0 []
  /\ star_exec input (snd (extractLoop (length input) input 0 [])) = None
  /\ star_exec input (snd (App.extractLoop (length input) input 0 [])) = None.
Proof.
  split; [apply extractLoop_fuel|]. split; [apply App_extractLoop_fuel|].
  rewrite extractLoop_scan, App_extractLoop_scan. simpl.
  split; apply scanLoop_stops; lia.
Qed.

(** ** Escaping the text of the exported document *)

Lemma class_replace_from class replacement s at0 :
  replace_from (class_match class replacement) at0 0 s
  = flat_map (fun c => if class c then replacement c else [c]) s.
Proof.
  revert at0. induction s as [|c s IH]; intros at0; simpl; [reflexivity|].
  destruct (class c); simpl; now rewrite IH.
Qed.

Lemma class_replaceAll class replacement s :
  replaceAll (class_match class replacement) s
  = flat_map (fun c => if class c then replacement c else [c]) s.
Proof. apply class_replace_from. Qed.

Lemma flat_map_flat_map {A B C} (f : A -> list B) (g : B -> list C) l :
  flat_map g (flat_map f l) = flat_map (fun a => flat_map g (f a)) l.
Proof.
  induction l as [|a l IH]; simpl; [reflexivity|].
  now rewrite flat_map_app, IH.
Qed.

Lemma escapeLatexText_flat text :
  escapeLatexText text = flat_map escapeCharacter text.
Proof.
  unfold escapeLatexText. cbv zeta. rewrite !class_replaceAll.
  rewrite !flat_map_flat_map. apply flat_map_ext. intros c.
  unfold escapeCharacter, isUnit.
  destruct (N.eqb_spec c bslash) as [->|H1]; [reflexivity|].
  destruct (N.eqb_spec c lbrace) as [->|H2]; [reflexivity|].
  destruct (N.eqb_spec c rbrace) as [->|H3]; [reflexivity|].
  destruct (N.eqb_spec c underscore) as [->|H4]; [reflexivity|].
  destruct (N.eqb_spec c caret) as [->|H5]; [reflexivity|].
  destruct (N.eqb_spec c tilde) as [->|H6]; [reflexivity|].
  destruct (N.eqb_spec c percent) as [->|H7]; [reflexivity|].
  destruct (N.eqb_spec c ampersand) as [->|H8]; [reflexivity|].
  destruct (N.eqb_spec c hash) as [->|H9]; [reflexivity|].
  repeat match goal with
         | H : c <> ?x |- _ => apply N.eqb_neq in H
         end.
  unfold bslash, lbrace, rbrace, underscore, caret, tilde, percent, ampersand,
    hash in *.
  do 7 (simpl; rewrite ?H1, ?H2, ?H3, ?H4, ?H5, ?H6, ?H7, ?H8, ?H9).
  reflexivity.
Qed.

(** X7: the seven chained passes of [escapeLatexText] amount to one pass
    that rewrites every code unit on its own: a brace, an underscore, a
    percent sign, an ampersand or a hash gets a backslash, a caret becomes
    [\^{}], a tilde [\textasciitilde{}], and every other code unit (a dollar
    sign too) is kept; a backslash becomes [\textbackslash\{\}], since the
    braces the first pass writes are escaped by the second.  So escaping
    distributes over concatenation. *)
Theorem escapeLatexText_by_character (text more : list N) :
  escapeLatexText text = flat_map escapeCharacter text
  /\ escapeLatexText (text ++ more)
     = escapeLatexText text ++ escapeLatexText more
  /\ escapeLatexText [bslash] = lit "\textbackslash\{\}".
Proof.
  split; [apply escapeLatexText_flat|]. split; [|reflexivity].
  rewrite !escapeLatexText_flat. apply flat_map_app.
Qed.

Lemma escapeCharacter_guarded c prev rest :
  bslashBefore prev = false ->
  (forall x, (x =? bslash)%N = false -> guarded (Some x) rest = true) ->
  guarded prev (escapeCharacter c ++ rest) = true.
Proof.
  intros Hp IH. unfold escapeCharacter, isUnit.
  destruct (N.eqb_spec c bslash) as [->|H1].
  { simpl. unfold guardedUnit at 1. simpl. rewrite Hp. now apply IH. }
  destruct (N.eqb_spec c lbrace) as [->|H2].
  { simpl. unfold guardedUnit at 1. simpl. rewrite Hp. now apply IH. }
  destruct (N.eqb_spec c rbrace) as [->|H3].
  { simpl. unfold guardedUnit at 1. simpl. rewrite Hp. now apply IH. }
  destruct (N.eqb_spec c underscore) as [->|H4].
  { simpl. unfold guardedUnit at 1. simpl. rewrite Hp. now apply IH. }
  destruct (N.eqb_spec c caret) as [->|H5].
  { simpl. unfold guardedUnit at 1. simpl. rewrite Hp. now apply IH. }
  destruct (N.eqb_spec c tilde) as [->|H6].
  { simpl. unfold guardedUnit at 1. simpl. rewrite Hp. now apply IH. }
  destruct (N.eqb_spec c percent) as [->|H7].
  { simpl. unfold guardedUnit at 1. simpl. rewrite Hp. now apply IH. }
  destruct (N.eqb_spec c ampersand) as [->|H8].
  { simpl. unfold guardedUnit at 1. simpl. rewrite Hp. now apply IH. }
  destruct (N.eqb_spec c hash) as [->|H9].
  { simpl. unfold guardedUnit at 1. simpl. rewrite Hp. now apply IH. }
  simpl. apply N.eqb_neq in H1, H4, H7, H8, H9.
  unfold guardedUnit, needsEscape, isUnit. rewrite H1, H4, H7, H8, H9. simpl.
  apply IH. exact H1.
Qed.

Lemma escape_guarded text prev :
  bslashBefore prev = false ->
  guarded prev (flat_map escapeCharacter text) = true.
Proof.
  revert prev. induction text as [|c text IH]; intros prev Hp; [reflexivity|].
  simpl. apply escapeCharacter_guarded; [exact Hp|].
  intros x Hx. apply IH. exact Hx.
Qed.

Lemma guarded_lookup s : forall prev p c,
  guarded prev s = true -> s !! p = Some c ->
  (needsEscape c = true ->
   match p with
   | O => bslashBefore prev = true
   | S q => s !! q = Some bslash
   end)
  /\ (c = bslash ->
      match p with
      | O => bslashBefore prev = false
      | S q => s !! q <> Some bslash
      end).
Proof.
  induction s as [|x s IH]; intros prev p c G L; [discriminate|].
  simpl in G. apply andb_prop in G as [G1 G2].
  destruct p as [|p].
  - injection L as ->. unfold guardedUnit in G1.
    apply andb_prop in G1 as [Ga Gb]. split.
    + intros E. now rewrite E in Ga.
    + intros ->. rewrite N.eqb_refl in Gb. now apply negb_true_iff in Gb.
  - simpl in L. destruct (IH _ _ _ G2 L) as [Ia Ib]. split.
    + intros E. specialize (Ia E). destruct p as [|p]; simpl in *.
      * destruct (N.eqb_spec x bslash) as [->|]; [reflexivity|discriminate].
      * exact Ia.
    + intros E. specialize (Ib E). destruct p as [|p]; simpl in *.
      * intros [= ->]. now rewrite N.eqb_refl in Ib.
      * exact Ib.
Qed.

(** X8: in the output of [escapeLatexText] a percent sign, an ampersand, a
    hash or an underscore never stands raw: each one comes right after a
    backslash, and that backslash does not itself come after a backslash. *)
Theorem escaped_text_has_no_raw_special (text : list N) (p : nat) (c : N) :
  escapeLatexText text !! p = Some c -> needsEscape c = true ->
  exists q, p = S q /\ escapeLatexText text !! q = Some bslash
            /\ forall r, q = S r -> escapeLatexText text !! r <> Some bslash.
Proof.
  intros L E.
  assert (G : guarded None (escapeLatexText text) = true).
  { rewrite escapeLatexText_flat. now apply escape_guarded. }
  destruct (guarded_lookup _ _ _ _ G L) as [Ha _]. specialize (Ha E).
  destruct p as [|q]; [discriminate|].
  exists q. split; [reflexivity|]. split; [exact Ha|].
  intros r ->. destruct (guarded_lookup _ _ _ _ G Ha) as [_ Hb].
  now apply Hb.
Qed.

Lemma escaped_text_has_no_raw_special_witness :
  exists q, 3 = S q
    /\ escapeLatexText (lit "50% of a_b") !! q = Some bslash
    /\ forall r, q = S r ->
         escapeLatexText (lit "50% of a_b") !! r <> Some bslash.
Proof.
  apply (escaped_text_has_no_raw_special (lit "50% of a_b") 3 percent);
    reflexivity.
Defined.

(** ** Runs of white space *)

Lemma trimStart_suffix s : exists a, s = a ++ trimStart s.
Proof.
  induction s as [|c s [a IH]]; simpl; [now exists []|].
  destruct (isTrimmed c); [|now exists []].
  exists (c :: a). simpl. now rewrite <- IH.
Qed.

Lemma trim_infix s : exists a b, s = a ++ trim s ++ b.
Proof.
  destruct (trimStart_suffix s) as [a Ha].
  destruct (trimStart_suffix (rev (trimStart s))) as [b Hb].
  exists a, (rev b). unfold trim, trimEnd.
  rewrite Ha at 1. f_equal.
  rewrite <- rev_app_distr, <- Hb, rev_involutive. reflexivity.
Qed.

Lemma trim_Forall (P : N -> Prop) s :
  List.Forall P s -> List.Forall P (trim s).
Proof.
  destruct (trim_infix s) as (a & b & E). intros H. rewrite E in H.
  apply List.Forall_app in H as [_ H]. now apply List.Forall_app in H as [H _].
Qed.

Lemma trim_length s : length (trim s) <= length s.
Proof.
  destruct (trim_infix s) as (a & b & E). rewrite E at 2.
  rewrite !length_app. lia.
Qed.

Lemma spaces_step replacement at0 c s :
  replace_from (spaces_match replacement) at0 0 (c :: s)
  = if isTrimmed c
    then replacement ++ replace_from (spaces_match replacement) false
                          (spaceRun s) s
    else c :: replace_from (spaces_match replacement) false 0 s.
Proof.
  simpl. unfold spaces_match at 1. simpl. now destruct (isTrimmed c).
Qed.

Lemma spaces_replace_Forall (P : N -> Prop) replacement s :
  List.Forall P replacement ->
  List.Forall (fun c => isTrimmed c = false -> P c) s ->
  forall at0 skip,
    List.Forall P (replace_from (spaces_match replacement) at0 skip s).
Proof.
  intros Hr. induction 1 as [|c s Hc Hs IH]; intros at0 skip;
    [destruct skip; constructor|].
  destruct skip as [|k]; [|apply IH].
  rewrite spaces_step. destruct (isTrimmed c) eqn:E.
  - apply List.Forall_app. split; [exact Hr | apply IH].
  - constructor; [now apply Hc | apply IH].
Qed.

Lemma spaces_replace_truthy replacement s :
  truthy replacement = true ->
  truthy (replaceAll (spaces_match replacement) s) = truthy s.
Proof.
  intros Hr. destruct s as [|c s]; [reflexivity|].
  unfold replaceAll. rewrite spaces_step. destruct (isTrimmed c).
  - destruct replacement; [discriminate | reflexivity].
  - reflexivity.
Qed.

Lemma underscored_spaceless s :
  spaceless (replaceAll (spaces_match [underscore]) s).
Proof.
  apply spaces_replace_Forall.
  - now constructor.
  - apply List.Forall_forall. intros c _ E. exact E.
Qed.

Lemma getPreviewFromContent_plain value :
  1 <= length (getPreviewFromContent value) <= 36
  /\ plainSpaced (getPreviewFromContent value).
Proof.
  unfold getPreviewFromContent. cbv zeta.
  set (condensed := trim _).
  assert (P : plainSpaced condensed).
  { apply trim_Forall. apply spaces_replace_Forall.
    - now constructor.
    - apply List.Forall_forall. intros c _ E1 E2. congruence. }
  destruct (truthy condensed) eqn:T; simpl.
  - destruct (36 <? length condensed) eqn:L.
    + apply Nat.ltb_lt in L. split.
      * rewrite length_app. unfold slice. rewrite firstn_length_le.
        -- simpl. lia.
        -- change (skipn 0 condensed) with condensed. lia.
      * apply List.Forall_app. split.
        -- unfold slice. change (skipn 0 condensed) with condensed.
           apply Forall_take. exact P.
        -- repeat constructor; discriminate.
    + apply Nat.ltb_ge in L. split; [|exact P].
      destruct condensed; [discriminate|]. simpl in *. lia.
  - split; [simpl; lia|]. repeat constructor; try discriminate.
Qed.

(** X9: the preview of an outline chip is never empty, has at most 36 code
    units, and is a single line: whatever white space the content holds (line
    breaks, tabs), the preview holds plain spaces only.  So the label of a
    chip, the name of its kind before the preview, has at most 45 code units
    and is a single line too. *)
Theorem preview_is_short_single_line (value : list N)
  (segment : RawSegment) :
  1 <= length (getPreviewFromContent value) <= 36
  /\ plainSpaced (getPreviewFromContent value)
  /\ length (outlineLabel (summarizeSegmentForOutline segment)) <= 45
  /\ plainSpaced (outlineLabel (summarizeSegmentForOutline segment)).
Proof.
  destruct (getPreviewFromContent_plain value) as [L P].
  split; [exact L|]. split; [exact P|].
  assert (K : forall kindName content,
            length kindName <= 9 -> plainSpaced kindName ->
            length (kindName ++ getPreviewFromContent content) <= 45
            /\ plainSpaced (kindName ++ getPreviewFromContent content)).
  { intros kindName content Hk Hp.
    destruct (getPreviewFromContent_plain content) as [L' P'].
    rewrite length_app. split; [lia|].
    apply List.Forall_app. now split. }
  unfold summarizeSegmentForOutline.
  destruct (rtype segment); cbv zeta.
  - apply K; [simpl; lia|]. repeat constructor; discriminate.
  - destruct (test _ (trim (rcontent segment))); [|destruct (test _ _)];
      (apply K; [simpl; lia|]; repeat constructor; discriminate).
Qed.

(** X10: the file name of the [Content-Disposition] header of an exported
    PDF holds no white space and no line break, and is never empty, whatever
    the [filename] of the request is (missing, not a string, blank); the
    name of the [.tex] download of the editor holds none either. *)
Theorem safeName_has_no_white_space (filename : JsValue)
  (docTitle : list N) :
  spaceless (safeName filename)
  /\ truthy (safeName filename) = true
  /\ spaceless (downloadName docTitle).
Proof.
  split; [apply underscored_spaceless|]. split.
  - unfold safeName. rewrite spaces_replace_truthy by reflexivity.
    destruct filename as [[| | |[|c s]| |]|]; simpl;
      rewrite ?andb_false_r; reflexivity.
  - unfold downloadName. apply List.Forall_app. split.
    + apply underscored_spaceless.
    + repeat constructor.
Qed.

(** ** The tail of the compiler's log *)

Lemma splitOn_cons sep s : exists part parts, splitOn sep s = part :: parts.
Proof.
  destruct s as [|c s]; simpl; [now eexists _, _|].
  destruct (c =? sep)%N; [now eexists _, _|].
  destruct (splitOn sep s); now eexists _, _.
Qed.

Lemma join_cons sep part parts :
  parts <> [] -> join sep (part :: parts) = part ++ sep ++ join sep parts.
Proof. destruct parts; [congruence | reflexivity]. Qed.

Lemma join_splitOn sep s : join [sep] (splitOn sep s) = s.
Proof.
  induction s as [|c s IH]; [reflexivity|]. simpl.
  destruct (N.eqb_spec c sep) as [->|Hc].
  - destruct (splitOn_cons sep s) as (part & parts & E).
    rewrite join_cons by (rewrite E; discriminate). now rewrite IH.
  - destruct (splitOn_cons sep s) as (part & parts & E). rewrite E in *.
    destruct parts as [|q parts]; simpl in *; now rewrite <- IH.
Qed.

Lemma splitOn_free sep s :
  List.Forall (fun part => countOf sep part = 0) (splitOn sep s).
Proof.
  induction s as [|c s IH]; simpl; [repeat constructor|].
  destruct (N.eqb_spec c sep) as [->|Hc].
  - constructor; [reflexivity | exact IH].
  - destruct (splitOn_cons sep s) as (part & parts & E). rewrite E in *.
    inversion IH as [|? ? H1 H2]; subst. constructor; [|exact H2].
    unfold countOf in *. simpl. apply N.eqb_neq in Hc. now rewrite Hc.
Qed.

Lemma countOf_app c a b : countOf c (a ++ b) = countOf c a + countOf c b.
Proof. unfold countOf. now rewrite List.filter_app, length_app. Qed.

Lemma countOf_join sep parts :
  List.Forall (fun part => countOf sep part = 0) parts ->
  countOf sep (join [sep] parts) = length parts - 1.
Proof.
  induction 1 as [|part parts H1 H2 IH]; [reflexivity|].
  destruct parts as [|q parts]; [simpl; rewrite H1; reflexivity|].
  rewrite join_cons by discriminate. rewrite !countOf_app, IH, H1.
  unfold countOf at 1. simpl. rewrite N.eqb_refl. simpl. lia.
Qed.

Lemma join_skipn_suffix sep parts k :
  exists before, join sep parts = before ++ join sep (skipn k parts).
Proof.
  revert parts. induction k as [|k IH]; intros parts; [now exists []|].
  destruct parts as [|part parts]; [now exists []|].
  simpl skipn. destruct (IH parts) as [before E].
  destruct parts as [|q parts].
  - exists part. rewrite skipn_nil. simpl. now rewrite app_nil_r.
  - rewrite join_cons by discriminate. rewrite E.
    exists (part ++ sep ++ before). now rewrite <- !app_assoc.
Qed.

Lemma join_split sep n parts :
  0 < n < length parts ->
  join sep parts = join sep (firstn n parts) ++ sep ++ join sep (skipn n parts).
Proof.
  revert parts. induction n as [|n IH]; intros parts H; [lia|].
  destruct parts as [|part parts]; [simpl in H; lia|].
  destruct parts as [|q parts]; [simpl in H; lia|].
  destruct n as [|n]; [reflexivity|].
  rewrite join_cons by discriminate.
  rewrite (IH (q :: parts)) by (simpl in *; lia).
  change (firstn (S (S n)) (part :: q :: parts))
    with (part :: firstn (S n) (q :: parts)).
  rewrite (join_cons _ part (firstn (S n) (q :: parts))) by discriminate.
  rewrite <- !app_assoc. reflexivity.
Qed.

Lemma readLogTail_suffix logContent :
  exists before, logContent = before ++ readLogTail (Some logContent).
Proof.
  unfold readLogTail, lastOnes.
  pose proof (join_splitOn newline logContent) as J.
  destruct (join_skipn_suffix [newline] (splitOn newline logContent)
              (length (splitOn newline logContent) - 25)) as [before E].
  exists before. now rewrite <- E.
Qed.

Lemma readLogTail_lines logFile :
  countOf newline (readLogTail logFile) <= 24.
Proof.
  destruct logFile as [logContent|]; [|simpl; unfold countOf; simpl; lia].
  unfold readLogTail, lastOnes. rewrite countOf_join.
  - rewrite length_skipn. lia.
  - apply Forall_drop. apply splitOn_free.
Qed.

(** X11: the tail that [readLogTail] cuts out of the compiler's log is a
    suffix of the log with at most 25 lines (24 line feeds), and it is the
    whole log when the log has no more lines than that. *)
Theorem log_tail_is_bounded_suffix (logContent : list N) :
  (exists before, logContent = before ++ readLogTail (Some logContent))
  /\ countOf newline (readLogTail (Some logContent)) <= 24
  /\ (countOf newline logContent <= 24 ->
      readLogTail (Some logContent) = logContent).
Proof.
  split; [apply readLogTail_suffix|]. split; [apply readLogTail_lines|].
  unfold readLogTail, lastOnes.
  pose proof (splitOn_free newline logContent) as F.
  pose proof (join_splitOn newline logContent) as J.
  set (parts := splitOn newline logContent) in *.
  intros H. rewrite <- J in H. rewrite countOf_join in H by exact F.
  replace (length parts - 25) with 0 by lia. exact J.
Qed.

(** ** The export route *)

Lemma orElse_nil a : orElse a [] = a.
Proof. now destruct a. Qed.

Lemma remote_trace host latex logTail :
  exists rest,
    snd (compileLatexRemotely host latex logTail) = PostRemote latex :: rest
    /\ (rest = [] \/ exists url, rest = [GetRemote url]).
Proof.
  unfold compileLatexRemotely. cbv zeta.
  destruct (remotePost host latex) as [data|message]; simpl;
    [|eexists; split; [reflexivity | now left]].
  destruct (_ || _ || _); simpl; [eexists; split; [reflexivity | now left]|].
  destruct (remoteGet host _); simpl;
    (eexists; split; [reflexivity | right; now eexists]).
Qed.

Lemma remote_outcome host latex logTail :
  match fst (compileLatexRemotely host latex logTail) with
  | inl compiled => from compiled = remote /\ log compiled = logTail
  | inr thrown =>
      exists message, thrownLog thrown = Some (orElse logTail message)
  end.
Proof.
  unfold compileLatexRemotely. cbv zeta.
  destruct (remotePost host latex) as [data|message]; simpl;
    [|exists message; now rewrite orElse_nil].
  destruct (_ || _ || _); simpl;
    [eexists; now rewrite orElse_nil|].
  destruct (remoteGet host _) as [pdf|message]; simpl;
    [now split | exists message; now rewrite orElse_nil].
Qed.

Lemma string_guard value :
  negb (truthyValue value) || negb (String.eqb (typeOf value) "string")
  = match value with
    | Some (JString (_ :: _)) => false
    | _ => true
    end.
Proof.
  destruct value as [[| | |[|c s]| |]|]; simpl; rewrite ?orb_true_r;
    reflexivity.
Qed.

Lemma export_cases host allow body :
  (stringBody "latex" body = None
   /\ postExportPdf host allow body
      = (ExportRejected 400 missingLatexError, []))
  \/ exists source,
       stringBody "latex" body = Some source
       /\ postExportPdf host allow body
          = match compileLatex host allow source with
            | (inl compiled, trace) =>
                if validHeaderValue (requestedDisposition body)
                then (ExportPdf (requestedDisposition body) (from compiled)
                        (buffer compiled), trace)
                else (ExportFailed 500 compilationFailedError [], trace)
            | (inr thrown, trace) =>
                (ExportFailed 500 compilationFailedError
                   (default [] (thrownLog thrown)), trace)
            end.
Proof.
  unfold postExportPdf, stringBody, requestedDisposition. cbv zeta.
  rewrite string_guard.
  destruct (property "latex" _) as [[| | |[|c s]| |]|]; cbv beta iota;
    try (left; split; reflexivity).
  right. eexists. split; [reflexivity|].
  destruct (compileLatex host allow (c :: s)) as [[compiled|thrown] trace];
    [reflexivity | now rewrite orElse_nil].
Qed.

Lemma compileLatex_finally host allow latex :
  exists run,
    compileLatex host allow latex = (fst run, snd run ++ [RemoveDir])
    /\ run
       = match mkdir host with
         | Failed _ => (inr (mkThrown None), [Mkdir])
         | Done _ =>
             match writeFile host with
             | Failed _ => (inr (mkThrown None), [Mkdir; WriteTex latex])
             | Done _ =>
                 match execFile host with
                 | Failed _ =>
                     if allow then
                       (fst (compileLatexRemotely host latex
                               (readLogTail (logFile host))),
                        [Mkdir; WriteTex latex; RunCompiler; ReadLog]
                          ++ snd (compileLatexRemotely host latex
                                    (readLogTail (logFile host))))
                     else (inr (mkThrown (Some (readLogTail (logFile host)))),
                           [Mkdir; WriteTex latex; RunCompiler; ReadLog])
                 | Done _ =>
                     match pdfFile host with
                     | Failed _ =>
                         (inr (mkThrown None),
                          [Mkdir; WriteTex latex; RunCompiler; ReadPdf])
                     | Done pdfBuffer =>
                         (inl (mkCompiled pdfBuffer local []),
                          [Mkdir; WriteTex latex; RunCompiler; ReadPdf])
                     end
                 end
             end
         end.
Proof.
  eexists. split; [|reflexivity]. unfold compileLatex. cbv zeta.
  now destruct (rm host).
Qed.

(** X12: an export that is rejected for its body (status 400) touches
    neither the file system nor the network; every other export starts by
    making its working directory and ends by removing it, once, after
    everything else, whether the PDF is answered or the compilation failed at
    any step. *)
Theorem export_always_removes_its_directory (host : Host) (allow : bool)
  (body : JsValue) :
  match fst (postExportPdf host allow body) with
  | ExportRejected _ _ => snd (postExportPdf host allow body) = []
  | _ =>
      exists middle,
        snd (postExportPdf host allow body) = Mkdir :: middle ++ [RemoveDir]
        /\ existsb isRemoveDir middle = false
  end.
Proof.
  destruct (export_cases host allow body) as [[_ ->]|(source & _ & ->)];
    [reflexivity|].
  assert (T : exists middle,
             snd (compileLatex host allow source)
             = Mkdir :: middle ++ [RemoveDir]
             /\ existsb isRemoveDir middle = false).
  { destruct (compileLatex_finally host allow source) as (run & -> & ->).
    cbn [snd].
    destruct (mkdir host); [|now exists []].
    destruct (writeFile host); [|now eexists [_]].
    destruct (execFile host).
    - destruct (pdfFile host); now eexists [_; _; _].
    - destruct allow; [|now eexists [_; _; _]].
      destruct (remote_trace host source (readLogTail (logFile host)))
        as (rest & E & [->|[url ->]]); cbn [snd]; rewrite E.
      + now eexists [_; _; _; _].
      + now eexists [_; _; _; _; _]. }
  destruct (compileLatex host allow source) as [[compiled|thrown] trace];
    [destruct (validHeaderValue _)|]; exact T.
Qed.

(** X13: the remote compiler is contacted only as a fallback: when an
    export makes a call to it, the remote compiler is allowed, the local
    compiler has run and failed, and the code posted is the [latex] of the
    request, nothing else.  So a local run that succeeds never leads to a
    remote call, even when its PDF cannot be read. *)
Theorem remote_compiler_only_after_local_failure (host : Host)
  (allow : bool) (body : JsValue) :
  existsb isRemoteEffect (snd (postExportPdf host allow body)) = true ->
  allow = true
  /\ (exists message, execFile host = Failed message)
  /\ exists source,
       stringBody "latex" body = Some source
       /\ In (PostRemote source) (snd (postExportPdf host allow body))
       /\ forall code,
            In (PostRemote code) (snd (postExportPdf host allow body)) ->
            code = source.
Proof.
  destruct (export_cases host allow body) as [[_ ->]|(source & B & ->)];
    [discriminate|].
  assert (T : existsb isRemoteEffect (snd (compileLatex host allow source))
              = true ->
              allow = true
              /\ (exists message, execFile host = Failed message)
              /\ In (PostRemote source) (snd (compileLatex host allow source))
              /\ forall code,
                   In (PostRemote code) (snd (compileLatex host allow source))
                   -> code = source).
  { destruct (compileLatex_finally host allow source) as (run & -> & ->).
    cbn [snd].
    destruct (mkdir host); [|discriminate].
    destruct (writeFile host); [|discriminate].
    destruct (execFile host) as [|message].
    - destruct (pdfFile host); discriminate.
    - destruct allow; [|discriminate]. intros _.
      split; [reflexivity|]. split; [now exists message|].
      destruct (remote_trace host source (readLogTail (logFile host)))
        as (rest & E & R). cbn [snd]. rewrite E. split.
      + simpl. tauto.
      + intros code. simpl. rewrite in_app_iff. simpl.
        intros [H|[H|[H|[H|[H|H]]]]]; try discriminate.
        * now injection H.
        * destruct H as [H|[H|[]]]; [|discriminate].
          destruct R as [->|[url ->]]; [destruct H|].
          destruct H as [H|[]]. discriminate. }
  destruct (compileLatex host allow source) as [[compiled|thrown] trace];
    [destruct (validHeaderValue _)|];
    simpl in *; intros H; destruct (T H) as (A1 & A2 & A3 & A4);
    (split; [exact A1|]; split; [exact A2|]; exists source; now repeat split).
Qed.

Lemma remote_compiler_only_after_local_failure_witness :
  let body := Some (JObject [(lit "latex", JString (lit "\foo"))]) in
  true = true
  /\ (exists message, execFile failingHost = Failed message)
  /\ exists source,
       stringBody "latex" body = Some source
       /\ In (PostRemote source) (snd (postExportPdf failingHost true body))
       /\ forall code,
            In (PostRemote code) (snd (postExportPdf failingHost true body)) ->
            code = source.
Proof.
  apply (remote_compiler_only_after_local_failure failingHost true
           (Some (JObject [(lit "latex", JString (lit "\foo"))]))).
  reflexivity.
Defined.

(** A file name that [setHeader] refuses loses the PDF of the remote
    compiler, and the local log with it. *)
Lemma refused_file_name_loses_log :
  fst (postExportPdf remoteHost true
         (Some (JObject [(lit "latex", JString (lit "\foo"));
                         (lit "filename", JString [233; 8364]%N)])))
  = ExportFailed 500 compilationFailedError [].
Proof. vm_compute. reflexivity. Qed.

(** X14: when the local compiler fails and leaves a log, the export answers
    in one of three ways.  It answers the PDF of the remote compiler, if
    that is allowed and [setHeader] accepts the disposition.  It answers
    status 500 with the tail of the local log as [log], of at most 25 lines;
    this is the only answer when the remote compiler is not allowed, and the
    message of a failed remote attempt never takes the place of the local
    log.  Or it answers status 500 with an empty [log], and that only when
    the remote compiler did give a PDF and [setHeader] refused the
    disposition built from the file name. *)
Theorem failed_export_carries_local_log (host : Host) (allow : bool)
  (body : JsValue) (source message : list N) :
  stringBody "latex" body = Some source ->
  mkdir host = Done tt -> writeFile host = Done tt ->
  execFile host = Failed message ->
  truthy (readLogTail (logFile host)) = true ->
  match fst (postExportPdf host allow body) with
  | ExportRejected _ _ => False
  | ExportFailed statusCode _ log =>
      statusCode = 500
      /\ (log = readLogTail (logFile host) /\ countOf newline log <= 24
          \/ log = [] /\ allow = true
             /\ validHeaderValue (requestedDisposition body) = false
             /\ exists compiled,
                  fst (compileLatexRemotely host source
                         (readLogTail (logFile host)))
                  = inl compiled)
  | ExportPdf disposition xCompiler _ =>
      xCompiler = remote /\ allow = true
      /\ disposition = requestedDisposition body
      /\ validHeaderValue disposition = true
  end.
Proof.
  intros B M W X L.
  destruct (export_cases host allow body) as [[B' _]|(source' & B' & ->)];
    [congruence|].
  assert (source' = source) as -> by congruence.
  destruct (compileLatex_finally host allow source) as (run & -> & ->).
  rewrite M, W, X. destruct allow; cbn [fst snd].
  - pose proof (remote_outcome host source (readLogTail (logFile host))) as R.
    destruct (fst (compileLatexRemotely host source _))
      as [compiled|thrown] eqn:E.
    + destruct R as [R _].
      destruct (validHeaderValue (requestedDisposition body)) eqn:V;
        cbn [fst].
      * now repeat split.
      * split; [reflexivity|]. right. repeat split; eauto.
    + destruct R as [m ->]. simpl. unfold orElse. rewrite L.
      split; [reflexivity|]. left. split; [reflexivity|].
      apply readLogTail_lines.
  - simpl. split; [reflexivity|]. left. split; [reflexivity|].
    apply readLogTail_lines.
Qed.

Lemma failed_export_carries_local_log_witness :
  match fst (postExportPdf failingHost true
               (Some (JObject [(lit "latex", JString (lit "\foo"))]))) with
  | ExportRejected _ _ => False
  | ExportFailed statusCode _ log =>
      statusCode = 500
      /\ (log = readLogTail (logFile failingHost)
          /\ countOf newline log <= 24
          \/ log = [] /\ true = true
             /\ validHeaderValue
                  (requestedDisposition
                     (Some (JObject [(lit "latex", JString (lit "\foo"))])))
                = false
             /\ exists compiled,
                  fst (compileLatexRemotely failingHost (lit "\foo")
                         (readLogTail (logFile failingHost)))
                  = inl compiled)
  | ExportPdf disposition xCompiler _ =>
      xCompiler = remote /\ true = true
      /\ disposition
         = requestedDisposition
             (Some (JObject [(lit "latex", JString (lit "\foo"))]))
      /\ validHeaderValue disposition = true
  end.
Proof.
  apply (failed_export_carries_local_log failingHost true
           (Some (JObject [(lit "latex", JString (lit "\foo"))]))
           (lit "\foo") (lit "exit code 1")); reflexivity.
Defined.

(** ** The toolbar *)

Lemma star_exec_first pre ins rest :
  ~ In star pre -> ~ In star ins ->
  star_exec (pre ++ star :: ins ++ star :: rest) 0
  = Some (length pre, ins, length pre + length ins + 2).
Proof.
  intros Hp Hi. unfold star_exec.
  change (skipn 0 (pre ++ star :: ins ++ star :: rest))
    with (pre ++ star :: ins ++ star :: rest).
  rewrite (indexOf_first _ _ _ Hp). cbv zeta.
  assert (E : skipn (0 + length pre + 1) (pre ++ star :: ins ++ star :: rest)
              = ins ++ star :: rest).
  { replace (pre ++ star :: ins ++ star :: rest)
      with ((pre ++ [star]) ++ ins ++ star :: rest)
      by (now rewrite <- app_assoc).
    apply drop_app_length'. rewrite length_app. simpl. lia. }
  rewrite E, (indexOf_first _ _ _ Hi), take_app_length. reflexivity.
Qed.

Lemma indexOf_absent c s : ~ In c s -> indexOf c s = None.
Proof.
  induction s as [|x s IH]; simpl; [reflexivity|]. intros H.
  destruct (N.eqb_spec x c) as [->|Hx]; [tauto|].
  rewrite IH; [reflexivity | tauto].
Qed.

Lemma scanSpans_one_pair pre ins rest :
  ~ In star pre -> ~ In star ins -> ~ In star rest ->
  scanSpans (pre ++ star :: ins ++ star :: rest)
  = (if 0 <? length pre then [Outside pre] else [])
      ++ Delimited ins
      :: (if 0 <? length rest then [Outside rest] else []).
Proof.
  intros Hp Hi Hr. unfold scanSpans.
  set (input := pre ++ star :: ins ++ star :: rest).
  assert (L : length input = S (S (length pre + length ins + length rest))).
  { unfold input. rewrite length_app. simpl. rewrite length_app. simpl. lia. }
  assert (D : skipn (length pre + length ins + 2) input = rest).
  { unfold input.
    replace (pre ++ star :: ins ++ star :: rest)
      with ((pre ++ [star] ++ ins ++ [star]) ++ rest)
      by (rewrite <- !app_assoc; reflexivity).
    apply drop_app_length'. rewrite !length_app. simpl. lia. }
  assert (N2 : star_exec input (length pre + length ins + 2) = None).
  { unfold star_exec. rewrite D. now rewrite (indexOf_absent _ _ Hr). }
  rewrite L. cbn [scanLoop]. unfold input at 1.
  rewrite (star_exec_first _ _ _ Hp Hi). fold input.
  rewrite N2. rewrite D.
  assert (S1 : slice input 0 (length pre) = pre).
  { unfold slice, input. change (skipn 0 ?l) with l.
    rewrite Nat.sub_0_r. apply take_app_length. }
  rewrite S1. rewrite <- app_assoc. simpl. f_equal. f_equal.
  destruct rest as [|r rest']; simpl.
  - replace (length pre + length ins + 2 <? S (S (length pre + length ins + 0)))
      with false; [reflexivity|].
    symmetry. apply Nat.ltb_ge. lia.
  - replace (length pre + length ins + 2
             <? S (S (length pre + length ins + S (length rest'))))
      with true; [reflexivity|].
    symmetry. apply Nat.ltb_lt. lia.
Qed.

(** A document with one delimiter pair and no other asterisk. *)
Lemma App_extract_one_pair pre ins rest :
  ~ In star pre -> ~ In star ins -> ~ In star rest ->
  nonblank ins = true ->
  App.extractSegments (pre ++ star :: ins ++ star :: rest)
  = spanRaw (Outside pre) ++ mkRaw Raw.math ins :: spanRaw (Outside rest).
Proof.
  intros Hp Hi Hr Hn. rewrite App_extractSegments_scan.
  rewrite (scanSpans_one_pair _ _ _ Hp Hi Hr). cbv zeta.
  rewrite flat_map_app. cbn [flat_map].
  assert (E1 : flat_map spanRaw (if 0 <? length pre then [Outside pre] else [])
               = spanRaw (Outside pre)).
  { destruct pre; simpl; [reflexivity | now rewrite app_nil_r]. }
  assert (E2 : flat_map spanRaw
                 (if 0 <? length rest then [Outside rest] else [])
               = spanRaw (Outside rest)).
  { destruct rest; simpl; [reflexivity | now rewrite app_nil_r]. }
  rewrite E1, E2.
  assert (E3 : spanRaw (Delimited ins) = [mkRaw Raw.math ins]).
  { simpl. now rewrite truthy_trim, Hn. }
  rewrite E3. generalize (spanRaw (Outside pre)).
  intros [|x l]; reflexivity.
Qed.

Lemma absent_infix (c : N) a s b : ~ In c (a ++ s ++ b) -> ~ In c s.
Proof. rewrite !in_app_iff. tauto. Qed.

Lemma trim_absent c s : ~ In c s -> ~ In c (trim s).
Proof.
  destruct (trim_infix s) as (a & b & E). rewrite E at 1. apply absent_infix.
Qed.

Lemma countStars_In s : countStars s = 0 -> ~ In star s.
Proof.
  induction s as [|x s IH]; [tauto|]. unfold countStars in *. simpl.
  destruct (N.eqb_spec x star) as [->|Hx]; [discriminate|].
  intros H [E|E]; [congruence | now apply IH].
Qed.

Lemma absent_take (c : N) n s : ~ In c s -> ~ In c (firstn n s).
Proof.
  intros H I. apply H. rewrite <- (firstn_skipn n s). apply in_or_app. now left.
Qed.

Lemma absent_drop (c : N) n s : ~ In c s -> ~ In c (skipn n s).
Proof.
  intros H I. apply H. rewrite <- (firstn_skipn n s). apply in_or_app.
  now right.
Qed.

Lemma toggle_label toggle :
  In toggle FORMAT_TOGGLES ->
  ~ In star (label toggle) /\ nonblank (label toggle) = true
  /\ trim (label toggle) = label toggle.
Proof.
  intros H.
  repeat (destruct H as [<-|H]; [vm_compute; intuition discriminate|]).
  destruct H.
Qed.

Lemma slice_0 s n : slice s 0 n = firstn n s.
Proof. unfold slice. now rewrite Nat.sub_0_r. Qed.

(** X15: a click on a button of the format bar, in a document that holds no
    asterisk yet, leaves a document that the editor's extractor reads as the
    prose before the selection, one instruction, and the prose after it: the
    instruction is the trimmed selection, or the label of the button when
    nothing (or only white space) is selected; the cursor goes right after
    the inserted line. *)
Theorem format_toggle_inserts_one_instruction (textarea : option Textarea)
  (input : list N) (toggle : FormatToggle) :
  let current := currentValueOf textarea input in
  let start := selectionStartOf textarea input in
  let end_ := selectionEndOf textarea input in
  let selected := slice current start end_ in
  let instruction :=
    if nonblank selected then trim selected else label toggle in
  countStars current = 0 -> In toggle FORMAT_TOGGLES ->
  start <= length current ->
  App.extractSegments (fst (handleFormatToggle textarea input toggle))
  = spanRaw (Outside (firstn start current))
      ++ mkRaw Raw.math instruction
      :: spanRaw (Outside (newline :: skipn end_ current))
  /\ snd (handleFormatToggle textarea input toggle)
     = start + length instruction + 3.
Proof.
  intros current start end_ selected instruction Hc Ht Hs.
  apply countStars_In in Hc.
  destruct (toggle_label _ Ht) as (L1 & L2 & L3).
  assert (Hi : ~ In star instruction /\ nonblank instruction = true).
  { unfold instruction. destruct (nonblank selected) eqn:E.
    - split; [|now rewrite nonblank_trim].
      apply trim_absent. unfold selected, slice.
      now apply absent_take, absent_drop.
    - now split. }
  destruct Hi as [Hi1 Hi2].
  assert (Hr : ~ In star (newline :: skipn end_ current)).
  { intros [H|H]; [discriminate|]. revert H. now apply absent_drop. }
  assert (V : handleFormatToggle textarea input toggle
              = (firstn start current ++ star :: instruction
                   ++ star :: newline :: skipn end_ current,
                 Nat.min (Nat.max (start + length (wrapInstruction instruction
                                                     ++ [newline])) 0)
                   (length (firstn start current ++ star :: instruction
                              ++ star :: newline :: skipn end_ current)))).
  { unfold handleFormatToggle, getSelectionSnapshot. cbv zeta.
    cbn [fst snd]. fold current start end_ selected.
    rewrite truthy_trim. unfold instruction.
    destruct (nonblank selected) eqn:E.
    - unfold replaceSelectionWith, mutateTextareaValue. cbv zeta.
      fold current. rewrite !slice_0. unfold wrapInstruction.
      rewrite trim_idem, <- !app_assoc. reflexivity.
    - unfold insertTextAtSelection, mutateTextareaValue. cbv zeta.
      fold current start.
      replace (match textarea with
               | Some area => selectionEnd area
               | None => start
               end) with end_ by (unfold end_, selectionEndOf, start;
                                    now destruct textarea).
      rewrite !slice_0. unfold wrapInstruction.
      rewrite L3, <- !app_assoc. reflexivity. }
  rewrite V. cbn [fst snd]. split.
  - apply App_extract_one_pair; try assumption. now apply absent_take.
  - unfold wrapInstruction. rewrite !length_app, firstn_length_le by exact Hs.
    simpl. rewrite !length_app. simpl.
    assert (T : trim instruction = instruction).
    { unfold instruction.
      destruct (nonblank selected); [apply trim_idem | exact L3]. }
    rewrite T. lia.
Qed.

Lemma format_toggle_inserts_one_instruction_witness :
  let textarea := Some (mkTextarea (lit "the slope is steep") 4 9) in
  let toggle := mkToggle "bold" (lit "B") in
  App.extractSegments (fst (handleFormatToggle textarea [] toggle))
  = spanRaw (Outside (firstn 4 (lit "the slope is steep")))
      ++ mkRaw Raw.math (lit "slope")
      :: spanRaw (Outside (newline :: skipn 9 (lit "the slope is steep")))
  /\ snd (handleFormatToggle textarea [] toggle) = 4 + 5 + 3.
Proof.
  apply (format_toggle_inserts_one_instruction
           (Some (mkTextarea (lit "the slope is steep") 4 9)) []
           (mkToggle "bold" (lit "B"))).
  - reflexivity.
  - now left.
  - vm_compute. lia.
Defined.



(** ** The states of a session *)

Section SessionProperties.

Variable extract : list N -> list RawSegment.

Lemma conversionEffect_message st input :
  let st1 := fst (conversionEffect extract st input) in
  errorMessage st1 = None /\ status st1 <> error.
Proof.
  unfold conversionEffect.
  destruct (negb (truthy (trim input))); [now split|].
  destruct (negb (existsb isMath (extract input))); [now split|].
  destruct (hydrate _ _ _) as [hydrated needs].
  destruct (negb needs); now split.
Qed.

Lemma cycle_message st input delivery :
  let st' := cycle extract st input delivery in
  (status st' = error /\ exists m, errorMessage st' = Some m)
  \/ (status st' <> error /\ errorMessage st' = None).
Proof.
  unfold cycle.
  destruct (conversionEffect_message st input) as [M S].
  destruct (conversionEffect extract st input) as [st1 [pending|]];
    simpl in *; [|now right].
  destruct delivery as [data|message|]; simpl.
  - right. now split.
  - left. split; [reflexivity | now eexists].
  - now right.
Qed.

Lemma reachable_message st :
  reachable extract st ->
  (status st = error /\ exists m, errorMessage st = Some m)
  \/ (status st <> error /\ errorMessage st = None).
Proof.
  induction 1 as [|st k service input R IH|st input message R IH
                  |st input R IH].
  - right. now split.
  - apply cycle_message.
  - apply cycle_message.
  - apply cycle_message.
Qed.

(** X17: in every state an editing session reaches, an error message is
    held exactly when the status is [error]; so the status pill follows the
    status alone (Ready when idle, Converting when loading, Error when the
    last request failed), and its test of the message never decides. *)
Theorem status_pill_follows_status (st : AppState) :
  reachable extract st ->
  StatusPill (status st) (errorMessage st)
  = match status st with
    | idle => ReadyPill
    | loading => ConvertingPill
    | error => ErrorPill (errorMessage st)
    end
  /\ (status st = error <-> exists m, errorMessage st = Some m).
Proof.
  intros R. destruct (reachable_message st R) as [[S [m M]]|[S M]].
  - rewrite S, M. split; [reflexivity|]. split; eauto.
  - rewrite M. split.
    + destruct (status st); reflexivity.
    + split; [congruence|]. intros [m E]. discriminate.
Qed.

Lemma hydrate_needs cache structured :
  snd (hydrate cache false structured) = false ->
  forall segment, In segment structured -> isMath segment = true ->
    exists cached, cache !! rcontent segment = Some cached /\ cached <> [].
Proof.
  induction structured as [|[[|] c] rest IH]; simpl; [tauto| |].
  - destruct (cache !! c) as [[|x v]|] eqn:E.
    + pose proof (hydrate_true cache rest) as T.
      destruct (hydrate cache true rest). simpl in *. congruence.
    + destruct (hydrate cache false rest) as [hydrated needs] eqn:Eh.
      simpl in *. intros -> segment [<-|Hin] Hm.
      * simpl. rewrite E. now eexists.
      * now apply IH.
    + pose proof (hydrate_true cache rest) as T.
      destruct (hydrate cache true rest). simpl in *. congruence.
  - destruct (hydrate cache false rest) as [hydrated needs] eqn:Eh.
    simpl in *. intros -> segment [<-|Hin] Hm; [discriminate|].
    now apply IH.
Qed.

(** X3: the effect posts nothing exactly when the document is blank or
    every instruction of it is cached with a LaTeX that is not empty (a
    document without instructions among them); and when it posts, it posts
    the whole document, cached instructions included, with the snapshot of all
    its instructions, and sets the status to loading. *)
Theorem effect_posts_exactly_for_uncached (st : AppState) (input : list N) :
  (snd (conversionEffect extract st input) = None <->
   nonblank input = false
   \/ forall segment, In segment (extract input) -> isMath segment = true ->
        exists cached, latexCache st !! rcontent segment = Some cached
                       /\ cached <> [])
  /\ (forall pending,
        snd (conversionEffect extract st input) = Some pending ->
        request pending = input
        /\ mathSnapshot pending
           = List.map rcontent (List.filter isMath (extract input))
        /\ status (fst (conversionEffect extract st input)) = loading).
Proof.
  unfold conversionEffect. rewrite truthy_trim.
  destruct (nonblank input) eqn:B; simpl.
  2:{ split; [|discriminate]. split; [now left | reflexivity]. }
  destruct (existsb isMath (extract input)) eqn:M; simpl.
  2:{ split; [|discriminate]. split; [|reflexivity]. intros _. right.
      intros segment Hin Hm. exfalso.
      assert (existsb isMath (extract input) = true)
        by (apply existsb_exists; eauto).
      congruence. }
  pose proof (hydrate_needs (latexCache st) (extract input)) as Hn.
  pose proof (hydrate_hits (latexCache st) (extract input)) as Hh.
  destruct (hydrate (latexCache st) false (extract input))
    as [hydrated needs]. simpl in *.
  destruct needs; simpl.
  - split.
    + split; [discriminate|]. intros [H|H]; [discriminate|].
      specialize (Hh H). discriminate.
    + intros pending [= <-]. now repeat split.
  - split; [|discriminate]. split; [|reflexivity]. intros _. right.
    now apply Hn.
Qed.

End SessionProperties.

Lemma status_pill_follows_status_witness :
  let st := cycle App.extractSegments initialState (lit "*a*")
              (Rejected None) in
  StatusPill (status st) (errorMessage st)
  = match status st with
    | idle => ReadyPill
    | loading => ConvertingPill
    | error => ErrorPill (errorMessage st)
    end
  /\ (status st = error <-> exists m, errorMessage st = Some m).
Proof.
  apply (status_pill_follows_status App.extractSegments
           (cycle App.extractSegments initialState (lit "*a*")
              (Rejected None))).
  apply reach_rejected, reach_initial.
Defined.

(** ** The batch sent to the service *)

(** X4: a request to convert makes the service be asked at most once: not
    at all without a key or without an instruction, and otherwise once, with
    the texts of all the instruction segments of the document in their order
    (identical instructions are not merged), each of them trimmed and not
    blank. *)
Theorem service_asked_once_with_every_instruction (hasOpenAIKey : bool)
  (service : Service) (input : list N) :
  let instructions :=
    List.map rcontent (List.filter isMath (extractSegments input)) in
  snd (convertMathToLatex hasOpenAIKey service input)
  = (if hasOpenAIKey && negb (length instructions =? 0)
     then [CallService instructions] else [])
  /\ List.Forall (fun instruction => nonblank instruction = true
                                    /\ trim instruction = instruction)
       instructions.
Proof.
  cbv zeta. split.
  - unfold convertMathToLatex.
    destruct (List.filter isMath (extractSegments input)) as [|m l] eqn:E.
    + simpl. now rewrite andb_false_r.
    + destruct hasOpenAIKey; simpl.
      * destruct (service _) as [|[|item items]]; reflexivity.
      * reflexivity.
  - apply List.Forall_forall. intros instruction Hin.
    apply in_map_iff in Hin as (segment & <- & Hin).
    apply filter_In in Hin as [Hin _].
    pose proof (extractSegments_wellFormed input) as W.
    rewrite List.Forall_forall in W. exact (W _ Hin).
Qed.

(** ** The exported document of a prose draft *)

Lemma App_no_pair_whole value :
  countStars value < 2 -> nonblank value = true ->
  App.extractSegments value = [mkRaw Raw.text value].
Proof.
  intros H B. apply no_pair_no_match in H. unfold App.extractSegments.
  assert (L : App.extractLoop (length value) value 0 [] = ([], 0)).
  { destruct value as [|c value]; [reflexivity|]. simpl length.
    cbn [App.extractLoop]. now rewrite H. }
  rewrite L. change (skipn 0 value) with value. unfold push.
  destruct value as [|c value]; [discriminate|].
  change (0 <? length (c :: value)) with true. cbv iota.
  now rewrite truthy_trim, B.
Qed.

Lemma escapeCharacter_truthy c : truthy (escapeCharacter c) = true.
Proof.
  unfold escapeCharacter.
  repeat match goal with
         | |- context [if ?b then _ else _] => destruct b
         end; reflexivity.
Qed.

Lemma escapeLatexText_truthy s : truthy (escapeLatexText s) = truthy s.
Proof.
  rewrite escapeLatexText_flat. destruct s as [|c s]; [reflexivity|].
  simpl. pose proof (escapeCharacter_truthy c) as T.
  now destruct (escapeCharacter c).
Qed.

(** X18: a draft without a delimiter pair that is not blank is displayed
    as one text segment holding the draft as typed, and the document built
    from it has, between [\maketitle] and [\end{document}], that text escaped
    code unit by code unit and followed by a line feed. *)
Theorem prose_exports_as_escaped_text (st : AppState)
  (title input : list N) :
  countStars input < 2 -> nonblank input = true ->
  let st1 := fst (conversionEffect App.extractSegments st input) in
  segments st1 = [mkSeg text input]
  /\ exists preamble,
       buildLatexDocument title (segments st1)
       = preamble ++ lit "\maketitle" ++ [newline; newline]
           ++ flat_map escapeCharacter input ++ [newline]
           ++ [newline; newline] ++ lit "\end{document}".
Proof.
  intros H B. cbv zeta.
  assert (E : segments (fst (conversionEffect App.extractSegments st input))
              = [mkSeg text input]).
  { unfold conversionEffect. rewrite truthy_trim, B.
    rewrite (App_no_pair_whole _ H B). reflexivity. }
  rewrite E. split; [reflexivity|].
  assert (D : documentBody [mkSeg text input]
              = flat_map escapeCharacter input ++ [newline]).
  { unfold documentBody. simpl. unfold escapeLatexParagraph.
    rewrite escapeLatexText_truthy, (nonblank_truthy _ B).
    now rewrite escapeLatexText_flat. }
  unfold buildLatexDocument. rewrite D. cbv zeta.
  match goal with
  | |- exists _, join ?sep ?lines = _ =>
      exists (join sep (firstn 12 lines) ++ sep);
      rewrite (join_split sep 12 lines) by (simpl; lia)
  end.
  cbn [firstn skipn]. rewrite <- app_assoc.
  rewrite !(join_cons _ _ (_ :: _)) by discriminate. cbn [join].
  rewrite <- !app_assoc. reflexivity.
Qed.

Lemma prose_exports_as_escaped_text_witness :
  let st1 := fst (conversionEffect App.extractSegments initialState
                    (lit "50% of a_b")) in
  segments st1 = [mkSeg text (lit "50% of a_b")]
  /\ exists preamble,
       buildLatexDocument (lit "Notes") (segments st1)
       = preamble ++ lit "\maketitle" ++ [newline; newline]
           ++ flat_map escapeCharacter (lit "50% of a_b") ++ [newline]
           ++ [newline; newline] ++ lit "\end{document}".
Proof.
  apply (prose_exports_as_escaped_text initialState (lit "Notes")
           (lit "50% of a_b")).
  - vm_compute. lia.
  - reflexivity.
Defined.

(** ** The answer of the service *)

Lemma literal_ci_app pat s r t :
  literal_ci pat s = Some r -> literal_ci pat (s ++ t) = Some (r ++ t).
Proof.
  revert s. induction pat as [|p pat IH]; intros s; simpl.
  - now intros [= ->].
  - destruct s as [|c s]; [discriminate|]. simpl.
    destruct (canonicalize c =? canonicalize p)%N; [apply IH | discriminate].
Qed.

Lemma literal_ci_none pat s t :
  literal_ci pat s = None ->
  (forall c p, In c t -> In p pat -> canonicalize c <> canonicalize p) ->
  literal_ci pat (s ++ t) = None.
Proof.
  revert s. induction pat as [|p pat IH]; intros s; simpl; [discriminate|].
  intros H D. destruct s as [|c s]; simpl.
  - destruct t as [|c t]; [reflexivity|].
    destruct (N.eqb_spec (canonicalize c) (canonicalize p)) as [E|E];
      [|reflexivity].
    exfalso. apply (D c p); [now left | now left | exact E].
  - destruct (canonicalize c =? canonicalize p)%N; [|reflexivity].
    apply IH; [exact H|]. intros c' p' Hc Hp. apply D; [exact Hc | now right].
Qed.

Lemma stripClosingFence_fence body :
  stripClosingFence (body ++ lit "```") = body.
Proof.
  unfold stripClosingFence. rewrite length_app. cbv zeta.
  change (length (lit "```")) with 3.
  replace (length body + 3 - 3) with (length body) by lia.
  rewrite drop_app_length, take_app_length.
  replace (3 <=? length body + 3) with true
    by (symmetry; apply Nat.leb_le; lia).
  reflexivity.
Qed.

(** X19: an answer of the service that is fenced as a code block is
    unwrapped: for every body, three backticks, the tag [json] in any case
    (or no tag, when the body does not itself start with [json]), the body and
    three backticks give the trimmed body. *)
Theorem fenced_answer_is_unwrapped (tag body : list N) :
  literal_ci (lit "json") tag = Some []
  \/ (tag = [] /\ literal_ci (lit "json") body = None) ->
  stripCodeFences (lit "```" ++ tag ++ body ++ lit "```") = trim body.
Proof.
  intros H. unfold stripCodeFences. f_equal.
  assert (E : stripOpeningFence (lit "```" ++ tag ++ body ++ lit "```")
              = body ++ lit "```").
  { unfold stripOpeningFence.
    change (literal_ci (lit "```") (lit "```" ++ tag ++ body ++ lit "```"))
      with (Some (tag ++ body ++ lit "```")).
    destruct H as [H|[-> H]].
    - rewrite (literal_ci_app _ _ _ (body ++ lit "```") H). reflexivity.
    - simpl app. rewrite literal_ci_none; [reflexivity | exact H|].
      intros c p Hc Hp.
      repeat (destruct Hc as [<-|Hc]; [
        repeat (destruct Hp as [<-|Hp]; [discriminate|]); destruct Hp|]).
      destruct Hc. }
  rewrite E. apply stripClosingFence_fence.
Qed.

Lemma fenced_answer_is_unwrapped_witness :
  stripCodeFences (lit "```" ++ lit "JSON" ++ (newline :: lit "[1, 2]")
                     ++ lit "```")
  = trim (newline :: lit "[1, 2]").
Proof.
  apply (fenced_answer_is_unwrapped (lit "JSON") (newline :: lit "[1, 2]")).
  left. reflexivity.
Defined.

Lemma lastIndexOf_last c a b :
  ~ In c b -> lastIndexOf c (a ++ c :: b) = Some (length a).
Proof.
  intros Hb.
  assert (B : lastIndexOf c b = None).
  { induction b as [|x b IH]; [reflexivity|]. simpl.
    rewrite IH by (intros I; apply Hb; now right).
    destruct (N.eqb_spec x c) as [->|]; [|reflexivity].
    exfalso. apply Hb. now left. }
  induction a as [|x a IH]; simpl.
  - now rewrite B, N.eqb_refl.
  - now rewrite IH.
Qed.

Lemma bracketed_wrap pre inner post :
  ~ In lbracket pre -> ~ In rbracket post ->
  bracketed (pre ++ lbracket :: inner ++ rbracket :: post) = Some inner.
Proof.
  intros Hp Hq. unfold bracketed. rewrite (indexOf_first _ _ _ Hp). cbv zeta.
  assert (E : skipn (length pre + 1)
                (pre ++ lbracket :: inner ++ rbracket :: post)
              = inner ++ rbracket :: post).
  { replace (pre ++ lbracket :: inner ++ rbracket :: post)
      with ((pre ++ [lbracket]) ++ inner ++ rbracket :: post)
      by (now rewrite <- app_assoc).
    apply drop_app_length'. rewrite length_app. simpl. lia. }
  rewrite E, (lastIndexOf_last _ _ _ Hq), take_app_length. reflexivity.
Qed.

Lemma splitBy_cons separator skip s :
  exists part parts, splitBy separator skip s = part :: parts.
Proof.
  revert skip. induction s as [|c s IH]; intros skip; simpl;
    [now eexists _, _|].
  destruct skip as [|k]; [|apply IH].
  destruct (separator (c :: s)); [now eexists _, _|].
  destruct (IH 0) as (part & parts & ->). now eexists _, _.
Qed.

Lemma splitBy_skip separator a y :
  splitBy separator (length a) (a ++ y) = splitBy separator 0 y.
Proof.
  induction a as [|c a IH]; [reflexivity|]. simpl. exact IH.
Qed.

Lemma splitBy_unbroken u y :
  unbroken u y ->
  splitBy separator_match 0 (u ++ y)
  = match splitBy separator_match 0 y with
    | part :: parts => (u ++ part) :: parts
    | [] => [u]
    end.
Proof.
  induction u as [|c u IH]; intros H.
  - simpl. now destruct (splitBy_cons separator_match 0 y) as (p & ps & ->).
  - simpl app. cbn [splitBy].
    rewrite (H [] c u eq_refl).
    rewrite IH.
    + now destruct (splitBy_cons separator_match 0 y) as (p & ps & ->).
    + intros a c' b E. apply (H (c :: a) c' b). simpl. now rewrite E.
Qed.

Lemma separator_needs_quote c s :
  c <> dquoteUnit -> separator_match (c :: s) = None.
Proof.
  intros H. unfold separator_match. destruct s as [|x s]; [reflexivity|].
  apply N.eqb_neq in H. now rewrite H.
Qed.

Lemma unbroken_plain item y :
  ~ In dquoteUnit item -> unbroken item y.
Proof.
  intros H a c b E. apply separator_needs_quote. intros ->. apply H.
  rewrite E. apply in_or_app. right. now left.
Qed.

Lemma separator_needs_comma c x s :
  x <> comma -> separator_match (c :: x :: s) = None.
Proof.
  intros H. unfold separator_match. apply N.eqb_neq in H. rewrite H.
  now rewrite andb_false_r.
Qed.

Lemma spaceRun_app ws s :
  List.Forall (fun c => isTrimmed c = true) ws ->
  spaceRun (ws ++ dquoteUnit :: s) = length ws.
Proof.
  induction 1 as [|c ws Hc _ IH]; [reflexivity|]. simpl. now rewrite Hc, IH.
Qed.

Lemma splitBy_separator ws y :
  List.Forall (fun c => isTrimmed c = true) ws ->
  splitBy separator_match 0 ((dquoteUnit :: comma :: ws ++ [dquoteUnit]) ++ y)
  = [] :: splitBy separator_match 0 y.
Proof.
  intros H. simpl app. cbn [splitBy].
  assert (E : separator_match
                (dquoteUnit :: comma :: (ws ++ [dquoteUnit]) ++ y)
              = Some (length ws + 3)).
  { unfold separator_match. rewrite !N.eqb_refl. simpl andb. cbv iota.
    rewrite <- app_assoc. simpl app. rewrite (spaceRun_app _ _ H).
    rewrite drop_app_length. now rewrite N.eqb_refl. }
  rewrite E. f_equal.
  replace (Nat.pred (length ws + 3))
    with (length (comma :: ws ++ [dquoteUnit]))
    by (simpl; rewrite length_app; simpl; lia).
  change (comma :: (ws ++ [dquoteUnit]) ++ y)
    with ((comma :: ws ++ [dquoteUnit]) ++ y).
  apply splitBy_skip.
Qed.

Lemma quotes_step at0 c s :
  replace_from quotes_match at0 0 (c :: s)
  = if (c =? dquoteUnit)%N
    then if at0 || (quoteRun s =? length s)
         then replace_from quotes_match false (quoteRun s) s
         else c :: replace_from quotes_match false 0 s
    else c :: replace_from quotes_match false 0 s.
Proof.
  cbn [replace_from]. unfold quotes_match at 1. cbn [quoteRun length].
  destruct (c =? dquoteUnit)%N; [|reflexivity].
  change (S (quoteRun s) =? S (length s)) with (quoteRun s =? length s).
  now destruct (at0 || (quoteRun s =? length s)).
Qed.

Lemma quotes_plain item at0 :
  ~ In dquoteUnit item -> replace_from quotes_match at0 0 item = item.
Proof.
  revert at0. induction item as [|c item IH]; intros at0 H; [reflexivity|].
  rewrite quotes_step.
  destruct (N.eqb_spec c dquoteUnit) as [->|Hc]; [exfalso; apply H; now left|].
  rewrite IH; [reflexivity|]. intros I. apply H. now right.
Qed.

Lemma quotes_trailing item at0 :
  ~ In dquoteUnit item ->
  replace_from quotes_match at0 0 (item ++ [dquoteUnit]) = item.
Proof.
  revert at0. induction item as [|c item IH]; intros at0 H.
  - simpl app. rewrite quotes_step. rewrite N.eqb_refl. simpl.
    now rewrite orb_true_r.
  - simpl app. rewrite quotes_step.
    destruct (N.eqb_spec c dquoteUnit) as [->|Hc];
      [exfalso; apply H; now left|].
    rewrite IH; [reflexivity|]. intros I. apply H. now right.
Qed.

Lemma quoteRun_plain item s :
  ~ In dquoteUnit item -> item <> [] -> quoteRun (item ++ s) = 0.
Proof.
  destruct item as [|c item]; [congruence|]. intros H _. simpl.
  destruct (N.eqb_spec c dquoteUnit) as [->|Hc]; [|reflexivity].
  exfalso. apply H. now left.
Qed.

Lemma quotes_leading item tail :
  ~ In dquoteUnit item ->
  tail = [] \/ tail = [dquoteUnit] ->
  replaceAll quotes_match (dquoteUnit :: item ++ tail) = item.
Proof.
  intros H T. unfold replaceAll. rewrite quotes_step, N.eqb_refl.
  cbn [orb]. destruct item as [|c item].
  - destruct T as [->| ->]; reflexivity.
  - rewrite (quoteRun_plain (c :: item) tail H) by discriminate.
    destruct T as [->| ->].
    + rewrite app_nil_r. now apply quotes_plain.
    + now apply quotes_trailing.
Qed.

Lemma splitBy_plain_end item :
  ~ In dquoteUnit item ->
  splitBy separator_match 0 (item ++ [dquoteUnit]) = [item ++ [dquoteUnit]].
Proof.
  induction item as [|c item IH]; intros H; [reflexivity|].
  simpl app. cbn [splitBy]. rewrite separator_needs_quote.
  - rewrite IH; [reflexivity|]. intros I. apply H. now right.
  - intros ->. apply H. now left.
Qed.

Lemma split_rest ws items :
  List.Forall (fun c => isTrimmed c = true) ws ->
  items <> [] ->
  List.Forall (fun item => ~ In dquoteUnit item) items ->
  splitBy separator_match 0
    (join (dquoteUnit :: comma :: ws ++ [dquoteUnit]) items ++ [dquoteUnit])
  = closeLast items.
Proof.
  intros Hw. induction items as [|item items IH]; [congruence|].
  intros _ H. inversion H as [|? ? Hi Hr]; subst.
  destruct items as [|next items].
  - simpl join. now apply splitBy_plain_end.
  - rewrite join_cons by discriminate. rewrite <- !app_assoc.
    rewrite (splitBy_unbroken item) by now apply unbroken_plain.
    change ((dquoteUnit :: comma :: ws ++ [dquoteUnit])
              ++ join (dquoteUnit :: comma :: ws ++ [dquoteUnit])
                   (next :: items) ++ [dquoteUnit])
      with ((dquoteUnit :: comma :: ws ++ [dquoteUnit])
              ++ (join (dquoteUnit :: comma :: ws ++ [dquoteUnit])
                    (next :: items) ++ [dquoteUnit])).
    rewrite (splitBy_separator _ _ Hw). rewrite app_nil_r.
    rewrite IH by (try discriminate; exact Hr). reflexivity.
Qed.

Lemma encoded_head ws items :
  items <> [] ->
  (forall item, In item items -> head item <> Some comma) ->
  head (join (dquoteUnit :: comma :: ws ++ [dquoteUnit]) items
          ++ [dquoteUnit]) <> Some comma.
Proof.
  intros Hn H. destruct items as [|item more]; [congruence|].
  specialize (H item ltac:(now left)).
  destruct more as [|next more].
  - simpl join. destruct item; [discriminate | exact H].
  - rewrite join_cons by discriminate.
    destruct item; [discriminate | exact H].
Qed.

Lemma splitBy_encoded ws items :
  List.Forall (fun c => isTrimmed c = true) ws ->
  items <> [] ->
  List.Forall plainItem items ->
  splitBy separator_match 0 (encodeItems ws items)
  = openFirst (closeLast items).
Proof.
  intros Hw Hn H. unfold encodeItems.
  assert (Hq : List.Forall (fun item => ~ In dquoteUnit item) items).
  { eapply List.Forall_impl; [|exact H]. now intros item [I _]. }
  pose proof (split_rest ws items Hw Hn Hq) as S.
  pose proof (encoded_head ws items Hn) as Hh.
  assert (Hc : head (join (dquoteUnit :: comma :: ws ++ [dquoteUnit]) items
                       ++ [dquoteUnit]) <> Some comma).
  { apply Hh. intros item Hin. rewrite List.Forall_forall in H.
    now destruct (H item Hin). }
  cbn [splitBy].
  destruct (join (dquoteUnit :: comma :: ws ++ [dquoteUnit]) items
              ++ [dquoteUnit]) as [|x rest] eqn:E.
  - destruct (join _ items); discriminate.
  - rewrite separator_needs_comma by (intros ->; now apply Hc).
    rewrite S. destruct items as [|item more]; [congruence|].
    now destruct more.
Qed.

Lemma strip_parts items :
  items <> [] ->
  List.Forall (fun item => ~ In dquoteUnit item) items ->
  List.map strip (openFirst (closeLast items))
  = List.map (fun item => JString (trim item)) items.
Proof.
  intros Hn H. destruct items as [|item more]; [congruence|].
  inversion H as [|? ? Hi Hr]; subst.
  destruct more as [|next more].
  - simpl. unfold strip. now rewrite (quotes_leading item [dquoteUnit] Hi)
      by now right.
  - assert (R : forall l, l <> [] ->
                  List.Forall (fun item => ~ In dquoteUnit item) l ->
                  List.map strip (closeLast l)
                  = List.map (fun item => JString (trim item)) l).
    { induction l as [|x l IH]; [congruence|]. intros _ Hl.
      inversion Hl as [|? ? Hx Hl']; subst. destruct l as [|y l].
      - simpl. unfold strip, replaceAll. now rewrite (quotes_trailing _ _ Hx).
      - change (closeLast (x :: y :: l)) with (x :: closeLast (y :: l)).
        cbn [List.map]. rewrite IH by (try discriminate; exact Hl').
        f_equal. unfold strip, replaceAll. now rewrite (quotes_plain _ _ Hx). }
    change (closeLast (item :: next :: more))
      with (item :: closeLast (next :: more)).
    cbn [openFirst List.map]. rewrite R by (try discriminate; exact Hr).
    f_equal. unfold strip.
    rewrite <- (app_nil_r item) at 1.
    now rewrite (quotes_leading item [] Hi) by now left.
Qed.

Section RecoveredArray.

Variable repairAndParse : list N -> option Json.

(** X20: when the answer of the service cannot be repaired and parsed as
    JSON, but holds an opening bracket with a closing bracket after it, the
    fallback of [extractArrayFromResponse] yields a list that is never
    empty, so [convertWithOpenAI] returns trimmed strings and does not throw;
    and it reads a flat list of quoted items back: the items, trimmed, in
    their order, provided no item holds a double quote or starts with a
    comma. *)
Theorem unparsable_answer_is_recovered (raw : list N) :
  repairAndParse (stripCodeFences raw) = None ->
  (forall group,
     bracketed (stripCodeFences raw) = Some group ->
     forall service instructions,
       service instructions = Parsed (extractArrayFromRaw repairAndParse raw)
       -> instructions <> [] ->
       exists latexList,
         fst (convertWithOpenAI service instructions) = Returns latexList
         /\ List.Forall (fun l => trim l = l) latexList)
  /\ (forall ws items before after,
        stripCodeFences raw
        = before ++ lbracket :: encodeItems ws items ++ rbracket :: after ->
        ~ In lbracket before -> ~ In rbracket after ->
        List.Forall (fun c => isTrimmed c = true) ws ->
        items <> [] -> List.Forall plainItem items ->
        extractArrayFromRaw repairAndParse raw
        = List.map (fun item => JString (trim item)) items).
Proof.
  intros R. unfold extractArrayFromRaw. cbv zeta. rewrite R. split.
  - intros group B service instructions S Hn. unfold recoverArray in S.
    rewrite B in S. unfold convertWithOpenAI.
    destruct instructions as [|i l]; [congruence|]. rewrite S.
    destruct (splitBy_cons separator_match 0 group) as (part & parts & ->).
    cbn [List.map]. eexists. split; [reflexivity|].
    apply List.Forall_forall. intros l' Hin.
    change (JString (trim (replaceAll quotes_match part))
              :: List.map (fun item =>
                             JString (trim (replaceAll quotes_match item)))
                   parts)
      with (List.map (fun item =>
                        JString (trim (replaceAll quotes_match item)))
              (part :: parts)) in Hin.
    rewrite List.map_map in Hin. destruct Hin as [<-|Hin].
    + simpl. now rewrite !trim_idem.
    + apply in_map_iff in Hin as (x & <- & _). simpl. now rewrite !trim_idem.
  - intros ws items before after E Hb Ha Hw Hn Hi. unfold recoverArray.
    rewrite E, (bracketed_wrap _ _ _ Hb Ha).
    rewrite (splitBy_encoded _ _ Hw Hn Hi).
    apply strip_parts; [exact Hn|].
    eapply List.Forall_impl; [|exact Hi]. now intros item [I _].
Qed.

End RecoveredArray.

Lemma unparsable_answer_is_recovered_witness :
  let raw := lit "Here: [" ++ encodeItems [space] [lit "x^2"; lit "y"]
               ++ lit "] as asked" in
  let repairAndParse := fun _ : list N => @None Json in
  (forall group,
     bracketed (stripCodeFences raw) = Some group ->
     forall service instructions,
       service instructions = Parsed (extractArrayFromRaw repairAndParse raw)
       -> instructions <> [] ->
       exists latexList,
         fst (convertWithOpenAI service instructions) = Returns latexList
         /\ List.Forall (fun l => trim l = l) latexList)
  /\ (forall ws items before after,
        stripCodeFences raw
        = before ++ lbracket :: encodeItems ws items ++ rbracket :: after ->
        ~ In lbracket before -> ~ In rbracket after ->
        List.Forall (fun c => isTrimmed c = true) ws ->
        items <> [] -> List.Forall plainItem items ->
        extractArrayFromRaw repairAndParse raw
        = List.map (fun item => JString (trim item)) items).
Proof.
  apply (unparsable_answer_is_recovered (fun _ => None)
           (lit "Here: [" ++ encodeItems [space] [lit "x^2"; lit "y"]
              ++ lit "] as asked")).
  reflexivity.
Defined.

(** ** The preview of a segment *)

Lemma replace_from_Forall (P : N -> Prop) (m : matcher) s :
  (forall at0 s r n, m at0 s = Some (r, n) -> List.Forall P r) ->
  List.Forall P s ->
  forall at0 skip, List.Forall P (replace_from m at0 skip s).
Proof.
  intros Hm. induction 1 as [|c s Hc Hs IH]; intros at0 skip;
    [destruct skip; constructor|].
  destruct skip as [|k]; simpl; [|apply IH].
  destruct (m at0 (c :: s)) as [[r n]|] eqn:E.
  - apply List.Forall_app. split; [exact (Hm _ _ _ _ E) | apply IH].
  - constructor; [exact Hc | apply IH].
Qed.

Lemma delimiter_step at0 c s :
  replace_from delimiter_match at0 0 (c :: s)
  = if (c =? bslash)%N then
      match s with
      | d :: rest =>
          if (d =? lbracket)%N || (d =? rbracket)%N
          then space :: replace_from delimiter_match false 1 s
          else c :: replace_from delimiter_match false 0 s
      | [] => [c]
      end
    else if isDelimiter c
         then space :: replace_from delimiter_match false 0 s
         else c :: replace_from delimiter_match false 0 s.
Proof.
  cbn [replace_from]. unfold delimiter_match at 1, isDelimiter.
  destruct (c =? bslash)%N.
  - destruct s as [|d rest]; [reflexivity|].
    now destruct ((d =? lbracket)%N || (d =? rbracket)%N).
  - destruct (c =? dollar)%N, (c =? lbrace)%N, (c =? rbrace)%N; reflexivity.
Qed.

Lemma delimiter_clean s :
  forall at0,
    List.Forall (fun c => isDelimiter c = false)
      (replace_from delimiter_match at0 0 s)
    /\ List.Forall (fun c => isDelimiter c = false)
         (replace_from delimiter_match at0 1 s).
Proof.
  induction s as [|c s IH]; intros at0; [split; constructor|].
  destruct (IH false) as [I0 I1]. split; [|exact I0].
  rewrite delimiter_step.
  destruct (N.eqb_spec c bslash) as [->|Hc].
  - destruct s as [|d rest]; [repeat constructor|].
    destruct ((d =? lbracket)%N || (d =? rbracket)%N);
      constructor; try reflexivity; assumption.
  - destruct (isDelimiter c) eqn:E; constructor; try reflexivity; assumption.
Qed.

Lemma commandName_erases at0 s r n :
  commandName_match at0 s = Some (r, n) -> r = [].
Proof.
  unfold commandName_match. destruct s as [|c rest]; [discriminate|].
  destruct (c =? bslash)%N; [|discriminate].
  destruct (letterRun rest); [discriminate|]. now intros [= <- _].
Qed.

Lemma extractPlainText_plain input t :
  extractPlainTextFromLatex input = Some t -> plainText t.
Proof.
  unfold extractPlainTextFromLatex. cbv zeta.
  set (tagged := replaceAll (braced_match (lit "\text{")) _).
  set (output := trim _).
  destruct output as [|x output'] eqn:E; [discriminate|].
  intros [= <-]. rewrite <- E. unfold plainText.
  split; [rewrite E; discriminate|]. split; [apply trim_idem|].
  assert (C : List.Forall (fun c => isDelimiter c = false)
                (replaceAll commandName_match
                   (replaceAll delimiter_match tagged))).
  { apply replace_from_Forall.
    - intros at0 s r n H. apply commandName_erases in H. subst. constructor.
    - apply delimiter_clean. }
  split.
  - apply trim_Forall. apply spaces_replace_Forall.
    + now constructor.
    + apply List.Forall_forall. intros c _ E1 E2. congruence.
  - apply trim_Forall. apply spaces_replace_Forall.
    + now constructor.
    + eapply List.Forall_impl; [|exact C]. now intros c Hc _.
Qed.

Lemma parseStructuralLatex_preview content s :
  parseStructuralLatex content = Some s ->
  preview s = extractPlainTextFromLatex (trim content).
Proof.
  unfold parseStructuralLatex. cbv zeta.
  destruct (find _ structuralEnvs); [now intros [= <-]|].
  destruct (_ && _); [now intros [= <-]|].
  destruct (test _ _); [now intros [= <-]|].
  destruct (_ && _); [now intros [= <-] | discriminate].
Qed.

(** X21: the plain text [extractPlainTextFromLatex] gets out of a LaTeX
    string is never the empty string ([null] instead); it is trimmed, holds no
    brace and no dollar sign, and its only white space is the plain space.  So
    is every preview of [parseStructuralLatex], and every heading or preview
    that [SegmentBlock] shows. *)
Theorem structural_preview_is_plain (content t : list N) :
  (extractPlainTextFromLatex content = Some t -> plainText t)
  /\ (forall s, parseStructuralLatex content = Some s ->
                preview s = Some t -> plainText t)
  /\ (forall showRawLatex,
        SegmentBlock (mkSeg latex content) showRawLatex = RenderedHeading t
        \/ SegmentBlock (mkSeg latex content) showRawLatex
           = RenderedPreview t ->
        plainText t).
Proof.
  split; [apply extractPlainText_plain|].
  assert (P : forall s, parseStructuralLatex content = Some s ->
                        preview s = Some t -> plainText t).
  { intros s Hs Hp. rewrite (parseStructuralLatex_preview _ _ Hs) in Hp.
    now apply extractPlainText_plain in Hp. }
  split; [exact P|].
  intros showRawLatex. unfold SegmentBlock. simpl.
  destruct (parseStructuralLatex content) as [s|] eqn:Hs.
  - specialize (P s eq_refl).
    destruct showRawLatex; simpl; [intros [H|H]; discriminate|].
    destruct (preview s) as [[|x shown]|] eqn:Hp; simpl.
    + rewrite andb_false_r. intros [H|H]; discriminate.
    + destruct (String.eqb (kind s) "heading"); simpl;
        intros [H|H]; try discriminate; injection H as <-; now apply P.
    + rewrite andb_false_r. intros [H|H]; discriminate.
  - destruct showRawLatex; intros [H|H]; discriminate.
Qed.

(** X22: [SegmentBlock] renders nothing in one case only: a latex segment,
    in rendered mode, that [parseStructuralLatex] takes for a structure and
    whose plain text is empty.  In raw mode a latex segment is always shown
    as its code. *)
Theorem segment_block_hides_only_empty_structures (segment : Segment)
  (showRawLatex : bool) :
  (SegmentBlock segment showRawLatex = RenderedNothing <->
   type segment = latex /\ showRawLatex = false
   /\ exists s, parseStructuralLatex (content segment) = Some s
                /\ preview s = None)
  /\ (type segment = latex -> showRawLatex = true ->
      SegmentBlock segment showRawLatex = RenderedCode (content segment)).
Proof.
  unfold SegmentBlock. destruct segment as [[| |] c]; simpl.
  - destruct (parseStructuralLatex c) as [s|] eqn:Hs.
    + destruct showRawLatex; simpl.
      * split; [|reflexivity]. split; [discriminate|].
        intros (_ & H & _). discriminate.
      * split; [|discriminate].
        pose proof (extractPlainText_plain (trim c)) as P.
        rewrite <- (parseStructuralLatex_preview _ _ Hs) in P.
        destruct (preview s) as [[|x shown]|] eqn:Hp; simpl.
        -- destruct (P [] eq_refl) as [N _]. congruence.
        -- destruct (String.eqb (kind s) "heading"); simpl;
             (split; [discriminate|]);
             intros (_ & _ & s' & [= <-] & H); congruence.
        -- rewrite andb_false_r. split; [|reflexivity]. intros _.
           repeat split. now exists s.
    + destruct showRawLatex.
      * split; [|reflexivity]. split; [discriminate|].
        intros (_ & H & _). discriminate.
      * split; [|discriminate]. split; [discriminate|].
        intros (_ & _ & s & H & _). discriminate.
  - split; [|discriminate]. split; [discriminate|].
    intros (H & _). discriminate.
  - split; [|discriminate]. split; [discriminate|].
    intros (H & _). discriminate.
Qed.

(** ** The quick-insert panels *)

Lemma countStars_zero s : countStars s = 0 <-> ~ In star s.
Proof.
  split; [apply countStars_In | apply countStars_absent].
Qed.

Lemma countStars_trim s : countStars s = 0 -> countStars (trim s) = 0.
Proof. rewrite !countStars_zero. apply trim_absent. Qed.

Lemma countStars_orElse a b :
  countStars a = 0 -> countStars b = 0 -> countStars (orElse a b) = 0.
Proof. unfold orElse. now destruct (truthy a). Qed.

Lemma splitOn_plain sep s :
  countStars s = 0 ->
  List.Forall (fun part => countStars part = 0) (splitOn sep s).
Proof.
  induction s as [|c s IH]; [repeat constructor|].
  change (c :: s) with ([c] ++ s). rewrite countStars_app. intros H.
  assert (Hc : countStars [c] = 0) by lia.
  specialize (IH ltac:(lia)). simpl.
  destruct (c =? sep)%N; [constructor; [reflexivity | exact IH]|].
  destruct (splitOn sep s) as [|part parts]; [repeat constructor; exact Hc|].
  inversion IH as [|? ? H1 H2]; subst. constructor; [|exact H2].
  change (c :: part) with ([c] ++ part). rewrite countStars_app. lia.
Qed.

Lemma join_plain sep parts :
  countStars sep = 0 ->
  List.Forall (fun part => countStars part = 0) parts ->
  countStars (join sep parts) = 0.
Proof.
  intros Hs. induction 1 as [|part parts H1 H2 IH]; [reflexivity|].
  destruct parts as [|q parts]; [exact H1|].
  rewrite join_cons by discriminate. rewrite !countStars_app. lia.
Qed.

(** The text a quick-insert handler or the format bar puts at the
    selection: an instruction between asterisks, then line feeds. *)
Lemma insert_wrapped textarea input description tail :
  let current := currentValueOf textarea input in
  let start := selectionStartOf textarea input in
  let end_ := selectionEndOf textarea input in
  countStars current = 0 -> countStars description = 0 ->
  nonblank description = true -> countStars tail = 0 ->
  App.extractSegments
    (fst (insertTextAtSelection textarea input
            (wrapInstruction description ++ tail)))
  = spanRaw (Outside (firstn start current))
      ++ mkRaw Raw.math (trim description)
      :: spanRaw (Outside (tail ++ skipn end_ current)).
Proof.
  intros current start end_ Hc Hd Hn Ht.
  assert (V : fst (insertTextAtSelection textarea input
                     (wrapInstruction description ++ tail))
              = firstn start current ++ star :: trim description
                  ++ star :: tail ++ skipn end_ current).
  { unfold insertTextAtSelection, mutateTextareaValue. cbv zeta.
    fold current start.
    replace (match textarea with
             | Some area => selectionEnd area
             | None => start
             end) with end_ by (unfold end_, selectionEndOf, start;
                                  now destruct textarea).
    cbn [fst]. rewrite slice_0. unfold wrapInstruction.
    rewrite <- !app_assoc. reflexivity. }
  rewrite V. apply countStars_zero in Hc.
  apply App_extract_one_pair.
  - now apply absent_take.
  - apply trim_absent. now apply countStars_zero.
  - intros I. apply in_app_or in I as [I|I].
    + apply countStars_zero in Ht. tauto.
    + revert I. now apply absent_drop.
  - now rewrite nonblank_trim.
Qed.

Section QuickInsertProperties.

Variable numberToString : Q -> list N.
Hypothesis numberToString_plain : forall q, countStars (numberToString q) = 0.

Lemma tableInstruction_plain cols rows headers caption :
  countStars headers = 0 -> countStars caption = 0 ->
  countStars (tableInstruction numberToString cols rows headers caption) = 0
  /\ nonblank (tableInstruction numberToString cols rows headers caption)
     = true.
Proof.
  intros Hh Hc. unfold tableInstruction. cbv zeta. split.
  - rewrite !countStars_app, !numberToString_plain.
    rewrite (countStars_orElse (trim caption)) by
      (try reflexivity; now apply countStars_trim).
    rewrite countStars_orElse; [reflexivity| |reflexivity].
    apply join_plain; [reflexivity|].
    apply List.Forall_forall. intros part Hin.
    apply filter_In in Hin as [Hin _].
    apply in_map_iff in Hin as (raw & <- & Hin).
    apply countStars_trim.
    pose proof (splitOn_plain comma headers Hh) as F.
    rewrite List.Forall_forall in F. now apply F.
  - now rewrite nonblank_app.
Qed.

Lemma layoutInstruction_plain cols primary secondary margin :
  countStars primary = 0 -> countStars secondary = 0 ->
  countStars margin = 0 ->
  countStars (layoutInstruction numberToString cols primary secondary margin)
  = 0
  /\ nonblank (layoutInstruction numberToString cols primary secondary
                 margin) = true.
Proof.
  intros H1 H2 H3. unfold layoutInstruction. cbv zeta. split.
  - rewrite !countStars_app, !numberToString_plain.
    rewrite !countStars_orElse by
      (try reflexivity; now apply countStars_trim).
    reflexivity.
  - now rewrite nonblank_app.
Qed.

End QuickInsertProperties.

Lemma equationInstruction_plain placement label anchor :
  countStars label = 0 -> countStars anchor = 0 ->
  countStars (equationInstruction placement label anchor) = 0
  /\ nonblank (equationInstruction placement label anchor) = true.
Proof.
  intros H1 H2. unfold equationInstruction. cbv zeta. split.
  - assert (P : countStars (placementDetails placement) = 0)
      by (destruct placement; reflexivity).
    rewrite !countStars_app, P.
    assert (A : countStars
                  (if truthy (trim anchor)
                   then lit "Anchor it " ++ trim anchor
                          ++ lit " and keep nearby paragraphs clear."
                   else lit "Anchor it exactly where the reader expects it, without overlapping adjacent content.")
                = 0).
    { destruct (truthy (trim anchor)); [|reflexivity].
      rewrite !countStars_app, (countStars_trim _ H2). reflexivity. }
    rewrite A.
    assert (T : countStars
                  (match placement with
                   | EquationPlacement.inline =>
                       lit "Leave it unnumbered to avoid breaking text flow."
                   | _ =>
                       lit "Tag it as " ++ [dquoteUnit]
                         ++ orElse (trim label) (lit "Eq.") ++ [dquoteUnit]
                         ++ lit " using \label/\tag so cross-references stay correct."
                   end) = 0).
    { destruct placement; try reflexivity;
        rewrite !countStars_app, countStars_orElse by
          (try reflexivity; now apply countStars_trim);
        reflexivity. }
    rewrite T. reflexivity.
  - rewrite nonblank_app.
    now replace (nonblank (placementDetails placement)) with true
      by (destruct placement; reflexivity).
Qed.

(** X23: the three quick-insert panels: in a document that holds no
    asterisk, when the fields of the panel hold none (and the text of a number
    holds none), the instruction inserted for a table, a column layout or an
    equation is read back by the editor's extractor as exactly one
    instruction, between the prose before the selection and the prose after
    it. *)
Theorem quick_insert_is_one_instruction (numberToString : Q -> list N)
  (textarea : option Textarea) (input : list N) :
  let current := currentValueOf textarea input in
  let start := selectionStartOf textarea input in
  let end_ := selectionEndOf textarea input in
  let around instruction :=
    spanRaw (Outside (firstn start current))
      ++ mkRaw Raw.math (trim instruction)
      :: spanRaw (Outside (newline :: newline :: skipn end_ current)) in
  (forall q, countStars (numberToString q) = 0) ->
  countStars current = 0 ->
  (forall cols rows headers caption,
     countStars headers = 0 -> countStars caption = 0 ->
     App.extractSegments
       (fst (handleInsertTable numberToString textarea input cols rows
               headers caption))
     = around (tableInstruction numberToString cols rows headers caption))
  /\ (forall cols primary secondary margin,
        countStars primary = 0 -> countStars secondary = 0 ->
        countStars margin = 0 ->
        App.extractSegments
          (fst (handleInsertLayout numberToString textarea input cols
                  primary secondary margin))
        = around (layoutInstruction numberToString cols primary secondary
                    margin))
  /\ (forall placement label anchor,
        countStars label = 0 -> countStars anchor = 0 ->
        App.extractSegments
          (fst (handleInsertEquation textarea input placement label anchor))
        = around (equationInstruction placement label anchor)).
Proof.
  intros current start end_ around Hn Hc. split; [|split].
  - intros cols rows headers caption H1 H2.
    destruct (tableInstruction_plain numberToString Hn cols rows headers
                caption H1 H2) as [P B].
    apply (insert_wrapped textarea input _ [newline; newline] Hc P B).
    reflexivity.
  - intros cols primary secondary margin H1 H2 H3.
    destruct (layoutInstruction_plain numberToString Hn cols primary
                secondary margin H1 H2 H3) as [P B].
    apply (insert_wrapped textarea input _ [newline; newline] Hc P B).
    reflexivity.
  - intros placement label anchor H1 H2.
    destruct (equationInstruction_plain placement label anchor H1 H2)
      as [P B].
    apply (insert_wrapped textarea input _ [newline; newline] Hc P B).
    reflexivity.
Qed.

Lemma quick_insert_is_one_instruction_witness :
  let numberToString := fun _ : Q => lit "3" in
  let textarea := Some (mkTextarea (lit "Intro.") 6 6) in
  let around instruction :=
    spanRaw (Outside (firstn 6 (lit "Intro.")))
      ++ mkRaw Raw.math (trim instruction)
      :: spanRaw (Outside (newline :: newline :: skipn 6 (lit "Intro."))) in
  (forall cols rows headers caption,
     countStars headers = 0 -> countStars caption = 0 ->
     App.extractSegments
       (fst (handleInsertTable numberToString textarea [] cols rows
               headers caption))
     = around (tableInstruction numberToString cols rows headers caption))
  /\ (forall cols primary secondary margin,
        countStars primary = 0 -> countStars secondary = 0 ->
        countStars margin = 0 ->
        App.extractSegments
          (fst (handleInsertLayout numberToString textarea [] cols
                  primary secondary margin))
        = around (layoutInstruction numberToString cols primary secondary
                    margin))
  /\ (forall placement label anchor,
        countStars label = 0 -> countStars anchor = 0 ->
        App.extractSegments
          (fst (handleInsertEquation textarea [] placement label anchor))
        = around (equationInstruction placement label anchor)).
Proof.
  apply (quick_insert_is_one_instruction (fun _ => lit "3")
           (Some (mkTextarea (lit "Intro.") 6 6)) []);
    reflexivity.
Defined.

(** ** The fallback converter on the documented shapes *)

Lemma plainArgument_In g c :
  plainArgument g = true -> In c g ->
  c <> lparen /\ c <> rparen /\ c <> comma /\ isLineTerminator c = false.
Proof.
  unfold plainArgument. rewrite forallb_forall. intros H I.
  specialize (H c I). apply negb_true_iff in H.
  apply orb_false_iff in H as [H H4]. apply orb_false_iff in H as [H H3].
  apply orb_false_iff in H as [H1 H2].
  apply N.eqb_neq in H1, H2, H3. tauto.
Qed.

Lemma lazy_group_plain {R} d (k : list N -> option R) g rest r :
  (forall c, In c g -> c <> d /\ isLineTerminator c = false) ->
  k rest = Some r ->
  lazy_group d k (g ++ d :: rest) = Some (g, r).
Proof.
  intros Hg Hk. induction g as [|c g IH]; simpl.
  - now rewrite N.eqb_refl, Hk.
  - destruct (Hg c ltac:(now left)) as [Hc Hl].
    apply N.eqb_neq in Hc. rewrite Hc, Hl.
    rewrite IH; [reflexivity|]. intros x Hx. apply Hg. now right.
Qed.

Lemma literal_ci_length pat s r :
  literal_ci pat s = Some r -> length s = length pat + length r.
Proof.
  revert s. induction pat as [|p pat IH]; intros s; simpl.
  - now intros [= ->].
  - destruct s as [|c s]; [discriminate|].
    destruct (canonicalize c =? canonicalize p)%N; [|discriminate].
    intros H. simpl. now rewrite (IH _ H).
Qed.

Lemma canonicalize_paren c p :
  isAsciiLetter p = true -> canonicalize c = canonicalize p -> c <> lparen.
Proof.
  intros Hp E ->. unfold canonicalize, isAsciiLetter, lparen in *.
  simpl in E.
  destruct ((97 <=? p)%N && (p <=? 122)%N) eqn:L.
  - apply andb_prop in L as [L1 L2]. apply N.leb_le in L1, L2. lia.
  - rewrite orb_false_r in Hp. apply andb_prop in Hp as [H1 H2].
    apply N.leb_le in H1, H2. lia.
Qed.

(** A keyword is matched only where the first opening parenthesis stands
    right after as many code units as the keyword has letters. *)
Lemma literal_ci_paren letters s r :
  List.Forall (fun p => isAsciiLetter p = true) letters ->
  literal_ci (letters ++ [lparen]) s = Some r ->
  indexOf lparen s = Some (length letters).
Proof.
  intros H. revert s. induction H as [|p letters Hp _ IH]; intros s; simpl.
  - destruct s as [|c s]; [discriminate|].
    destruct (N.eqb_spec (canonicalize c) (canonicalize lparen)) as [E|E];
      [|discriminate].
    intros _. assert (c = lparen) as ->.
    { unfold canonicalize, lparen in *. simpl in E.
      destruct ((97 <=? c)%N && (c <=? 122)%N) eqn:L; [|exact E].
      apply andb_prop in L as [L1 L2]. apply N.leb_le in L1, L2. lia. }
    reflexivity.
  - destruct s as [|c s]; [discriminate|].
    destruct (N.eqb_spec (canonicalize c) (canonicalize p)) as [E|E];
      [|discriminate].
    intros M. apply IH in M.
    pose proof (canonicalize_paren c p Hp E) as Hc.
    apply N.eqb_neq in Hc. cbn [indexOf length]. now rewrite Hc, M.
Qed.

Lemma indexOf_app_absent c a b :
  ~ In c a ->
  indexOf c (a ++ b)
  = match indexOf c b with Some i => Some (length a + i) | None => None end.
Proof.
  induction a as [|x a IH]; intros H; simpl.
  - now destruct (indexOf c b).
  - destruct (N.eqb_spec x c) as [->|Hx]; [exfalso; apply H; now left|].
    rewrite IH by (intros I; apply H; now right).
    now destruct (indexOf c b).
Qed.

(** In [front ++ ( ++ back], with no other opening parenthesis, the first
    parenthesis of a suffix is at most [length front] away, and exactly that
    far for the whole string only. *)
Lemma paren_bound front back :
  ~ In lparen front -> ~ In lparen back ->
  forall p k,
    indexOf lparen (skipn p (front ++ lparen :: back)) = Some k ->
    k <= length front /\ (k = length front -> p = 0).
Proof.
  intros Hf Hb. induction front as [|c front IH]; intros p k.
  - destruct p as [|p]; simpl.
    + intros [= <-]. lia.
    + rewrite indexOf_absent; [discriminate|].
      intros I. apply Hb. rewrite <- (firstn_skipn p back).
      apply in_or_app. now right.
  - destruct p as [|p].
    + change (skipn 0 ?l) with l.
      rewrite indexOf_app_absent by exact Hf. cbn [indexOf].
      rewrite N.eqb_refl. intros [= <-]. simpl length. lia.
    + simpl skipn. intros H. apply IH in H.
      * simpl length. lia.
      * intros I. apply Hf. now right.
Qed.

Lemma unmatched_suffixes (m : matcher) s :
  forall at0,
    (forall p, p < length s ->
               forall at1, m at1 (skipn p s) = None) ->
    unmatched m at0 s = true.
Proof.
  induction s as [|c s IH]; intros at0 H; [reflexivity|]. simpl.
  pose proof (H 0 ltac:(simpl; lia) at0) as H0.
  change (skipn 0 (c :: s)) with (c :: s) in H0. rewrite H0. apply IH.
  intros p Hp at1. apply (H (S p)). simpl. lia.
Qed.

Lemma squareroot_keyworded : keyworded squareroot_match (lit "squareroot").
Proof.
  intros at0 s H. unfold squareroot_match in H.
  change (lit "squareroot(") with (lit "squareroot" ++ [lparen]) in H.
  destruct (literal_ci _ s); [eauto | contradiction].
Qed.

Lemma integral_keyworded : keyworded integral_match (lit "integral").
Proof.
  intros at0 s H. unfold integral_match in H.
  change (lit "integral(") with (lit "integral" ++ [lparen]) in H.
  destruct (literal_ci _ s); [eauto | contradiction].
Qed.

Lemma fraction_keyworded : keyworded fraction_match (lit "fraction").
Proof.
  intros at0 s H. unfold fraction_match in H.
  change (lit "fraction(") with (lit "fraction" ++ [lparen]) in H.
  destruct (literal_ci _ s); [eauto | contradiction].
Qed.

Lemma keyworded_no_paren m letters s :
  keyworded m letters ->
  List.Forall (fun p => isAsciiLetter p = true) letters ->
  ~ In lparen s -> replaceAll m s = s.
Proof.
  intros K L H. apply replace_unmatched. apply unmatched_suffixes.
  intros p Hp at1. destruct (m at1 (skipn p s)) eqn:E; [|reflexivity].
  exfalso. destruct (K at1 (skipn p s)) as [r Hr]; [congruence|].
  apply (literal_ci_paren _ _ _ L) in Hr.
  rewrite indexOf_absent in Hr; [discriminate|].
  intros I. apply H. rewrite <- (firstn_skipn p s). apply in_or_app.
  now right.
Qed.

(** In a string with one opening parenthesis, a keyword with more letters
    than stand before the parenthesis matches nowhere; one with as many
    letters can match at the start only. *)
Lemma keyworded_one_paren m letters front back :
  keyworded m letters ->
  List.Forall (fun p => isAsciiLetter p = true) letters ->
  ~ In lparen front -> ~ In lparen back ->
  length front < length letters
  \/ (length front = length letters
      /\ forall at0, m at0 (front ++ lparen :: back) = None) ->
  replaceAll m (front ++ lparen :: back) = front ++ lparen :: back.
Proof.
  intros K L Hf Hb D. apply replace_unmatched. apply unmatched_suffixes.
  intros p Hp at1.
  destruct (m at1 (skipn p (front ++ lparen :: back))) eqn:E; [|reflexivity].
  exfalso. destruct (K at1 (skipn p (front ++ lparen :: back))) as [r Hr];
    [congruence|].
  apply (literal_ci_paren _ _ _ L) in Hr.
  destruct (paren_bound _ _ Hf Hb _ _ Hr) as [B1 B2].
  destruct D as [D|[D1 D2]]; [lia|].
  rewrite (B2 (eq_sym D1)) in E.
  change (skipn 0 ?l) with l in E. rewrite D2 in E. discriminate.
Qed.

Lemma literal_ci_head p pat q pat' s r :
  literal_ci (p :: pat) s = Some r ->
  canonicalize p <> canonicalize q ->
  literal_ci (q :: pat') s = None.
Proof.
  simpl. destruct s as [|c s]; [discriminate|].
  destruct (N.eqb_spec (canonicalize c) (canonicalize p)) as [E|E];
    [|discriminate].
  intros _ H. destruct (N.eqb_spec (canonicalize c) (canonicalize q)) as [F|F];
    [congruence | reflexivity].
Qed.

(** What spelling a keyword with its parenthesis says of a string. *)
Lemma spells_front keyword s :
  List.Forall (fun p => isAsciiLetter p = true) (lit keyword) ->
  literal_ci (lit keyword ++ [lparen]) s = Some [] ->
  exists front, s = front ++ [lparen] /\ ~ In lparen front
                /\ length front = length (lit keyword).
Proof.
  intros L H. pose proof (literal_ci_paren _ _ _ L H) as I.
  pose proof (literal_ci_length _ _ _ H) as N.
  destruct (indexOf_Some _ _ _ I) as (pre & post & -> & Hl & Hpre).
  rewrite !length_app in N. simpl in N.
  destruct post; [|simpl in N; lia].
  exists pre. now repeat split.
Qed.

Lemma skip_whole (m : matcher) s : replace_from m false (length s) s = [].
Proof.
  rewrite <- (app_nil_r s) at 2. now rewrite skip_matched.
Qed.

Lemma snoc_not_nil (u : list N) x : u ++ [x] <> [].
Proof. intros E. symmetry in E. revert E. apply app_cons_not_nil. Qed.

Lemma middle_not_nil (u : list N) x v : u ++ x :: v <> [].
Proof. intros E. symmetry in E. revert E. apply app_cons_not_nil. Qed.

Lemma replace_whole (m : matcher) s r :
  s <> [] -> m true s = Some (r, length s) -> replaceAll m s = r.
Proof.
  intros Hs H. unfold replaceAll. destruct s as [|c s]; [congruence|].
  cbn [replace_from]. rewrite H. cbn [length Nat.pred].
  now rewrite skip_whole, app_nil_r.
Qed.

Lemma trimEnd_last u d :
  isTrimmed d = false -> trimEnd (u ++ [d]) = u ++ [d].
Proof.
  intros Hd. unfold trimEnd. rewrite rev_app_distr.
  change (rev [d] ++ rev u) with (d :: rev u). cbn [trimStart]. rewrite Hd.
  change (rev (d :: rev u)) with (rev (rev u) ++ [d]).
  now rewrite rev_involutive.
Qed.

Lemma trim_inked c s d :
  isTrimmed c = false -> isTrimmed d = false ->
  trim (c :: s ++ [d]) = c :: s ++ [d].
Proof.
  intros Hc Hd. unfold trim. cbn [trimStart]. rewrite Hc.
  now apply (trimEnd_last (c :: s)).
Qed.

Lemma plain_no_paren g : plainArgument g = true -> ~ In lparen g.
Proof. intros H I. now destruct (plainArgument_In _ _ H I). Qed.

Lemma absent_app (c : N) a b : ~ In c a -> ~ In c b -> ~ In c (a ++ b).
Proof. intros Ha Hb I. apply in_app_or in I. tauto. Qed.

Lemma squareroot_letters :
  List.Forall (fun p => isAsciiLetter p = true) (lit "squareroot").
Proof. repeat constructor. Qed.

Lemma integral_letters :
  List.Forall (fun p => isAsciiLetter p = true) (lit "integral").
Proof. repeat constructor. Qed.

Lemma fraction_letters :
  List.Forall (fun p => isAsciiLetter p = true) (lit "fraction").
Proof. repeat constructor. Qed.

(** X24: the fallback converter on the three documented shapes.  When the
    arguments hold no parenthesis, no comma and no line terminator (they may
    be empty), and the keyword with its parenthesis is spelled in any letter
    case, a square root, a fraction and an integral that make up the whole
    instruction are rewritten to the LaTeX of the replacement pattern with
    the arguments copied as typed; the command begins with two backslashes,
    and only the integral, which ends with its last argument, is changed by
    the final trim. *)
Theorem fallback_converts_documented_shapes (a b c d : list N) :
  plainArgument a = true -> plainArgument b = true ->
  plainArgument c = true -> plainArgument d = true ->
  (forall keyword, spells "squareroot(" keyword ->
     basicInlineConverter (keyword ++ a ++ [rparen])
     = lit "\\sqrt{" ++ a ++ lit "}")
  /\ (forall keyword, spells "fraction(" keyword ->
        basicInlineConverter (keyword ++ a ++ [comma] ++ b ++ [rparen])
        = lit "\\frac{" ++ a ++ lit "}{" ++ b ++ lit "}")
  /\ (forall keyword, spells "integral(" keyword ->
        basicInlineConverter
          (keyword ++ a ++ [comma] ++ b ++ [comma] ++ c ++ [comma] ++ d
             ++ [rparen])
        = trim (lit "\\int_{ " ++ a ++ lit " }^{ " ++ b ++ lit " } " ++ c
                  ++ lit " \\mathrm{d}" ++ d)).
Proof.
  intros Ha Hb Hc Hd.
  assert (G : forall g, plainArgument g = true -> forall x, In x g ->
                        x <> rparen /\ isLineTerminator x = false).
  { intros g Hg x I. destruct (plainArgument_In _ _ Hg I). tauto. }
  assert (Gc : forall g, plainArgument g = true -> forall x, In x g ->
                         x <> comma /\ isLineTerminator x = false).
  { intros g Hg x I. destruct (plainArgument_In _ _ Hg I). tauto. }
  pose proof (plain_no_paren _ Ha) as Pa. pose proof (plain_no_paren _ Hb) as Pb.
  pose proof (plain_no_paren _ Hc) as Pc. pose proof (plain_no_paren _ Hd) as Pd.
  assert (NP : forall l : string, countOf lparen (lit l) = 0 ->
                                  ~ In lparen (lit l)).
  { intros l H I. unfold countOf in H.
    induction (lit l) as [|x t IH]; [destruct I|]. simpl in H.
    destruct (N.eqb_spec x lparen) as [->|Hx]; [discriminate|].
    destruct I as [I|I]; [congruence | now apply IH]. }
  split; [|split]; intros keyword S.
  - (* squareroot *)
    unfold basicInlineConverter.
    assert (M : squareroot_match true (keyword ++ a ++ [rparen])
                = Some (lit "\\sqrt{" ++ a ++ lit "}",
                        length (keyword ++ a ++ [rparen]))).
    { unfold squareroot_match.
      rewrite (literal_ci_app _ _ _ (a ++ [rparen]) S). simpl app.
      rewrite (lazy_group_plain rparen Some a [] []); [|now apply G|reflexivity].
      simpl length. now rewrite Nat.sub_0_r. }
    assert (NE : keyword ++ a ++ [rparen] <> [])
      by (rewrite app_assoc; apply snoc_not_nil).
    rewrite (replace_whole _ _ _ NE M).
    assert (P : ~ In lparen (lit "\\sqrt{" ++ a ++ lit "}")).
    { apply absent_app; [now apply NP|]. apply absent_app; [exact Pa|].
      now apply NP. }
    rewrite (keyworded_no_paren _ _ _ integral_keyworded integral_letters P).
    rewrite (keyworded_no_paren _ _ _ fraction_keyworded fraction_letters P).
    assert (T : lit "\\sqrt{" ++ a ++ lit "}"
                = bslash :: (lit "\sqrt{" ++ a) ++ [rbrace])
      by (rewrite <- !app_assoc; reflexivity).
    rewrite T. apply trim_inked; reflexivity.
  - (* fraction *)
    unfold basicInlineConverter.
    destruct (spells_front "fraction" keyword fraction_letters S)
      as (front & -> & Hf & Lf).
    set (back := a ++ [comma] ++ b ++ [rparen]).
    assert (Hback : ~ In lparen back).
    { unfold back. repeat apply absent_app; try assumption;
        intros [I|[]]; discriminate. }
    assert (I : (front ++ [lparen]) ++ back = front ++ lparen :: back)
      by now rewrite <- app_assoc.
    rewrite I.
    rewrite (keyworded_one_paren _ _ front back squareroot_keyworded
               squareroot_letters Hf Hback)
      by (left; rewrite Lf; simpl; lia).
    rewrite (keyworded_one_paren _ _ front back integral_keyworded
               integral_letters Hf Hback).
    2:{ right. split; [now rewrite Lf|]. intros at0. unfold integral_match.
        rewrite <- I.
        pose proof (literal_ci_head 102%N (lit "raction(") 105%N
                      (lit "ntegral(") _ _ (literal_ci_app _ _ _ back S)
                      ltac:(discriminate)) as Q.
        change (105%N :: lit "ntegral(") with (lit "integral(") in Q.
        now rewrite Q. }
    assert (M : fraction_match true (front ++ lparen :: back)
                = Some (lit "\\frac{" ++ a ++ lit "}{" ++ b ++ lit "}",
                        length (front ++ lparen :: back))).
    { unfold fraction_match. rewrite <- I.
      rewrite (literal_ci_app _ _ _ back S). unfold back. cbn [app].
      rewrite (lazy_group_plain comma (lazy_group rparen Some) a
                 (b ++ [rparen]) (b, []));
        [|now apply Gc|].
      - simpl length. now rewrite Nat.sub_0_r.
      - apply lazy_group_plain; [now apply G | reflexivity]. }
    rewrite (replace_whole _ _ _ (middle_not_nil _ _ _) M).
    assert (T : lit "\\frac{" ++ a ++ lit "}{" ++ b ++ lit "}"
                = bslash :: (lit "\frac{" ++ a ++ lit "}{" ++ b) ++ [rbrace])
      by (rewrite <- !app_assoc; reflexivity).
    rewrite T. apply trim_inked; reflexivity.
  - (* integral *)
    unfold basicInlineConverter.
    destruct (spells_front "integral" keyword integral_letters S)
      as (front & -> & Hf & Lf).
    set (back := a ++ [comma] ++ b ++ [comma] ++ c ++ [comma] ++ d
                   ++ [rparen]).
    assert (Hback : ~ In lparen back).
    { unfold back. repeat apply absent_app; try assumption;
        intros [I|[]]; discriminate. }
    assert (I : (front ++ [lparen]) ++ back = front ++ lparen :: back)
      by now rewrite <- app_assoc.
    rewrite I.
    rewrite (keyworded_one_paren _ _ front back squareroot_keyworded
               squareroot_letters Hf Hback)
      by (left; rewrite Lf; simpl; lia).
    assert (M : integral_match true (front ++ lparen :: back)
                = Some (lit "\\int_{ " ++ a ++ lit " }^{ " ++ b ++ lit " } "
                          ++ c ++ lit " \\mathrm{d}" ++ d,
                        length (front ++ lparen :: back))).
    { unfold integral_match. rewrite <- I.
      rewrite (literal_ci_app _ _ _ back S). unfold back. cbn [app].
      rewrite (lazy_group_plain comma
                 (lazy_group comma (lazy_group comma
                    (lazy_group rparen Some))) a
                 (b ++ comma :: c ++ comma :: d ++ [rparen])
                 (b, (c, (d, []))));
        [|now apply Gc|].
      - simpl length. now rewrite Nat.sub_0_r.
      - apply lazy_group_plain; [now apply Gc|].
        apply lazy_group_plain; [now apply Gc|].
        apply lazy_group_plain; [now apply G | reflexivity]. }
    rewrite (replace_whole _ _ _ (middle_not_nil _ _ _) M).
    assert (P : ~ In lparen (lit "\\int_{ " ++ a ++ lit " }^{ " ++ b
                               ++ lit " } " ++ c ++ lit " \\mathrm{d}" ++ d)).
    { repeat apply absent_app; try assumption; now apply NP. }
    now rewrite (keyworded_no_paren _ _ _ fraction_keyworded
                   fraction_letters P).
Qed.

Lemma fallback_converts_documented_shapes_witness :
  basicInlineConverter (lit "SquareRoot(0)") = lit "\\sqrt{0}"
  /\ basicInlineConverter (lit "Fraction(0,1)") = lit "\\frac{0}{1}"
  /\ basicInlineConverter (lit "INTEGRAL(0,1,x^2,x)")
     = lit "\\int_{ 0 }^{ 1 } x^2 \\mathrm{d}x".
Proof.
  destruct (fallback_converts_documented_shapes (lit "0") (lit "1")
              (lit "x^2") (lit "x")) as (S & F & I); try reflexivity.
  split; [exact (S (lit "SquareRoot(") eq_refl)|].
  split; [exact (F (lit "Fraction(") eq_refl)|].
  exact (I (lit "INTEGRAL(") eq_refl).
Defined.


(** ** Escaping can be undone *)

Lemma escapeCharacter_cases c :
  (c = bslash \/ c = lbrace \/ c = rbrace \/ c = underscore \/ c = caret
   \/ c = tilde \/ c = percent \/ c = ampersand \/ c = hash)
  \/ (escapeCharacter c = [c] /\ c <> bslash).
Proof.
  unfold escapeCharacter, isUnit.
  destruct (N.eqb_spec c bslash) as [->|H1]; [tauto|].
  destruct (N.eqb_spec c lbrace) as [->|H2]; [tauto|].
  destruct (N.eqb_spec c rbrace) as [->|H3]; [tauto|].
  destruct (N.eqb_spec c underscore) as [->|H4]; [tauto|].
  destruct (N.eqb_spec c caret) as [->|H5]; [tauto|].
  destruct (N.eqb_spec c tilde) as [->|H6]; [tauto|].
  destruct (N.eqb_spec c percent) as [->|H7]; [tauto|].
  destruct (N.eqb_spec c ampersand) as [->|H8]; [tauto|].
  destruct (N.eqb_spec c hash) as [->|H9]; [tauto|].
  right. now split.
Qed.

Lemma escapeCharacter_prefix x y A B :
  escapeCharacter x ++ A = escapeCharacter y ++ B -> x = y /\ A = B.
Proof.
  destruct (escapeCharacter_cases x) as [Hx|[Ex Nx]];
    destruct (escapeCharacter_cases y) as [Hy|[Ey Ny]].
  - repeat (destruct Hx as [->|Hx]); try subst x;
      repeat (destruct Hy as [->|Hy]); try subst y;
      intros H; cbn in H; try discriminate H;
      (split; [reflexivity|]); congruence.
  - rewrite Ey. repeat (destruct Hx as [->|Hx]); try subst x;
      intros H; cbn in H; injection H as H _; exfalso; apply Ny; symmetry;
      exact H.
  - rewrite Ex. repeat (destruct Hy as [->|Hy]); try subst y;
      intros H; cbn in H; injection H as H _; exfalso; apply Nx; exact H.
  - rewrite Ex, Ey. intros H. injection H as -> ->. now split.
Qed.

Lemma escape_injective a :
  forall b, flat_map escapeCharacter a = flat_map escapeCharacter b -> a = b.
Proof.
  induction a as [|x a IH]; intros [|y b]; simpl.
  - reflexivity.
  - intros H. pose proof (escapeCharacter_truthy y) as T.
    destruct (escapeCharacter y); discriminate.
  - intros H. pose proof (escapeCharacter_truthy x) as T.
    destruct (escapeCharacter x); discriminate.
  - intros H. apply escapeCharacter_prefix in H as [-> H].
    now rewrite (IH _ H).
Qed.

(** X25: escaping loses nothing: an escaped character is never the
    beginning of the escape of another one, so two texts with the same
    escaped form are the same text. *)
Theorem escapeLatexText_injective (a b : list N) :
  escapeLatexText a = escapeLatexText b -> a = b.
Proof.
  rewrite !escapeLatexText_flat. apply escape_injective.
Qed.

Lemma escapeLatexText_injective_witness :
  lit "50% of a_b" = lit "50% of a_b".
Proof.
  apply (escapeLatexText_injective (lit "50% of a_b") (lit "50% of a_b")).
  reflexivity.
Defined.


(** ** The request of the editor at the server *)

Lemma filter_trimSegment l :
  List.filter isMath (List.map trimSegment l)
  = List.map trimSegment (List.filter isMath l).
Proof.
  induction l as [|[[|] c] l IH]; simpl; [reflexivity| |]; now rewrite IH.
Qed.

Lemma server_instructions input :
  List.map rcontent (List.filter isMath (extractSegments input))
  = List.map trim
      (List.map rcontent (List.filter isMath (App.extractSegments input))).
Proof.
  rewrite extractSegments_trims, filter_trimSegment, !List.map_map.
  reflexivity.
Qed.

Lemma destructure_inputBody input :
  destructureInput (inputBody input) = Some (JString input).
Proof. reflexivity. Qed.

Lemma conversionEffect_posts extract st input pending :
  snd (conversionEffect extract st input) = Some pending ->
  nonblank input = true
  /\ existsb isMath (extract input) = true
  /\ request pending = input
  /\ mathSnapshot pending
     = List.map rcontent (List.filter isMath (extract input)).
Proof.
  unfold conversionEffect. rewrite truthy_trim.
  destruct (nonblank input); simpl; [|discriminate].
  destruct (existsb isMath (extract input)); simpl; [|discriminate].
  destruct (hydrate (latexCache st) false (extract input))
    as [hydrated needs].
  destruct needs; simpl; [|discriminate].
  intros [= <-]. now repeat split.
Qed.

Lemma convertMathToLatex_calls hasOpenAIKey service input :
  snd (convertMathToLatex hasOpenAIKey service input)
  = (if hasOpenAIKey
        && negb (length (List.filter isMath (extractSegments input)) =? 0)
     then [CallService
             (List.map rcontent
                (List.filter isMath (extractSegments input)))]
     else []).
Proof.
  unfold convertMathToLatex.
  destruct (List.filter isMath (extractSegments input)) as [|m l].
  - simpl. now rewrite andb_false_r.
  - destruct hasOpenAIKey; simpl.
    + destruct (service _) as [|[|item items]]; reflexivity.
    + reflexivity.
Qed.

(** X26: the editor and the server read a posted document alike.  When the
    effect of the editor posts, the handler of [/convert] given the posted
    body does not reject it: it answers 200 or 500 after converting exactly
    the document; and the instructions the server finds in it, which it sends
    to the service in one batch when a key is set, are the snapshot the editor
    kept for its cache, each trimmed, in the same order. *)
Theorem posted_request_matches_snapshot (st : AppState) (input : list N)
  (pending : Pending) :
  snd (conversionEffect App.extractSegments st input) = Some pending ->
  forall hasOpenAIKey service,
    let answer := postConvert hasOpenAIKey service
                    (inputBody (request pending)) in
    (statusCode (fst answer) = 200 \/ statusCode (fst answer) = 500)
    /\ snd answer
       = CallConvert input
           :: (if hasOpenAIKey
               then [CallService (List.map trim (mathSnapshot pending))]
               else [])
    /\ List.map trim (mathSnapshot pending)
       = List.map rcontent (List.filter isMath (extractSegments input)).
Proof.
  intros H hasOpenAIKey service.
  destruct (conversionEffect_posts _ _ _ _ H) as (B & X & Hr & Hm).
  assert (Hi : input <> []) by (intros ->; discriminate).
  assert (M : List.map trim (mathSnapshot pending)
              = List.map rcontent
                  (List.filter isMath (extractSegments input))).
  { now rewrite Hm, server_instructions. }
  assert (Hne : List.filter isMath (extractSegments input) <> []).
  { intros E. rewrite E in M. apply existsb_exists in X as (segment & I & S).
    assert (J : In (rcontent segment) (mathSnapshot pending)).
    { rewrite Hm. apply in_map. apply filter_In. now split. }
    destruct (mathSnapshot pending); [destruct J | discriminate]. }
  cbv zeta. rewrite Hr.
  rewrite (postConvert_string _ _ _ input (destructure_inputBody input) Hi).
  pose proof (convertMathToLatex_calls hasOpenAIKey service input) as C.
  rewrite <- M in C.
  destruct (convertMathToLatex hasOpenAIKey service input)
    as [[segments|] calls]; simpl in *; subst calls;
    (split; [auto|]; split; [|exact M]);
    destruct (List.filter isMath (extractSegments input));
    try congruence; simpl; now rewrite andb_true_r.
Qed.

Lemma posted_request_matches_snapshot_witness :
  let pending := mkPending (lit "* a * b") [lit " a "] in
  let answer := postConvert true (fun _ => RequestFails)
                  (inputBody (request pending)) in
  (statusCode (fst answer) = 200 \/ statusCode (fst answer) = 500)
  /\ snd answer
     = [CallConvert (lit "* a * b");
        CallService (List.map trim (mathSnapshot pending))]
  /\ List.map trim (mathSnapshot pending)
     = List.map rcontent
         (List.filter isMath (extractSegments (lit "* a * b"))).
Proof.
  apply (posted_request_matches_snapshot initialState (lit "* a * b")
           (mkPending (lit "* a * b") [lit " a "]) eq_refl true
           (fun _ => RequestFails)).
Defined.
